(** * saas-starter: authentication, validation and ownership discipline

    A shallow embedding of the server-side logic of the CRM starter:

    - [src/schemas/*.ts]         the Zod input contracts (shared, auth,
                                  contacts, deals, organizations);
    - [src/lib/errors.ts]        the error classes and [handleActionError];
    - [src/actions/contacts/*]   the three contact Server Actions;
    - [src/lib/supabase/middleware.ts]  the route guard [updateSession];
    - [src/app/api/webhooks/stripe/route.ts]  the webhook entry point;
    - [src/db/queries/contacts.ts]  the reads of the contact data layer;
    - [src/actions/auth/*]       the login, register and logout actions;
    - [src/lib/utils.ts]         [truncate] and [formatRelativeTime];
    - [src/config/navigation.ts] and [src/stores/ui-store.ts].

    JavaScript strings are modelled by [string], one character per code
    unit (the 8-bit range).  Objects used as dictionaries are [gmap string].
    The relational table is a list of rows.  The hosted services (identity
    provider, database engine, cache) are modelled by an explicit world
    that a handler threads through its steps, with a trace of the effects
    it has requested. *)

From Stdlib Require Import ZArith QArith Qround Ascii String DecimalString List Bool Lia.
From stdpp Require Import base option list strings gmap.

Local Open Scope string_scope.
Local Open Scope list_scope.

(* ===================================================================== *)
(** ** JavaScript values and string primitives *)
(* ===================================================================== *)

Module JS.

(** A JavaScript number: [NaN], a signed infinity, or a finite value. *)
Inductive number :=
| NaN
| Infinity (negative : bool)
| Finite (q : Q).

(** The values that reach a schema: a missing property, a form string, a
    coerced number, or an uploaded [File] (the other kind of
    [FormDataEntryValue]). *)
Inductive value :=
| Undefined
| Str (s : string)
| Num (n : number)
| File (name : string).

(** A plain object used as a dictionary. *)
Abbreviation object := (gmap string value).

(** [typeof v === "undefined"]. *)
Definition is_undefined (v : value) : bool :=
  match v with Undefined => true | _ => false end.

(** [o[k]]: a missing property reads as [undefined]. *)
Definition get (o : object) (k : string) : value :=
  default Undefined (o !! k).

(** [k in o]. *)
Definition has (o : object) (k : string) : bool :=
  bool_decide (is_Some (o !! k)).

(** [Object.fromEntries(entries)]: a later entry overwrites an earlier
    one with the same key. *)
Definition fromEntries (entries : list (string * value)) : object :=
  fold_left (fun o kv => <[ kv.1 := kv.2 ]> o) entries ∅.

(** [Number.isInteger]. *)
Definition isInteger (n : number) : bool :=
  match n with
  | Finite q => (Z.rem (Qnum q) (Zpos (Qden q)) =? 0)%Z
  | _ => false
  end.

(** [n < c] and [n > c] against an integer constant; every comparison
    with [NaN] is false. *)
Definition lt (n : number) (c : Z) : bool :=
  match n with
  | NaN => false
  | Infinity neg => neg
  | Finite q => negb (Qle_bool (inject_Z c) q)
  end.

Definition gt (n : number) (c : Z) : bool :=
  match n with
  | NaN => false
  | Infinity neg => negb neg
  | Finite q => negb (Qle_bool q (inject_Z c))
  end.

(** Truthiness, as used by [val || undefined]. *)
Definition truthy (v : value) : bool :=
  match v with
  | Undefined => false
  | Str s => negb (String.eqb s EmptyString)
  | Num NaN => false
  | Num (Infinity _) => true
  | Num (Finite q) => negb (Qeq_bool q 0)
  | File _ => true
  end.

(** [a === b].  Two numbers are compared by value and [NaN] equals
    nothing; two [File] objects are compared by name, which stands for
    their identity. *)
Definition strict_eq (a b : value) : bool :=
  match a, b with
  | Undefined, Undefined => true
  | Str x, Str y => String.eqb x y
  | Num (Finite x), Num (Finite y) => Qeq_bool x y
  | Num (Infinity x), Num (Infinity y) => Bool.eqb x y
  | File x, File y => String.eqb x y
  | _, _ => false
  end.

(** [a || b]. *)
Definition or_ (a b : value) : value := if truthy a then a else b.

(** The [typeof]-based classification Zod reports in its messages. *)
Definition parsedType (v : value) : string :=
  match v with
  | Undefined => "undefined"
  | Str _ => "string"
  | Num NaN => "nan"
  | Num _ => "number"
  | File _ => "object"
  end.

(** *** Characters *)

Definition code (c : ascii) : N := N_of_ascii c.

Definition in_range (lo hi : N) (c : ascii) : bool :=
  ((lo <=? code c) && (code c <=? hi))%N.

Definition is_upper : ascii -> bool := in_range 65 90.
Definition is_lower : ascii -> bool := in_range 97 122.
Definition is_digit : ascii -> bool := in_range 48 57.
Definition is_char (a c : ascii) : bool := Ascii.eqb a c.

(** White space and line terminators stripped by [String.prototype.trim]
    that fall in the modelled range: TAB, LF, VT, FF, CR, SP, NBSP. *)
Definition is_space (c : ascii) : bool :=
  in_range 9 13 c || (code c =? 32)%N || (code c =? 160)%N.

(** [toLowerCase] on one code unit: A-Z and the Latin-1 capitals
    (U+00C0..U+00DE except the multiplication sign U+00D7). *)
Definition lower_char (c : ascii) : ascii :=
  if is_upper c || (in_range 192 222 c && negb (code c =? 215)%N)
  then ascii_of_N (code c + 32) else c.

(** *** Strings *)

Fixpoint map_string (f : ascii -> ascii) (s : string) : string :=
  match s with
  | EmptyString => EmptyString
  | String c r => String (f c) (map_string f r)
  end.

Definition toLowerCase : string -> string := map_string lower_char.

Fixpoint trimStart (s : string) : string :=
  match s with
  | String c r => if is_space c then trimStart r else s
  | EmptyString => EmptyString
  end.

(** [trimEnd], by structural recursion: the tail is trimmed first, and a
    space in front of an empty remainder goes too. *)
Fixpoint trimEnd (s : string) : string :=
  match s with
  | EmptyString => EmptyString
  | String c r =>
      match trimEnd r with
      | EmptyString => if is_space c then EmptyString else String c EmptyString
      | r' => String c r'
      end
  end.

Definition trim (s : string) : string := trimEnd (trimStart s).

(** [s.startsWith(p)]. *)
Fixpoint startsWith (s p : string) : bool :=
  match p, s with
  | EmptyString, _ => true
  | String a p', String b s' => Ascii.eqb a b && startsWith s' p'
  | String _ _, EmptyString => false
  end.

(** [s.includes(p)]. *)
Fixpoint includes (s p : string) : bool :=
  startsWith s p ||
  match s with
  | EmptyString => false
  | String _ s' => includes s' p
  end.

(** [s.length] in code units. *)
Definition length (s : string) : Z := Z.of_nat (String.length s).

(** [xs.some(f)]. *)
Definition some {A} (f : A -> bool) (xs : list A) : bool := existsb f xs.

End JS.

(* ===================================================================== *)
(** ** Regular expressions

    The regular-expression literals of the schemas are boolean tests, so a
    derivative matcher is an exact model of [RegExp.prototype.test] for
    them. *)
(* ===================================================================== *)

Module Regex.

Inductive t :=
| Void
| Eps
| Class (p : ascii -> bool)
| Seq (r1 r2 : t)
| Alt (r1 r2 : t)
| Star (r : t).

Fixpoint nullable (r : t) : bool :=
  match r with
  | Void => false
  | Eps => true
  | Class _ => false
  | Seq r1 r2 => nullable r1 && nullable r2
  | Alt r1 r2 => nullable r1 || nullable r2
  | Star _ => true
  end.

Fixpoint deriv (c : ascii) (r : t) : t :=
  match r with
  | Void => Void
  | Eps => Void
  | Class p => if p c then Eps else Void
  | Seq r1 r2 =>
      if nullable r1
      then Alt (Seq (deriv c r1) r2) (deriv c r2)
      else Seq (deriv c r1) r2
  | Alt r1 r2 => Alt (deriv c r1) (deriv c r2)
  | Star r1 => Seq (deriv c r1) (Star r1)
  end.

(** [/^r$/.test(s)]: the whole string matches. *)
Fixpoint matches (r : t) (s : string) : bool :=
  match s with
  | EmptyString => nullable r
  | String c s' => matches (deriv c r) s'
  end.

Definition any : t := Class (fun _ => true).
Definition opt (r : t) : t := Alt Eps r.
Definition plus (r : t) : t := Seq r (Star r).

(** [r{n}] and [r{n,m}] (with [m = n + extra]). *)
Fixpoint times (n : nat) (r : t) : t :=
  match n with
  | O => Eps
  | S n' => Seq r (times n' r)
  end.

Fixpoint upto (n : nat) (r : t) : t :=
  match n with
  | O => Eps
  | S n' => opt (Seq r (upto n' r))
  end.

Definition between (n extra : nat) (r : t) : t := Seq (times n r) (upto extra r).

(** [/r/.test(s)] without anchors: some substring matches. *)
Definition test (r : t) (s : string) : bool :=
  matches (Seq (Star any) (Seq r (Star any))) s.

End Regex.

(* ===================================================================== *)
(** ** The schema library (Zod 3, synchronous parsing)

    A schema is a function from a path and an input to a parse status, an
    output and the issues it raised.  The three statuses are Zod's: [OK]
    (valid), [DIRTY] (a value together with at least one issue) and
    [INVALID] (aborted, no value). *)
(* ===================================================================== *)

Module Zod.

Inductive code :=
| invalid_type
| invalid_literal
| invalid_union
| invalid_enum_value
| invalid_string
| too_small
| too_big
| custom.

Record issue := Issue {
  issue_code : code;
  path : list string;
  message : string
}.

Inductive parsed (A : Type) :=
| OK (v : A)
| DIRTY (v : A)
| INVALID.
Arguments OK {A} v.
Arguments DIRTY {A} v.
Arguments INVALID {A}.

Definition schema (I O : Type) : Type :=
  list string -> I -> parsed O * list issue.

(** A schema over one form value. *)
Definition field := schema JS.value JS.value.

Definition isValid {A} (r : parsed A) : bool :=
  match r with OK _ => true | _ => false end.

Definition isAborted {A} (r : parsed A) : bool :=
  match r with INVALID => true | _ => false end.

(** The format tests that live outside the repository: Zod's e-mail and
    UUID patterns and the platform's [URL] constructor ([true] when
    [new URL(s)] does not throw). *)
Class Formats := {
  email_ok : string -> bool;
  url_ok : string -> bool;
  uuid_ok : string -> bool
}.

(** The platform's [Number(x)] coercion. *)
Class Coercion := {
  Number : JS.value -> JS.number
}.

(** The default error map, for a value of the wrong type. *)
Definition type_message (expected : string) (v : JS.value) : string :=
  match v with
  | JS.Undefined => "Required"
  | _ => "Expected " ++ expected ++ ", received " ++ JS.parsedType v
  end.

(** *** [z.string()] and its checks *)

Inductive check :=
| Min (n : Z) (msg : string)
| Max (n : Z) (msg : string)
| Length (n : Z) (msg : string)
| Email (msg : string)
| Url (msg : string)
| Uuid (msg : string)
| Matches (test : string -> bool) (msg : string)
| Trim
| ToLowerCase.

Section Strings.
Context `{F : Formats}.

(** One iteration of the loop over [this._def.checks]: the issue raised
    (if any) and the possibly rewritten [input.data]. *)
Definition run_check (p : list string) (c : check) (data : string)
  : option issue * string :=
  match c with
  | Min n msg =>
      (if (JS.length data <? n)%Z then Some (Issue too_small p msg) else None, data)
  | Max n msg =>
      (if (n <? JS.length data)%Z then Some (Issue too_big p msg) else None, data)
  | Length n msg =>
      (if (JS.length data <? n)%Z then Some (Issue too_small p msg)
       else if (n <? JS.length data)%Z then Some (Issue too_big p msg)
       else None, data)
  | Email msg =>
      (if email_ok data then None else Some (Issue invalid_string p msg), data)
  | Url msg =>
      (if url_ok data then None else Some (Issue invalid_string p msg), data)
  | Uuid msg =>
      (if uuid_ok data then None else Some (Issue invalid_string p msg), data)
  | Matches test msg =>
      (if test data then None else Some (Issue invalid_string p msg), data)
  | Trim => (None, JS.trim data)
  | ToLowerCase => (None, JS.toLowerCase data)
  end.

(** The whole loop: every check runs, in order, on the current data. *)
Fixpoint run_checks (p : list string) (cs : list check) (data : string)
  : list issue * string :=
  match cs with
  | [] => ([], data)
  | c :: cs' =>
      let '(i, data') := run_check p c data in
      let '(errs, out) := run_checks p cs' data' in
      (match i with Some x => x :: errs | None => errs end, out)
  end.

(** [ZodString._parse]. *)
Definition str (cs : list check) : field := fun p v =>
  match v with
  | JS.Str s =>
      let '(errs, out) := run_checks p cs s in
      (match errs with [] => OK (JS.Str out) | _ => DIRTY (JS.Str out) end, errs)
  | _ => (INVALID, [Issue invalid_type p (type_message "string" v)])
  end.
End Strings.

(** *** [z.coerce.number()] and its checks *)

Inductive ncheck :=
| Int (msg : string)
| NMin (n : Z) (msg : string)
| NMax (n : Z) (msg : string).

Definition run_ncheck (p : list string) (c : ncheck) (n : JS.number) : option issue :=
  match c with
  | Int msg => if JS.isInteger n then None else Some (Issue invalid_type p msg)
  | NMin k msg => if JS.lt n k then Some (Issue too_small p msg) else None
  | NMax k msg => if JS.gt n k then Some (Issue too_big p msg) else None
  end.

(** The message of [.int()] when none is given. *)
Definition int_message : string := "Expected integer, received float".

(** [ZodNumber._parse] with [coerce: true]. *)
Definition coerce_number `{C : Coercion} (cs : list ncheck) : field := fun p v =>
  let n := Number v in
  match n with
  | JS.NaN => (INVALID, [Issue invalid_type p (type_message "number" (JS.Num n))])
  | _ =>
      let errs := omap (fun c => run_ncheck p c n) cs in
      (match errs with [] => OK (JS.Num n) | _ => DIRTY (JS.Num n) end, errs)
  end.

(** *** Combinators *)

(** [.optional()]. *)
Definition optional (s : field) : field := fun p v =>
  match v with
  | JS.Undefined => (OK JS.Undefined, [])
  | _ => s p v
  end.

(** [JSON.stringify] of a string without characters to escape. *)
Definition quote : string := String (ascii_of_nat 34) EmptyString.
Definition stringify (s : string) : string := quote ++ s ++ quote.

(** [z.literal(lit)] for a string literal. *)
Definition literal (lit : string) : field := fun p v =>
  match v with
  | JS.Str s =>
      if String.eqb s lit then (OK v, [])
      else (INVALID, [Issue invalid_literal p
                        ("Invalid literal value, expected " ++ stringify lit)])
  | _ => (INVALID, [Issue invalid_literal p
                      ("Invalid literal value, expected " ++ stringify lit)])
  end.

(** [a.or(b)], the two-option [ZodUnion]: the first valid option wins;
    failing that the first dirty one, with its issues; failing that a
    single [invalid_union] issue. *)
Definition or_ (a b : field) : field := fun p v =>
  let ra := a p v in
  if isValid ra.1 then ra else
  let rb := b p v in
  if isValid rb.1 then rb else
  match ra.1, rb.1 with
  | DIRTY _, _ => ra
  | _, DIRTY _ => rb
  | _, _ => (INVALID, [Issue invalid_union p "Invalid input"])
  end.

(** [.transform(f)]: [f] runs on a valid inner result only. *)
Definition transform {I A B} (s : schema I A) (f : A -> B) : schema I B := fun p v =>
  match s p v with
  | (OK x, errs) => (OK (f x), errs)
  | (_, errs) => (INVALID, errs)
  end.

(** [.default(d)]. *)
Definition default_ (s : field) (d : JS.value) : field := fun p v =>
  match v with
  | JS.Undefined => s p d
  | _ => s p v
  end.

(** [util.joinValues]: the quoted options separated by [ | ]. *)
Fixpoint joinValues (vs : list string) : string :=
  match vs with
  | [] => EmptyString
  | [v] => "'" ++ v ++ "'"
  | v :: vs' => "'" ++ v ++ "' | " ++ joinValues vs'
  end.

(** [z.enum(values)]. *)
Definition enum (values : list string) : field := fun p v =>
  match v with
  | JS.Str s =>
      if bool_decide (s ∈ values) then (OK v, [])
      else (INVALID, [Issue invalid_enum_value p
             ("Invalid enum value. Expected " ++ joinValues values
              ++ ", received '" ++ s ++ "'")])
  | _ => (INVALID, [Issue invalid_type p (type_message (joinValues values) v)])
  end.

(** *** [z.object(shape)] *)

Definition shape := list (string * field).

(** One [pair] of [ZodObject._parse]: the key, whether it is present in
    the input ([alwaysSet]) and the parse of its value. *)
Definition parse_pair (p : list string) (data : JS.object) (kf : string * field)
  : string * bool * (parsed JS.value * list issue) :=
  (kf.1, JS.has data kf.1, kf.2 (p ++ [kf.1]) (JS.get data kf.1)).

(** [ParseStatus.mergeObjectSync]. *)
Fixpoint mergeObjectSync (dirty : bool) (acc : JS.object)
    (pairs : list (string * bool * (parsed JS.value * list issue)))
  : parsed JS.object :=
  match pairs with
  | [] => if dirty then DIRTY acc else OK acc
  | (k, alwaysSet, (r, _)) :: rest =>
      match r with
      | INVALID => INVALID
      | OK v | DIRTY v =>
          let dirty' := dirty || negb (isValid r) in
          let keep := negb (String.eqb k "__proto__")
                      && (negb (JS.is_undefined v) || alwaysSet) in
          mergeObjectSync dirty' (if keep then <[ k := v ]> acc else acc) rest
      end
  end.

(** [ZodObject._parse] with the default [strip] policy for unknown
    keys: every field of the shape is parsed, then the results merge. *)
Definition object (sh : shape) : schema JS.object JS.object := fun p data =>
  let pairs := map (parse_pair p data) sh in
  (mergeObjectSync false ∅ pairs, concat (map (fun x => x.2.2) pairs)).

(** [.partial()]: every field becomes optional. *)
Definition partial (sh : shape) : shape :=
  map (fun kf => (kf.1, optional kf.2)) sh.

(** [.refine(check, { message, path })] ([ZodEffects], refinement): the
    check runs unless the inner parse aborted. *)
Definition refine {I A} (s : schema I A) (test : A -> bool)
    (msg : string) (sub : list string) : schema I A := fun p v =>
  match s p v with
  | (INVALID, errs) => (INVALID, errs)
  | (OK x, errs) =>
      if test x then (OK x, errs)
      else (DIRTY x, errs ++ [Issue custom (p ++ sub) msg])
  | (DIRTY x, errs) =>
      if test x then (DIRTY x, errs)
      else (DIRTY x, errs ++ [Issue custom (p ++ sub) msg])
  end.

(** *** [safeParse] and [ZodError.flatten] *)

Inductive SafeParseReturn (A : Type) :=
| Success (data : A)
| Failure (error : list issue).
Arguments Success {A} data.
Arguments Failure {A} error.

(** [safeParse] succeeds on a valid result and hands the issues over
    otherwise (never an empty list, for the schemas of this file). *)
Definition safeParse {I A} (s : schema I A) (data : I) : SafeParseReturn A :=
  match s [] data with
  | (OK v, _) => Success v
  | (_, errs) => Failure errs
  end.

Abbreviation FieldErrors := (gmap string (list string)).

(** One step of the loop in [flatten]: an issue with a non-empty path is
    filed under the first path element. *)
Definition file_issue (acc : FieldErrors * list string) (i : issue)
  : FieldErrors * list string :=
  match path i with
  | k :: _ => (<[ k := default [] (acc.1 !! k) ++ [message i] ]> acc.1, acc.2)
  | [] => (acc.1, acc.2 ++ [message i])
  end.

Definition flatten (errs : list issue) : FieldErrors * list string :=
  fold_left file_issue errs (∅, []).

Definition fieldErrors (errs : list issue) : FieldErrors := (flatten errs).1.
Definition formErrors (errs : list issue) : list string := (flatten errs).2.

End Zod.

(* ===================================================================== *)
(** ** The schemas of [src/schemas] *)
(* ===================================================================== *)

Module Schemas.
Import Zod.

(** [(val) => val || undefined]. *)
Definition or_undefined (val : JS.value) : JS.value := JS.or_ val JS.Undefined.

Definition digit : Regex.t := Regex.Class JS.is_digit.

(** [/^\+?[1-9]\d{1,14}$/]. *)
Definition phone_regex : Regex.t :=
  Regex.Seq (Regex.opt (Regex.Class (JS.is_char "+")))
    (Regex.Seq (Regex.Class (JS.in_range 49 57)) (Regex.between 1 13 digit)).

(** [/[A-Z]/], [/[a-z]/] and [/[0-9]/]. *)
Definition has_upper : string -> bool := Regex.test (Regex.Class JS.is_upper).
Definition has_lower : string -> bool := Regex.test (Regex.Class JS.is_lower).
Definition has_digit : string -> bool := Regex.test digit.

Section Shared.
Context `{F : Formats} `{C : Coercion}.

(** *** shared.ts *)

Definition emailSchema : field :=
  str [Min 1 "Email is required"; Email "Invalid email address"; ToLowerCase; Trim].

Definition phoneSchema : field :=
  transform
    (or_ (optional (str [Matches (Regex.matches phone_regex) "Invalid phone number format"]))
         (literal EmptyString))
    or_undefined.

Definition urlSchema : field :=
  transform
    (or_ (optional (str [Url "Invalid URL format"])) (literal EmptyString))
    or_undefined.

Definition uuidSchema : field := str [Uuid "Invalid ID format"].

Definition currencySchema : field :=
  optional (coerce_number [Int int_message; NMin 0 "Amount must be positive"]).

Definition percentageSchema : field :=
  optional (coerce_number
    [Int int_message; NMin 0 "Must be at least 0"; NMax 100 "Must be at most 100"]).

(** *** auth.ts *)

Definition passwordField : field :=
  str [Min 8 "Password must be at least 8 characters";
       Matches has_upper "Password must contain at least one uppercase letter";
       Matches has_lower "Password must contain at least one lowercase letter";
       Matches has_digit "Password must contain at least one number"].

(** [(data) => data.password === data.confirmPassword]. *)
Definition passwords_equal (data : JS.object) : bool :=
  JS.strict_eq (JS.get data "password") (JS.get data "confirmPassword").

Definition loginShape : shape :=
  [ ("email", emailSchema);
    ("password", str [Min 1 "Password is required"]) ].
Definition loginSchema := object loginShape.

Definition registerShape : shape :=
  [ ("email", emailSchema);
    ("password", passwordField);
    ("confirmPassword", str [Min 1 "Please confirm your password"]);
    ("fullName", str [Min 2 "Name must be at least 2 characters";
                      Max 100 "Name must be less than 100 characters"]) ].
Definition registerSchema :=
  refine (object registerShape) passwords_equal
    "Passwords do not match" ["confirmPassword"].

Definition forgotPasswordShape : shape := [ ("email", emailSchema) ].
Definition forgotPasswordSchema := object forgotPasswordShape.

Definition resetPasswordShape : shape :=
  [ ("password", passwordField);
    ("confirmPassword", str [Min 1 "Please confirm your password"]) ].
Definition resetPasswordSchema :=
  refine (object resetPasswordShape) passwords_equal
    "Passwords do not match" ["confirmPassword"].

Definition updateProfileShape : shape :=
  [ ("fullName", optional (str [Min 2 "Name must be at least 2 characters";
                                Max 100 "Name must be less than 100 characters"]));
    ("avatarUrl", or_ (optional (str [Url "Invalid URL"])) (literal EmptyString)) ].
Definition updateProfileSchema := object updateProfileShape.

(** *** contacts.ts *)

Definition contactTypes : list string :=
  ["lead"; "customer"; "partner"; "vendor"; "other"].

(** The recurring optional free-text field: a length bound, optional,
    the empty string allowed and mapped to [undefined]. *)
Definition optionalText (bound : Z) (msg : string) : field :=
  transform (or_ (optional (str [Max bound msg])) (literal EmptyString)) or_undefined.

(** [uuidSchema.optional().or(z.literal('')).transform(...)]. *)
Definition optionalUuid : field :=
  transform (or_ (optional uuidSchema) (literal EmptyString)) or_undefined.

Definition contactShape : shape :=
  [ ("firstName", str [Min 1 "First name is required";
                       Max 100 "First name must be less than 100 characters"; Trim]);
    ("lastName", str [Min 1 "Last name is required";
                      Max 100 "Last name must be less than 100 characters"; Trim]);
    ("email", emailSchema);
    ("phone", phoneSchema);
    ("title", optionalText 100 "Title must be less than 100 characters");
    ("type", default_ (optional (enum contactTypes)) (JS.Str "lead"));
    ("organizationId", optionalUuid);
    ("notes", optionalText 2000 "Notes must be less than 2000 characters");
    ("linkedinUrl", urlSchema);
    ("twitterUrl", urlSchema) ].
Definition contactSchema := object contactShape.

(** [contactSchema.partial()]. *)
Definition contactUpdateSchema := object (partial contactShape).

(** *** deals.ts *)

Definition dealStages : list string :=
  ["lead"; "qualified"; "proposal"; "negotiation"; "closed_won"; "closed_lost"].

Definition dealShape : shape :=
  [ ("title", str [Min 1 "Deal title is required";
                   Max 200 "Title must be less than 200 characters"; Trim]);
    ("description", optionalText 2000 "Description must be less than 2000 characters");
    ("value", currencySchema);
    ("currency", default_ (str [Length 3 "Currency must be a 3-letter code"]) (JS.Str "USD"));
    ("stage", default_ (enum dealStages) (JS.Str "lead"));
    ("probability", percentageSchema);
    ("contactId", optionalUuid);
    ("organizationId", optionalUuid);
    ("expectedCloseDate",
       transform (or_ (optional (str [])) (literal EmptyString)) or_undefined);
    ("notes", optionalText 2000 "Notes must be less than 2000 characters") ].
Definition dealSchema := object dealShape.
Definition dealUpdateSchema := object (partial dealShape).

Definition moveDealShape : shape :=
  [ ("dealId", uuidSchema); ("stage", enum dealStages) ].
Definition moveDealSchema := object moveDealShape.

(** *** organizations.ts *)

(** [(val) => (val === '' ? undefined : val)]. *)
Definition blank_to_undefined (val : JS.value) : JS.value :=
  match val with
  | JS.Str EmptyString => JS.Undefined
  | _ => val
  end.

Definition organizationShape : shape :=
  [ ("name", str [Min 1 "Organization name is required";
                  Max 200 "Name must be less than 200 characters"; Trim]);
    ("website", urlSchema);
    ("industry", optionalText 100 "Industry must be less than 100 characters");
    ("description", optionalText 2000 "Description must be less than 2000 characters");
    ("address", optionalText 200 "Address must be less than 200 characters");
    ("city", optionalText 100 "City must be less than 100 characters");
    ("state", optionalText 100 "State must be less than 100 characters");
    ("country", optionalText 100 "Country must be less than 100 characters");
    ("postalCode", optionalText 20 "Postal code must be less than 20 characters");
    ("employeeCount",
       transform
         (or_ (optional (coerce_number
                           [Int int_message; NMin 0 "Employee count must be positive"]))
              (literal EmptyString))
         blank_to_undefined);
    ("annualRevenue", currencySchema);
    ("linkedinUrl", urlSchema);
    ("logoUrl", urlSchema) ].
Definition organizationSchema := object organizationShape.
Definition organizationUpdateSchema := object (partial organizationShape).

End Shared.

(** *** The format tests of the stock library

    Zod 3.25's patterns, for running the schemas on concrete inputs.
    An e-mail address does not start with a dot and has no two dots in a
    row; its local part is a run of letters, digits and [_ ' + - .] that
    ends in a letter, a digit or one of [_ + -]; after the [@] come one
    or more labels (a letter or digit, then letters, digits and
    hyphens, then a dot) and a last label of two or more letters.  The
    pattern is case-insensitive.  A UUID is the 8-4-4-4-12 hexadecimal
    pattern. *)

Definition is_alpha (c : ascii) : bool := JS.is_upper c || JS.is_lower c.
Definition is_alnum (c : ascii) : bool := is_alpha c || JS.is_digit c.
Definition one_of (cs : string) (c : ascii) : bool :=
  existsb (Ascii.eqb c) (list_ascii_of_string cs).
Definition is_hex (c : ascii) : bool :=
  JS.is_digit c || JS.in_range 65 70 c || JS.in_range 97 102 c.

Definition email_regex : Regex.t :=
  let local := Regex.Class (fun c => is_alnum c || one_of "_'+-." c) in
  let last := Regex.Class (fun c => is_alnum c || one_of "_+-" c) in
  let label := Regex.Seq (Regex.Class is_alnum)
                 (Regex.Seq (Regex.Star (Regex.Class (fun c => is_alnum c || one_of "-" c)))
                            (Regex.Class (JS.is_char "."))) in
  let alpha := Regex.Class is_alpha in
  Regex.Seq (Regex.Star local)
    (Regex.Seq last
      (Regex.Seq (Regex.Class (JS.is_char "@"))
        (Regex.Seq (Regex.plus label)
          (Regex.Seq alpha (Regex.plus alpha))))).

Definition zod_email (s : string) : bool :=
  negb (JS.startsWith s ".") && negb (JS.includes s "..")
  && Regex.matches email_regex s.

Definition uuid_regex : Regex.t :=
  let hex := Regex.Class is_hex in
  let dash := Regex.Class (JS.is_char "-") in
  Regex.Seq (Regex.times 8 hex)
    (Regex.Seq dash (Regex.Seq (Regex.times 4 hex)
      (Regex.Seq dash (Regex.Seq (Regex.times 4 hex)
        (Regex.Seq dash (Regex.Seq (Regex.times 4 hex)
          (Regex.Seq dash (Regex.times 12 hex)))))))).

Definition zod_uuid : string -> bool := Regex.matches uuid_regex.

(** The [URL] constructor needs a scheme; this is the part of the URL
    parser kept here (a letter, then letters, digits, [+], [-] or [.],
    then a colon). *)
Definition has_scheme : string -> bool :=
  Regex.matches
    (Regex.Seq (Regex.Class is_alpha)
      (Regex.Seq (Regex.Star (Regex.Class (fun c => is_alnum c || one_of "+-." c)))
        (Regex.Seq (Regex.Class (JS.is_char ":")) (Regex.Star Regex.any)))).

Definition stock : Formats :=
  {| email_ok := zod_email; url_ok := has_scheme; uuid_ok := zod_uuid |}.

End Schemas.

(* ===================================================================== *)
(** ** The outside world and the handler monad *)
(* ===================================================================== *)

Module World.

(** The identity returned by the hosted provider. *)
Record User := { user_id : string; user_email : string }.

(** A row of the [contacts] table ([src/db/schema/contacts.ts]): the
    key, the owner, the data columns by name (a missing column is SQL
    NULL) and the two audit timestamps. *)
Record Contact := {
  id : string;
  userId : string;
  columns : JS.object;
  createdAt : Z;
  updatedAt : Z
}.

Inductive statement :=
| InsertInto (values : JS.object) (uid : string)
| UpdateWhere (set : JS.object) (id uid : string)
| DeleteWhere (id uid : string).

(** What a handler asks of its collaborators, in order. *)
Inductive effect :=
| Sql (s : statement)
| RevalidatePath (p : string)
| ConsoleError (msg : string).

Record t := {
  session : option User;        (* what [auth.getUser()] answers *)
  refreshed : list (string * string);  (* cookies it asks to set *)
  clock : Z;                    (* [new Date()] and [defaultNow()] *)
  uuids : nat -> string;        (* [defaultRandom()] *)
  seed : nat;
  contacts : list Contact;
  trace : list effect;
  refused : statement -> option string  (* the fault of a statement the engine refuses *)
}.

Definition emit (e : effect) (w : t) : t :=
  {| session := session w; refreshed := refreshed w; clock := clock w; uuids := uuids w; seed := seed w;
     contacts := contacts w; trace := trace w ++ [e]; refused := refused w |}.

Definition with_contacts (rows : list Contact) (w : t) : t :=
  {| session := session w; refreshed := refreshed w; clock := clock w; uuids := uuids w; seed := seed w;
     contacts := rows; trace := trace w; refused := refused w |}.

Definition next_seed (w : t) : t :=
  {| session := session w; refreshed := refreshed w; clock := clock w; uuids := uuids w; seed := S (seed w);
     contacts := contacts w; trace := trace w; refused := refused w |}.

(** The statements among the effects of a trace. *)
Definition statements (tr : list effect) : list statement :=
  omap (fun e => match e with Sql s => Some s | _ => None end) tr.

End World.

Module Errors.
Import Zod.

(** *** lib/errors.ts *)

Inductive class :=
| AppErrorClass
| AuthenticationErrorClass
| AuthorizationErrorClass
| NotFoundErrorClass
| ValidationErrorClass
| ConflictErrorClass
| RateLimitErrorClass.

(** A thrown value: an [AppError] or one of its subclasses, another
    [Error] (a fault of the data layer), or something that is not an
    [Error] at all. *)
Inductive thrown :=
| App (cls : class) (message code : string) (statusCode : Z)
      (errors : option FieldErrors)
| Plain (message : string)
| NotAnError.

Definition AppError (message code : string) (statusCode : option Z) : thrown :=
  App AppErrorClass message code (default 400%Z statusCode) None.

Definition AuthenticationError (message : option string) : thrown :=
  App AuthenticationErrorClass
    (default "You must be logged in to perform this action" message)
    "UNAUTHENTICATED" 401 None.

Definition AuthorizationError (message : option string) : thrown :=
  App AuthorizationErrorClass
    (default "You are not authorized to perform this action" message)
    "UNAUTHORIZED" 403 None.

Definition NotFoundError (resource : option string) : thrown :=
  App NotFoundErrorClass (default "Resource" resource ++ " not found")
    "NOT_FOUND" 404 None.

Definition ValidationError (message : string) (errors : FieldErrors) : thrown :=
  App ValidationErrorClass message "VALIDATION_ERROR" 400 (Some errors).

Definition ConflictError (message : option string) : thrown :=
  App ConflictErrorClass (default "Resource already exists" message)
    "CONFLICT" 409 None.

Definition RateLimitError (message : option string) : thrown :=
  App RateLimitErrorClass
    (default "Too many requests. Please try again later." message)
    "RATE_LIMITED" 429 None.

(** *** types/api.ts *)

Inductive ActionResult :=
| Succeeded (data : option World.Contact) (message : option string)
| Failed (error : option string) (errors : option FieldErrors).

End Errors.

Module Handler.
Import World Errors.

Inductive completion (A : Type) :=
| Return (a : A)
| Throw (e : thrown).
Arguments Return {A} a.
Arguments Throw {A} e.

(** A computation reads and updates the world and either returns or
    throws. *)
Definition M (A : Type) : Type := World.t -> completion A * World.t.

Definition ret {A} (a : A) : M A := fun w => (Return a, w).

Definition throw {A} (e : thrown) : M A := fun w => (Throw e, w).

Definition bind {A B} (c : M A) (k : A -> M B) : M B := fun w =>
  match c w with
  | (Return a, w') => k a w'
  | (Throw e, w') => (Throw e, w')
  end.

(** [try { body } catch (error) { return handler(error) }]. *)
Definition try_catch {A} (body : M A) (handler : thrown -> M A) : M A := fun w =>
  match body w with
  | (Return a, w') => (Return a, w')
  | (Throw e, w') => handler e w'
  end.

Declare Scope handler_scope.
Delimit Scope handler_scope with handler.
Notation "x <- c ;; k" := (bind c (fun x => k))
  (at level 100, c at next level, right associativity) : handler_scope.
Notation "c ;;; k" := (bind c (fun _ => k))
  (at level 100, right associativity) : handler_scope.
Local Open Scope handler_scope.

(** *** Collaborators

    The table is held in memory, behind an engine that is reachable.  A
    statement that writes a row can be refused by the engine: an INSERT
    under a key that is taken is refused for the primary key, and the
    world says which other INSERT or UPDATE the engine refuses and with
    which message (a foreign key without its row: [organization_id], or
    [user_id] for a user without a profile row).  A refused statement
    throws an [Error] with that message and changes no row.  No
    constraint of the schema refuses a DELETE ([deals.contact_id] is set
    to null).  The keys of the statements are taken to be of the type of
    their column, as the keys of rows are: what the engine answers to a
    key that is no uuid is not modelled. *)

(** [supabase.auth.getUser()], reduced to its [data.user]. *)
Definition getUser : M (option User) := fun w => (Return (session w), w).

(** [revalidatePath(p)]. *)
Definition revalidatePath (p : string) : M unit := fun w =>
  (Return tt, emit (RevalidatePath p) w).

(** [console.error(label, error)]. *)
Definition console_error (msg : string) : M unit := fun w =>
  (Return tt, emit (ConsoleError msg) w).

(** The properties of an object that are not [undefined]: the ORM
    leaves the others to the column default. *)
Definition defined (o : JS.object) : JS.object :=
  filter (fun kv => JS.is_undefined kv.2 = false) o.

(** [and(eq(contacts.id, id), eq(contacts.userId, uid))]. *)
Definition owned_by (id uid : string) (r : Contact) : bool :=
  String.eqb (World.id r) id && String.eqb (userId r) uid.

(** The message of the engine for a key that is taken. *)
Definition duplicate_key : string :=
  "duplicate key value violates unique constraint " ++ Zod.stringify "contacts_pkey".

(** Some row has this key. *)
Definition key_taken (id : string) (rows : list Contact) : bool :=
  existsb (fun r => String.eqb (World.id r) id) rows.

(** [db.insert(contacts).values({ ...values, userId: uid }).returning()]:
    the row gets a generated key, the column default of [type] and both
    timestamps.  The key is generated whether or not the engine then
    takes the row. *)
Definition db_insert (values : JS.object) (uid : string) : M (list Contact) := fun w =>
  let row := {| id := uuids w (seed w);
                userId := uid;
                columns := defined values ∪ {[ "type" := JS.Str "lead" ]};
                createdAt := clock w;
                updatedAt := clock w |} in
  if key_taken (World.id row) (contacts w) then
    (Throw (Plain duplicate_key), emit (Sql (InsertInto values uid)) (next_seed w))
  else
    match refused w (InsertInto values uid) with
    | Some fault =>
        (Throw (Plain fault), emit (Sql (InsertInto values uid)) (next_seed w))
    | None =>
        (Return [row],
         emit (Sql (InsertInto values uid))
           (next_seed (with_contacts (contacts w ++ [row]) w)))
    end.

(** [SET] on one row. *)
Definition apply_set (set : JS.object) (now : Z) (r : Contact) : Contact :=
  {| id := World.id r; userId := userId r;
     columns := defined set ∪ columns r;
     createdAt := createdAt r; updatedAt := now |}.

(** [db.update(contacts).set({ ...set, updatedAt: new Date() })
       .where(and(eq(id), eq(userId))).returning()]: the engine checks
    the rows it rewrites, so it refuses nothing when no row matches. *)
Definition db_update (set : JS.object) (id uid : string) : M (list Contact) := fun w =>
  let now := clock w in
  let rows := map (fun r => if owned_by id uid r then apply_set set now r else r)
                  (contacts w) in
  match List.filter (owned_by id uid) rows, refused w (UpdateWhere set id uid) with
  | _ :: _, Some fault =>
      (Throw (Plain fault), emit (Sql (UpdateWhere set id uid)) w)
  | returned, _ =>
      (Return returned, emit (Sql (UpdateWhere set id uid)) (with_contacts rows w))
  end.

(** [db.delete(contacts).where(and(eq(id), eq(userId))).returning()]. *)
Definition db_delete (id uid : string) : M (list Contact) := fun w =>
  (Return (List.filter (owned_by id uid) (contacts w)),
   emit (Sql (DeleteWhere id uid))
     (with_contacts (List.filter (fun r => negb (owned_by id uid r)) (contacts w)) w)).

(** *** [handleActionError] *)

Definition handleActionError (error : thrown) : M ActionResult :=
  match error with
  | App ValidationErrorClass _ _ _ errors => ret (Failed None errors)
  | App _ message _ _ _ => ret (Failed (Some message) None)
  | _ =>
      let constraint :=
        match error with
        | Plain message =>
            if JS.includes message "unique constraint"
            then Some "A record with this value already exists"
            else if JS.includes message "foreign key constraint"
            then Some "Referenced record does not exist"
            else None
        | _ => None
        end in
      match constraint with
      | Some msg => ret (Failed (Some msg) None)
      | None =>
          console_error "Unexpected error:" ;;;
          ret (Failed (Some "An unexpected error occurred. Please try again.") None)
      end
  end.

End Handler.

(* ===================================================================== *)
(** ** The contact Server Actions ([src/actions/contacts]) *)
(* ===================================================================== *)

Module Actions.
Import Zod Schemas World Errors Handler.
Local Open Scope handler_scope.

(** A submitted form: the entries in order, each a string or a file. *)
Definition FormData := list (string * JS.value).

Section Contacts.
Context `{F : Formats}.

Definition createContact (_prevState : option ActionResult) (formData : FormData)
  : M ActionResult :=
  try_catch
    ((* 1. Authentication *)
     user <- getUser ;;
     match user with
     | None => throw (AuthenticationError None)
     | Some user =>
         (* 2. Validation *)
         let rawData := JS.fromEntries formData in
         match safeParse contactSchema rawData with
         | Failure error => ret (Failed None (Some (fieldErrors error)))
         | Success data =>
             (* 3. Database operation *)
             rows <- db_insert data (user_id user) ;;
             (* 4. Cache invalidation *)
             revalidatePath "/contacts" ;;;
             ret (Succeeded (head rows) (Some "Contact created successfully"))
         end
     end)
    handleActionError.

Definition updateContact (id : string) (_prevState : option ActionResult)
    (formData : FormData) : M ActionResult :=
  try_catch
    ((* 1. Authentication *)
     user <- getUser ;;
     match user with
     | None => throw (AuthenticationError None)
     | Some user =>
         (* 2. Validation *)
         let rawData := JS.fromEntries formData in
         match safeParse contactUpdateSchema rawData with
         | Failure error => ret (Failed None (Some (fieldErrors error)))
         | Success data =>
             (* 3. Database operation (with authorization check) *)
             rows <- db_update data id (user_id user) ;;
             match head rows with
             | None => throw (NotFoundError (Some "Contact"))
             | Some contact =>
                 (* 4. Cache invalidation *)
                 revalidatePath "/contacts" ;;;
                 revalidatePath ("/contacts/" ++ id) ;;;
                 ret (Succeeded (Some contact) (Some "Contact updated successfully"))
             end
         end
     end)
    handleActionError.

End Contacts.

Definition deleteContact (id : string) : M ActionResult :=
  try_catch
    ((* 1. Authentication *)
     user <- getUser ;;
     match user with
     | None => throw (AuthenticationError None)
     | Some user =>
         (* 2. Database operation (with authorization check) *)
         deleted <- db_delete id (user_id user) ;;
         if (Z.of_nat (List.length deleted) =? 0)%Z
         then throw (NotFoundError (Some "Contact"))
         else
           (* 3. Cache invalidation *)
           revalidatePath "/contacts" ;;;
           ret (Succeeded None (Some "Contact deleted successfully"))
     end)
    handleActionError.

End Actions.

(* ===================================================================== *)
(** ** The route guard ([src/lib/supabase/middleware.ts]) *)
(* ===================================================================== *)

Module Middleware.
Import World Handler.
Local Open Scope handler_scope.

(** [URLSearchParams]: an ordered list of name-value pairs. *)
Definition URLSearchParams := list (string * string).

(** [params.get(name)]: the first value under the name, or [null]. *)
Fixpoint params_get (ps : URLSearchParams) (name : string) : option string :=
  match ps with
  | [] => None
  | (k, v) :: rest => if String.eqb k name then Some v else params_get rest name
  end.

(** [params.delete(name)]: every pair under the name goes. *)
Definition params_delete (ps : URLSearchParams) (name : string) : URLSearchParams :=
  List.filter (fun kv => negb (String.eqb kv.1 name)) ps.

(** [params.set(name, value)]: the first pair under the name takes the
    value and the others go; without one, the pair is appended. *)
Fixpoint params_set (ps : URLSearchParams) (name value : string) : URLSearchParams :=
  match ps with
  | [] => [(name, value)]
  | (k, v) :: rest =>
      if String.eqb k name then (name, value) :: params_delete rest name
      else (k, v) :: params_set rest name value
  end.

(** The parts of a [URL] the guard reads and writes. *)
Record URL := {
  origin : string;
  pathname : string;
  searchParams : URLSearchParams
}.

(** A path in serialised form: a slash, then letters, digits, slashes,
    hyphens and underscores.  The URL parser finds nothing to encode, to
    strip or to resolve in such a path. *)
Definition serialised_path (p : string) : bool :=
  match p with
  | String "/" rest =>
      forallb (fun c => Schemas.is_alnum c || Schemas.one_of "/-_" c)
              (list_ascii_of_string rest)
  | _ => false
  end.

(** [url.pathname = p], for a path that the URL parser stores as it is
    given: a path in serialised form, a path read off a URL.  On another
    string the parser stores what it makes of it (a missing first slash
    is added, a question mark is encoded, dot segments are resolved), and
    that is not modelled: a statement on the path of a URL holds of the
    code where the string assigned is of the first kind. *)
Definition set_pathname (u : URL) (p : string) : URL :=
  {| origin := origin u; pathname := p; searchParams := searchParams u |}.

Definition set_searchParams (u : URL) (ps : URLSearchParams) : URL :=
  {| origin := origin u; pathname := pathname u; searchParams := ps |}.

Definition Cookies := list (string * string).

(** [cookies.set(name, value)]. *)
Fixpoint cookie_set (cs : Cookies) (name value : string) : Cookies :=
  match cs with
  | [] => [(name, value)]
  | (k, v) :: rest =>
      if String.eqb k name then (name, value) :: rest
      else (k, v) :: cookie_set rest name value
  end.

Definition cookies_setAll (cs toSet : Cookies) : Cookies :=
  fold_left (fun acc nv => cookie_set acc nv.1 nv.2) toSet cs.

Record NextRequest := {
  nextUrl : URL;
  cookies : Cookies
}.

Inductive NextResponse :=
| Next (request : NextRequest) (set_cookies : Cookies)
| Redirect (url : URL).

(** [supabase.auth.getUser()] in the middleware client: the identity,
    and the cookies handed to [setAll] when the session was refreshed. *)
Definition getUser : M (option User * Cookies) := fun w =>
  (Return (session w, refreshed w), w).

Definition protectedRoutes : list string :=
  ["/dashboard"; "/contacts"; "/organizations"; "/deals"; "/settings"].

Definition authRoutes : list string :=
  ["/login"; "/register"; "/reset-password"].

Definition isProtectedRoute (pathname : string) : bool :=
  JS.some (fun route => JS.startsWith pathname route) protectedRoutes.

Definition isAuthRoute (pathname : string) : bool :=
  JS.some (fun route => JS.startsWith pathname route) authRoutes.

(** [a || b] on a nullable string. *)
Definition or_else (a : option string) (b : string) : string :=
  match a with
  | Some s => if String.eqb s EmptyString then b else s
  | None => b
  end.

Definition updateSession (request : NextRequest) : M NextResponse :=
  answer <- getUser ;;
  let '(user, cookiesToSet) := answer in
  let supabaseResponse :=
    Next {| nextUrl := nextUrl request;
            cookies := cookies_setAll (cookies request) cookiesToSet |}
         (cookies_setAll [] cookiesToSet) in
  let pathname := pathname (nextUrl request) in
  if isProtectedRoute pathname && negb (bool_decide (is_Some user)) then
    (* Redirect unauthenticated users to login *)
    let url := nextUrl request in
    let url := set_pathname url "/login" in
    let url := set_searchParams url (params_set (searchParams url) "redirectTo" pathname) in
    ret (Redirect url)
  else if isAuthRoute pathname && bool_decide (is_Some user) then
    (* Redirect authenticated users away from auth pages *)
    let url := nextUrl request in
    let redirectTo := or_else (params_get (searchParams url) "redirectTo") "/dashboard" in
    let url := set_pathname url redirectTo in
    let url := set_searchParams url (params_delete (searchParams url) "redirectTo") in
    ret (Redirect url)
  else ret supabaseResponse.

End Middleware.

(* ===================================================================== *)
(** ** The webhook entry point ([src/app/api/webhooks/stripe/route.ts]) *)
(* ===================================================================== *)

Module Webhook.
Import World Handler.
Local Open Scope handler_scope.

Definition Headers := list (string * string).

(** [headers.get(name)]: names compare case-insensitively and the
    values under one name are joined with a comma and a space; [null]
    when there is none. *)
Definition headers_get (h : Headers) (name : string) : option string :=
  match List.filter (fun kv => String.eqb (JS.toLowerCase kv.1) (JS.toLowerCase name)) h with
  | [] => None
  | (_, v) :: rest => Some (fold_left (fun acc kv => (acc ++ ", " ++ kv.2)%string) rest v)
  end.

Record Request := {
  body : string;
  headers : Headers
}.

Inductive json :=
| JString (s : string)
| JBool (b : bool).

(** [NextResponse.json(body, { status })]. *)
Record Response := {
  status : Z;
  payload : list (string * json)
}.

(** A nullable string is falsy when it is [null] or empty. *)
Definition falsy (s : option string) : bool :=
  match s with
  | None => true
  | Some v => String.eqb v EmptyString
  end.

(** The handler as shipped: the verification and the event switch are
    commented out in the source, so what runs is the header test and
    the placeholder answer. *)
Definition POST (request : Request) : M Response :=
  let body := body request in
  let signature := headers_get (headers request) "stripe-signature" in
  if falsy signature then
    ret {| status := 400;
           payload := [("error", JString "Missing stripe-signature header")] |}
  else
    ret {| status := 200;
           payload :=
             [("message", JString "Stripe webhook endpoint ready. Configure Stripe to enable.");
              ("received", JBool true)] |}.

End Webhook.

(* ===================================================================== *)
(** ** Vocabulary of the statements *)
(* ===================================================================== *)

Module Spec.
Import Zod World Errors Handler Actions.

(** A field schema files every issue under the path it was given ... *)
Definition well_pathed (s : field) : Prop :=
  ∀ p v i, i ∈ (s p v).2 → path i = p.

(** ... and is valid exactly when it raised none. *)
Definition status_sound (s : field) : Prop :=
  ∀ p v, isValid (s p v).1 = true ↔ (s p v).2 = [].

Definition lawful (s : field) : Prop := well_pathed s ∧ status_sound s.

(** The messages of the issues whose path starts with [k], in order. *)
Definition messages_at (k : string) (errs : list issue) : list string :=
  map message (List.filter (fun i => bool_decide (head (path i) = Some k)) errs).

(** An entry of an error map holds a non-empty list. *)
Definition entry (ms : list string) : option (list string) :=
  match ms with
  | [] => None
  | _ => Some ms
  end.

(** What [flatten().fieldErrors] of a parse holds under [k]. *)
Definition field_messages (S : schema JS.object JS.object) (data : JS.object)
    (k : string) : option (list string) :=
  fieldErrors (S [] data).2 !! k.

(** The messages a field schema raises for the property [k] of [data]. *)
Definition own_messages (s : field) (data : JS.object) (k : string) : list string :=
  map message (s [k] (JS.get data k)).2.

(** The messages a shape files under [k]: those of the fields named
    [k], each run on the property [k] of the input. *)
Definition shape_messages (sh : shape) (data : JS.object) (k : string) : list string :=
  concat (map (fun kf => if String.eqb kf.1 k then own_messages kf.2 data k else []) sh).

(** No cross-field validation: what is reported under a field depends
    on the value of that field alone. *)
Definition field_local (S : schema JS.object JS.object) : Prop :=
  ∀ d1 d2 k, d1 !! k = d2 !! k → field_messages S d1 k = field_messages S d2 k.

(** The mutation entry points exported by [src/actions]. *)
Inductive mutation :=
| Create (formData : FormData)
| Update (id : string) (formData : FormData)
| Delete (id : string).

Definition run `{F : Formats} (prev : option ActionResult) (m : mutation)
  : M ActionResult :=
  match m with
  | Create formData => createContact prev formData
  | Update id formData => updateContact id prev formData
  | Delete id => deleteContact id
  end.

(** No row of the table has this key and this owner. *)
Definition none_owned (id uid : string) (w : World.t) : Prop :=
  ∀ r, r ∈ contacts w → owned_by id uid r = false.

(** The key exists, under other owners only. *)
Definition foreign (id uid : string) (w : World.t) : Prop :=
  (∃ r, r ∈ contacts w ∧ World.id r = id) ∧
  ∀ r, r ∈ contacts w → World.id r = id → userId r ≠ uid.

(** The key exists nowhere in the table. *)
Definition absent (id : string) (w : World.t) : Prop :=
  ∀ r, r ∈ contacts w → World.id r ≠ id.

(** The field-level error map of a result, if it carries one. *)
Definition errors_of (r : ActionResult) : option FieldErrors :=
  match r with
  | Failed _ errors => errors
  | Succeeded _ _ => None
  end.

(** A handler validates before the data layer: an authenticated request
    whose input is rejected is answered with a non-empty field-level error
    map, and nothing is asked of the world. *)
Definition validates_first {X : Type} (rejects : X → Prop)
    (handler : X → M ActionResult) : Prop :=
  ∀ (w : World.t) (user : User) (x : X),
    session w = Some user → rejects x →
    ∃ errors, handler x w = (Return (Failed None (Some errors)), w) ∧ errors ≠ ∅.

(** The schema rejects the input. *)
Definition rejected_by {I A : Type} (S : schema I A) (x : I) : Prop :=
  ∃ errs, safeParse S x = Failure errs.

(** The webhook rejects, with an error status, every request that the
    given verification does not accept. *)
Definition rejects_unverified (verified : Webhook.Request → bool) : Prop :=
  ∀ (request : Webhook.Request) (w : World.t),
    verified request = false →
    ∃ r w', Webhook.POST request w = (Return r, w') ∧ (400 <= Webhook.status r)%Z.

(** The request carries a non-empty signature header. *)
Definition has_signature (request : Webhook.Request) : bool :=
  negb (Webhook.falsy (Webhook.headers_get (Webhook.headers request) "stripe-signature")).

(** The two answers of the webhook. *)
Definition missing_signature : Webhook.Response :=
  {| Webhook.status := 400;
     Webhook.payload :=
       [("error", Webhook.JString "Missing stripe-signature header")] |}.

Definition placeholder : Webhook.Response :=
  {| Webhook.status := 200;
     Webhook.payload :=
       [("message",
         Webhook.JString "Stripe webhook endpoint ready. Configure Stripe to enable.");
        ("received", Webhook.JBool true)] |}.

(** The value of a parse that did not abort. *)
Definition parsed_value {A : Type} (r : parsed A) : option A :=
  match r with
  | OK v | DIRTY v => Some v
  | INVALID => None
  end.

(** What the password refinement adds to the messages of its object. *)
Definition mismatch (base : parsed JS.object) : list string :=
  match parsed_value base with
  | Some out =>
      if Schemas.passwords_equal out then [] else ["Passwords do not match"]
  | None => []
  end.

(** A field schema takes the empty string without an issue and turns it
    into [undefined]. *)
Definition blank_is_absent (s : field) : Prop :=
  ∀ p, s p (JS.Str EmptyString) = (OK JS.Undefined, []).

(** The optional text fields of the entity schemas: the fields declared
    as [.optional().or(z.literal('')).transform((val) => val || undefined)]. *)
Definition contact_optional_strings : list string :=
  ["phone"; "title"; "organizationId"; "notes"; "linkedinUrl"; "twitterUrl"].

Definition deal_optional_strings : list string :=
  ["description"; "contactId"; "organizationId"; "expectedCloseDate"; "notes"].

Definition organization_optional_strings : list string :=
  ["website"; "industry"; "description"; "address"; "city"; "state"; "country";
   "postalCode"; "linkedinUrl"; "logoUrl"].

Definition optional_strings `{F : Formats} `{C : Coercion}
  : list (shape * list string) :=
  [ (Schemas.contactShape, contact_optional_strings);
    (Schemas.dealShape, deal_optional_strings);
    (Schemas.organizationShape, organization_optional_strings) ].

(** Every field of the shape but [k] parses its property of [data]
    without an issue. *)
Definition others_valid (sh : shape) (data : JS.object) (k : string) : Prop :=
  ∀ k' s', (k', s') ∈ sh → k' ≠ k → isValid (s' [k'] (JS.get data k')).1 = true.

Definition not_found : ActionResult := Failed (Some "Contact not found") None.

Definition unauthenticated : ActionResult :=
  Failed (Some "You must be logged in to perform this action") None.

End Spec.

(* ===================================================================== *)
(** ** Sample data for the concrete instances of the statements *)
(* ===================================================================== *)

Module Sample.
Import World.

Definition alice : User :=
  {| user_id := "user-a"; user_email := "alice@example.com" |}.

Definition bob : User :=
  {| user_id := "user-b"; user_email := "bob@example.com" |}.

(** A contact owned by alice. *)
Definition johns_row : Contact :=
  {| id := "contact-1";
     userId := "user-a";
     columns := {[ "firstName" := JS.Str "John" ]};
     createdAt := 0;
     updatedAt := 0 |}.

(** A world with the given session and table, nothing requested yet, and
    an engine that refuses no statement. *)
Definition world (who : option User) (rows : list Contact) : World.t :=
  {| session := who;
     refreshed := [];
     clock := 1000;
     uuids := fun _ => "contact-2";
     seed := 0;
     contacts := rows;
     trace := [];
     refused := fun _ => None |}.

(** A form made of text fields. *)
Definition form (fields : list (string * string)) : list (string * JS.value) :=
  map (fun kv => (kv.1, JS.Str kv.2)) fields.

(** A request for a page. *)
Definition page (path : string) (query : list (string * string))
  : Middleware.NextRequest :=
  {| Middleware.nextUrl :=
       {| Middleware.origin := "https://app.example.com";
          Middleware.pathname := path;
          Middleware.searchParams := query |};
     Middleware.cookies := [] |}.

(** A webhook delivery whose signature header holds an arbitrary string. *)
Definition forged_delivery : Webhook.Request :=
  {| Webhook.body := "{}";
     Webhook.headers := [("Stripe-Signature", "forged")] |}.

(** A webhook delivery without a signature header. *)
Definition unsigned_delivery : Webhook.Request :=
  {| Webhook.body := "{}";
     Webhook.headers := [("Content-Type", "application/json")] |}.

(** The scenario of the specification: an empty first name. *)
Definition scenario : list (string * JS.value) :=
  form [("firstName", EmptyString); ("lastName", "Doe"); ("email", "john@example.com")].

(** The value of a string of decimal digits. *)
Fixpoint digits (s : string) (acc : Z) : option Z :=
  match s with
  | EmptyString => Some acc
  | String c r =>
      if JS.is_digit c then digits r (10 * acc + Z.of_N (JS.code c - 48))%Z
      else None
  end.

(** A coercion for closed instances.  It agrees with [Number] on numbers
    and on strings of at most fifteen decimal digits (the empty string is
    0), where no rounding takes place; elsewhere it answers [NaN], which
    [Number] does not always do.  The statements below hold for every
    coercion and do not rely on this one. *)
Definition digits_only : Zod.Coercion :=
  {| Zod.Number := fun v =>
       match v with
       | JS.Num n => n
       | JS.Str s =>
           if (String.length s <=? 15)%nat then
             match digits s 0 with
             | Some z => JS.Finite (inject_Z z)
             | None => JS.NaN
             end
           else JS.NaN
       | _ => JS.NaN
       end |}.

End Sample.

(* ===================================================================== *)
(** ** The language of a regular expression, and the shapes of strings *)
(* ===================================================================== *)

Module Lang.

(** The strings a regular expression matches in full. *)
Inductive lang : Regex.t -> string -> Prop :=
| lang_eps : lang Regex.Eps EmptyString
| lang_class (p : ascii -> bool) (c : ascii) :
    p c = true -> lang (Regex.Class p) (String c EmptyString)
| lang_seq (r1 r2 : Regex.t) (s1 s2 : string) :
    lang r1 s1 -> lang r2 s2 -> lang (Regex.Seq r1 r2) (s1 ++ s2)
| lang_alt_l (r1 r2 : Regex.t) (s : string) :
    lang r1 s -> lang (Regex.Alt r1 r2) s
| lang_alt_r (r1 r2 : Regex.t) (s : string) :
    lang r2 s -> lang (Regex.Alt r1 r2) s
| lang_star_nil (r : Regex.t) : lang (Regex.Star r) EmptyString
| lang_star_cons (r : Regex.t) (s1 s2 : string) :
    lang r s1 -> lang (Regex.Star r) s2 -> lang (Regex.Star r) (s1 ++ s2).

(** The characters of a string. *)
Definition chars (s : string) : list ascii := list_ascii_of_string s.

(** Every character of the string passes the test. *)
Definition all_chars (p : ascii -> bool) (s : string) : bool := forallb p (chars s).

(** Some character of the string passes the test. *)
Definition some_char (p : ascii -> bool) (s : string) : bool := existsb p (chars s).

(** The characters a regular expression can consume. *)
Fixpoint consumes (r : Regex.t) (c : ascii) : bool :=
  match r with
  | Regex.Void | Regex.Eps => false
  | Regex.Class p => p c
  | Regex.Seq r1 r2 | Regex.Alt r1 r2 => consumes r1 c || consumes r2 c
  | Regex.Star r1 => consumes r1 c
  end.

(** A phone number as the phone schema takes it: an optional plus sign, a
    digit from 1 to 9, then one to fourteen digits. *)
Definition phone_number (s : string) : Prop :=
  exists (d : ascii) (ds : string),
    (s = String d ds \/ s = String "+" (String d ds)) /\
    JS.in_range 49 57 d = true /\
    all_chars JS.is_digit ds = true /\
    (1 <= String.length ds <= 14)%nat.

End Lang.

Module Shapes.
Import Lang.

(** The messages of the password rules a string breaks, in the order of
    the checks. *)
Definition password_messages (s : string) : list string :=
  (if (String.length s <? 8)%nat
   then ["Password must be at least 8 characters"] else []) ++
  (if some_char JS.is_upper s
   then [] else ["Password must contain at least one uppercase letter"]) ++
  (if some_char JS.is_lower s
   then [] else ["Password must contain at least one lowercase letter"]) ++
  (if some_char JS.is_digit s
   then [] else ["Password must contain at least one number"]).

(** A string in normal form: lower case, no white space at either end. *)
Definition normalised (s : string) : Prop :=
  JS.toLowerCase s = s /\ JS.trim s = s.

(** A string that does not start with white space. *)
Definition starts_clean (s : string) : Prop :=
  match s with
  | EmptyString => True
  | String c _ => JS.is_space c = false
  end.

(** A string of white space only. *)
Definition blank (s : string) : bool := all_chars JS.is_space s.

End Shapes.

Module Effects.
Import World.

(** The rows of everyone but the given owner, in table order. *)
Definition others (uid : string) (rows : list Contact) : list Contact :=
  List.filter (fun r => negb (String.eqb (userId r) uid)) rows.

(** The paths whose cached views were declared stale, in order. *)
Definition revalidations (tr : list effect) : list string :=
  omap (fun e => match e with RevalidatePath p => Some p | _ => None end) tr.

(** The message has the marker somewhere in it. *)
Definition contains (message marker : string) : Prop :=
  exists a b : string, message = (a ++ marker ++ b)%string.

(** The three answers given for a fault that is not an application
    error. *)
Definition conflict : Errors.ActionResult :=
  Errors.Failed (Some "A record with this value already exists") None.

Definition dangling : Errors.ActionResult :=
  Errors.Failed (Some "Referenced record does not exist") None.

Definition unexpected : Errors.ActionResult :=
  Errors.Failed (Some "An unexpected error occurred. Please try again.") None.

End Effects.

Module Routes.
Import World Handler Middleware.

(** The browser follows a redirect: the same cookies, the new address
    (a redirect of the guard sets no cookie). *)
Definition visit (request : NextRequest) (url : URL) : NextRequest :=
  {| nextUrl := url; cookies := cookies request |}.

(** The number of redirects the guard answers before it lets the request
    through, following at most [fuel] of them. *)
Fixpoint hops (fuel : nat) (request : NextRequest) (w : World.t) : option nat :=
  match updateSession request w with
  | (Return (Next _ _), _) => Some 0%nat
  | (Return (Redirect url), w') =>
      match fuel with
      | O => None
      | S fuel' => option_map S (hops fuel' (visit request url) w')
      end
  | (Throw _, _) => None
  end.

(** [cookies.get(name)?.value]. *)
Fixpoint cookie_get (cs : Cookies) (name : string) : option string :=
  match cs with
  | [] => None
  | (k, v) :: rest => if String.eqb k name then Some v else cookie_get rest name
  end.

(** The value a refresh leaves under a name: the last one it set. *)
Definition refreshed_value (toSet : Cookies) (name : string) : option string :=
  cookie_get (rev toSet) name.

(** Someone is signed in. *)
Definition signed_in (w : World.t) : bool := bool_decide (is_Some (session w)).

End Routes.

Module Names.
Import Zod Schemas.

(** The required text fields of the entity schemas, declared as
    [z.string().min(1, ...).max(n, ...).trim()], with their bound. *)
Definition required_texts `{F : Formats} `{C : Coercion} : list (shape * string * Z) :=
  [ (contactShape, "firstName", 100%Z);
    (contactShape, "lastName", 100%Z);
    (dealShape, "title", 200%Z);
    (organizationShape, "name", 200%Z) ].

End Names.

(* ===================================================================== *)
(** ** The contact queries ([src/db/queries/contacts.ts])

    The reads of the data layer, on the table of the world.  The order in
    which the engine returns rows that compare equal, and the collation
    of text, are the engine's: an engine is any function that returns the
    rows it is given in some order.  [page] and [limit] are whole numbers
    from one on.  The related organization that [with] attaches to a row
    is left out. *)
(* ===================================================================== *)

Module Queries.
Import World Handler.

(** The columns a search sorts by, and [asc] and [desc]. *)
Inductive sortColumn := firstName | lastName | email | createdAt.

Inductive direction := asc | desc.

Class Engine := {
  orderBy : sortColumn -> direction -> list Contact -> list Contact;
  orderBy_permutes : forall c d rows, Permutation (orderBy c d rows) rows
}.

(** A text column of a row; SQL NULL when the row has none. *)
Definition text (column : string) (r : Contact) : option string :=
  match columns r !! column with
  | Some (JS.Str s) => Some s
  | _ => None
  end.

(** A LIKE pattern: [%] stands for any run of characters, [_] for any
    one character, a backslash takes the next character literally.  (A
    pattern that ends in a lone backslash is refused by the engine; it
    matches nothing here.) *)
Fixpoint like (pattern : string) : Regex.t :=
  match pattern with
  | EmptyString => Regex.Eps
  | String c rest =>
      if Ascii.eqb c "%" then Regex.Seq (Regex.Star Regex.any) (like rest)
      else if Ascii.eqb c "_" then Regex.Seq Regex.any (like rest)
      else if Ascii.eqb c "\" then
        match rest with
        | EmptyString => Regex.Void
        | String d rest' => Regex.Seq (Regex.Class (JS.is_char d)) (like rest')
        end
      else Regex.Seq (Regex.Class (JS.is_char c)) (like rest)
  end.

(** [ilike(column, pattern)]: LIKE on the lower-cased text and pattern;
    a NULL column matches nothing. *)
Definition ilike (column pattern : string) (r : Contact) : bool :=
  match text column r with
  | Some s => Regex.matches (like (JS.toLowerCase pattern)) (JS.toLowerCase s)
  | None => false
  end.

(** [eq(column, value)] on a text column. *)
Definition eq_column (column value : string) (r : Contact) : bool :=
  match text column r with
  | Some s => String.eqb s value
  | None => false
  end.

(** [eq(contacts.userId, userId)] and [eq(contacts.id, id)]. *)
Definition eq_userId (uid : string) (r : Contact) : bool := String.eqb (userId r) uid.

Definition eq_id (id : string) (r : Contact) : bool := String.eqb (World.id r) id.

Definition or_ (conditions : list (Contact -> bool)) (r : Contact) : bool :=
  existsb (fun c => c r) conditions.

Definition and_ (conditions : list (Contact -> bool)) (r : Contact) : bool :=
  forallb (fun c => c r) conditions.

(** [if (s)] on an optional string: given and not empty. *)
Definition given (s : option string) : option string :=
  match s with
  | Some v => if String.eqb v EmptyString then None else Some v
  | None => None
  end.

Record options := {
  search : option string;
  type : option string;
  organizationId : option string;
  page : option positive;
  limit : option positive;
  sortBy : option sortColumn;
  sortOrder : option direction
}.

Record pagination := {
  page_ : Z;
  limit_ : Z;
  total : Z;
  totalPages : Z;
  hasMore : bool
}.

Record found := {
  data : list Contact;
  paging : pagination
}.

(** The conditions of a search, in the order they are pushed. *)
Definition conditions (userId : string) (o : options) : list (Contact -> bool) :=
  [eq_userId userId]
  ++ match given (search o) with
     | Some s =>
         [or_ [ilike "firstName" ("%" ++ s ++ "%");
               ilike "lastName" ("%" ++ s ++ "%");
               ilike "email" ("%" ++ s ++ "%")]]
     | None => []
     end
  ++ match given (type o) with
     | Some t => [eq_column "type" t]
     | None => []
     end
  ++ match given (organizationId o) with
     | Some org => [eq_column "organizationId" org]
     | None => []
     end.

Section WithEngine.
Context `{E : Engine}.

(** [getContactsByUser]. *)
Definition getContactsByUser (userId : string) (w : World.t) : list Contact :=
  orderBy createdAt desc (List.filter (eq_userId userId) (contacts w)).

(** [getContactById]: the first row found, or [undefined]. *)
Definition getContactById (id userId : string) (w : World.t) : option Contact :=
  head (List.filter (and_ [eq_id id; eq_userId userId]) (contacts w)).

(** [searchContacts]. *)
Definition searchContacts (userId : string) (o : options) (w : World.t) : found :=
  let page := default 1%positive (page o) in
  let limit := default 20%positive (limit o) in
  let sortBy := default createdAt (sortBy o) in
  let sortOrder := default desc (sortOrder o) in
  let offset := ((Z.pos page - 1) * Z.pos limit)%Z in
  let whereClause := and_ (conditions userId o) in
  let data :=
    firstn (Pos.to_nat limit)
      (skipn (Z.to_nat offset)
         (orderBy sortBy sortOrder (List.filter whereClause (contacts w)))) in
  let total := Z.of_nat (List.length (List.filter whereClause (contacts w))) in
  {| data := data;
     paging :=
       {| page_ := Z.pos page;
          limit_ := Z.pos limit;
          total := total;
          totalPages := Qceiling (inject_Z total / inject_Z (Z.pos limit));
          hasMore := (Z.pos page * Z.pos limit <? total)%Z |} |}.

(** [getContactsByOrganization]. *)
Definition getContactsByOrganization (organizationId userId : string) (w : World.t)
  : list Contact :=
  orderBy lastName asc
    (List.filter (and_ [eq_column "organizationId" organizationId; eq_userId userId])
       (contacts w)).

End WithEngine.

(** [getContactCount]. *)
Definition getContactCount (userId : string) (w : World.t) : Z :=
  Z.of_nat (List.length (List.filter (eq_userId userId) (contacts w))).

(** The search of one page with the other options kept. *)
Definition at_page (o : options) (p : positive) : options :=
  {| search := search o; type := type o; organizationId := organizationId o;
     page := Some p; limit := limit o; sortBy := sortBy o; sortOrder := sortOrder o |}.

(** The pages from the first to the [n]th. *)
Definition pages (n : Z) : list positive :=
  map Pos.of_succ_nat (seq 0 (Z.to_nat n)).

(** The rows a search matches, in table order, whatever the page. *)
Definition matching (userId : string) (o : options) (w : World.t) : list Contact :=
  List.filter (and_ (conditions userId o)) (contacts w).

(** An engine that sorts by insertion, text by code unit: the order of
    the C collation, with rows that compare equal in table order. *)
Definition precedes (c : sortColumn) (d : direction) (a b : Contact) : bool :=
  let le :=
    match c with
    | firstName => fun x y => String.leb (default EmptyString (text "firstName" x))
                                          (default EmptyString (text "firstName" y))
    | lastName => fun x y => String.leb (default EmptyString (text "lastName" x))
                                         (default EmptyString (text "lastName" y))
    | email => fun x y => String.leb (default EmptyString (text "email" x))
                                      (default EmptyString (text "email" y))
    | createdAt => fun x y => (World.createdAt x <=? World.createdAt y)%Z
    end in
  match d with
  | asc => le a b
  | desc => le b a
  end.

Fixpoint insert (le : Contact -> Contact -> bool) (r : Contact) (sorted : list Contact)
  : list Contact :=
  match sorted with
  | [] => [r]
  | x :: rest => if le r x then r :: sorted else x :: insert le r rest
  end.

Definition sort (le : Contact -> Contact -> bool) (rows : list Contact) : list Contact :=
  fold_right (insert le) [] rows.

(** A search string without a LIKE wildcard or escape. *)
Definition plain (s : string) : bool :=
  Lang.all_chars
    (fun c => negb (Ascii.eqb c "%" || Ascii.eqb c "_" || Ascii.eqb c "\")) s.

End Queries.

(* ===================================================================== *)
(** ** The display helpers ([src/lib/utils.ts])

    The helpers that do not go through [Intl]: [truncate] and
    [formatRelativeTime].  Lengths and times are whole numbers. *)
(* ===================================================================== *)

Module Utils.

(** The first [n] characters of a string, or all of it. *)
Fixpoint first (n : nat) (s : string) : string :=
  match n, s with
  | S n', String c r => String c (first n' r)
  | _, _ => EmptyString
  end.

(** [str.slice(0, end)]: a negative [end] counts from the end of the
    string. *)
Definition slice0 (str : string) (end_ : Z) : string :=
  let len := JS.length str in
  let to := if (end_ <? 0)%Z then Z.max (len + end_) 0 else Z.min end_ len in
  first (Z.to_nat to) str.

(** [truncate]. *)
Definition truncate (str : string) (length : Z) : string :=
  if (JS.length str <=? length)%Z then str
  else slice0 str length ++ "...".

(** The template literal of a whole number: its decimal digits. *)
Definition show (n : Z) : string := NilZero.string_of_int (Z.to_int n).

Definition intervals : list (string * Z) :=
  [ ("year", 31536000%Z);
    ("month", 2592000%Z);
    ("week", 604800%Z);
    ("day", 86400%Z);
    ("hour", 3600%Z);
    ("minute", 60%Z) ].

(** The loop over the intervals.  [diffInSeconds] is [None] when it is
    [NaN], and then no comparison holds. *)
Fixpoint first_interval (diffInSeconds : option Z) (rest : list (string * Z)) : string :=
  match rest with
  | [] => "just now"
  | (label, seconds) :: rest' =>
      match option_map (fun d => (d / seconds)%Z) diffInSeconds with
      | Some count =>
          if (1 <=? count)%Z
          then show count ++ " " ++ label
               ++ (if negb (count =? 1)%Z then "s" else EmptyString) ++ " ago"
          else first_interval diffInSeconds rest'
      | None => first_interval diffInSeconds rest'
      end
  end.

(** [formatRelativeTime], at the time [now] in milliseconds; [then_] is
    the time value of the date, [None] for an invalid date. *)
Definition formatRelativeTime (now : Z) (then_ : option Z) : string :=
  let diffInSeconds := option_map (fun t => ((now - t) / 1000)%Z) then_ in
  first_interval diffInSeconds intervals.

(** The phrase for a count of a unit. *)
Definition ago (count : Z) (label : string) : string :=
  show count ++ " " ++ label ++ (if negb (count =? 1)%Z then "s" else EmptyString)
  ++ " ago".

(** The largest count each unit is reported with. *)
Definition largest : list (string * Z) :=
  [ ("month", 12%Z); ("week", 4%Z); ("day", 6%Z); ("hour", 23%Z); ("minute", 59%Z) ].

End Utils.

(* ===================================================================== *)
(** ** The authentication Server Actions ([src/actions/auth])

    [login], [register] and [logout].  The identity provider and the
    [users] table answer as the given [Provider] says; what an action
    asks of them is written down in order.  [redirect] does not return:
    an action either returns a result or ends in a redirect. *)
(* ===================================================================== *)

Module Auth.
Import Zod Schemas Errors.

(** What an action asks of its collaborators. *)
Inductive request :=
| SignInWithPassword (email password : JS.value)
| SignUp (email password full_name : JS.value)
| SignOut
| InsertUser (id email : string) (fullName : JS.value)
| ConsoleError (msg : string).

(** The answer to [auth.signUp]: an error with its message, or the
    [data] with its [user] (which may be [null]) as key and address. *)
Inductive SignUpAnswer :=
| SignUpError (message : string)
| SignUpData (user : option (string * string)).

Record Provider := {
  (* whether [signInWithPassword] answers with an error *)
  signIn_fails : JS.value -> JS.value -> bool;
  signUp_answer : JS.value -> JS.value -> JS.value -> SignUpAnswer;
  (* whether the insert into [users] throws *)
  insert_throws : string -> string -> JS.value -> bool
}.

Inductive outcome :=
| Returned (result : ActionResult)
| Redirected (url : JS.value).

(** [formData.get(name)]: the first value under the name, or [null]. *)
Fixpoint formData_get (formData : list (string * JS.value)) (name : string)
  : option JS.value :=
  match formData with
  | [] => None
  | (k, v) :: rest => if String.eqb k name then Some v else formData_get rest name
  end.

(** [formData.get('redirectTo') || '/dashboard']. *)
Definition redirect_target (formData : list (string * JS.value)) : JS.value :=
  match formData_get formData "redirectTo" with
  | Some v => JS.or_ v (JS.Str "/dashboard")
  | None => JS.Str "/dashboard"
  end.

Section Actions.
Context `{F : Formats} (provider : Provider).

Definition login (_prevState : option ActionResult) (formData : list (string * JS.value))
  : outcome * list request :=
  (* Validate input *)
  let rawData := JS.fromEntries formData in
  match safeParse loginSchema rawData with
  | Failure error => (Returned (Failed None (Some (fieldErrors error))), [])
  | Success data =>
      let email := JS.get data "email" in
      let password := JS.get data "password" in
      (* Sign in with Supabase *)
      if signIn_fails provider email password
      then (Returned (Failed (Some "Invalid email or password") None),
            [SignInWithPassword email password])
      else
        (* Get redirect URL from form data *)
        let redirectTo := redirect_target formData in
        (Redirected redirectTo, [SignInWithPassword email password])
  end.

Definition register (_prevState : option ActionResult)
    (formData : list (string * JS.value)) : outcome * list request :=
  (* Validate input *)
  let rawData := JS.fromEntries formData in
  match safeParse registerSchema rawData with
  | Failure error => (Returned (Failed None (Some (fieldErrors error))), [])
  | Success data =>
      let email := JS.get data "email" in
      let password := JS.get data "password" in
      let fullName := JS.get data "fullName" in
      (* Create user in Supabase Auth *)
      let asked := [SignUp email password fullName] in
      match signUp_answer provider email password fullName with
      | SignUpError message =>
          if JS.includes message "already registered"
          then (Returned (Failed None
                  (Some {[ "email" := ["An account with this email already exists"] ]})),
                asked)
          else (Returned (Failed (Some "Failed to create account. Please try again.") None),
                asked)
      | SignUpData None =>
          (Returned (Failed (Some "Failed to create account. Please try again.") None),
           asked)
      | SignUpData (Some (id, address)) =>
          (* Create user profile in database *)
          let asked := asked ++ [InsertUser id address fullName] in
          let asked :=
            if insert_throws provider id address fullName
            then asked ++ [ConsoleError "Failed to create user profile:"]
            else asked in
          (* Redirect to dashboard *)
          (Redirected (JS.Str "/dashboard"), asked)
      end
  end.

Definition logout : outcome * list request :=
  (Redirected (JS.Str "/login"), [SignOut]).

End Actions.

(** The sign-up requests among what was asked. *)
Definition sign_ups (asked : list request) : list request :=
  List.filter (fun q => match q with SignUp _ _ _ => true | _ => false end) asked.

End Auth.

Module Fixtures.
Import World.

(** Three contacts of alice, in table order. *)
Definition three_contacts : list Contact :=
  [ {| World.id := "contact-1"; World.userId := "user-a";
       columns := {[ "firstName" := JS.Str "Ann" ]};
       World.createdAt := 1; World.updatedAt := 1 |};
    {| World.id := "contact-2"; World.userId := "user-a";
       columns := {[ "firstName" := JS.Str "Cy" ]};
       World.createdAt := 3; World.updatedAt := 3 |};
    {| World.id := "contact-3"; World.userId := "user-a";
       columns := {[ "firstName" := JS.Str "Bo" ]};
       World.createdAt := 2; World.updatedAt := 2 |} ].

(** The fault of an [organization_id] that names no organization. *)
Definition missing_organization : string :=
  "insert or update on table contacts violates foreign key constraint contacts_organization_id_organizations_id_fk".

(** The same world before an engine that holds no organization: it
    refuses the INSERT and the UPDATE that name one. *)
Definition without_organizations (w : World.t) : World.t :=
  {| session := session w; refreshed := refreshed w; clock := clock w;
     uuids := uuids w; seed := seed w; contacts := contacts w; trace := trace w;
     refused := fun st =>
       match st with
       | InsertInto values _ | UpdateWhere values _ _ =>
           match Handler.defined values !! "organizationId" with
           | Some _ => Some missing_organization
           | None => refused w st
           end
       | DeleteWhere _ _ => refused w st
       end |}.

(** An identity provider that knows one account, ann's: it lets her in
    with her password, and gives every other address an account. *)
Definition one_account : Auth.Provider :=
  {| Auth.signIn_fails := fun email password =>
       match email, password with
       | JS.Str e, JS.Str p =>
           negb (String.eqb e "ann@example.com" && String.eqb p "Secret123")
       | _, _ => true
       end;
     Auth.signUp_answer := fun email _ _ =>
       match email with
       | JS.Str e =>
           if String.eqb e "ann@example.com"
           then Auth.SignUpError "User already registered"
           else Auth.SignUpData (Some ("user-n", e))
       | _ => Auth.SignUpData None
       end;
     Auth.insert_throws := fun _ _ _ => false |}.

End Fixtures.

(* ===================================================================== *)
(** ** The search parameters ([src/schemas/shared.ts], [contacts.ts])

    [paginationSchema] and [contactSearchSchema], the contracts of the
    parameters of a search. *)
(* ===================================================================== *)

Module SearchParams.
Import Zod Schemas.

(** The checks of [ZodNumber] used here: those of the entity schemas
    and [.positive()], a minimum that excludes its bound. *)
Inductive limit :=
| Check (c : ncheck)
| Positive (msg : string).

Definition run_limit (p : list string) (c : limit) (n : JS.number) : option issue :=
  match c with
  | Check c' => run_ncheck p c' n
  | Positive msg => if JS.gt n 0 then None else Some (Issue too_small p msg)
  end.

(** [ZodNumber._parse] with [coerce: true]. *)
Definition coerce_number `{C : Coercion} (cs : list limit) : field := fun p v =>
  let n := Number v in
  match n with
  | JS.NaN => (INVALID, [Issue invalid_type p (type_message "number" (JS.Num n))])
  | _ =>
      let errs := omap (fun c => run_limit p c n) cs in
      (match errs with [] => OK (JS.Num n) | _ => DIRTY (JS.Num n) end, errs)
  end.

Definition sortColumns : list string := ["firstName"; "lastName"; "email"; "createdAt"].

Definition sortOrders : list string := ["asc"; "desc"].

Section Shapes.
Context `{F : Formats} `{C : Coercion}.

(** [z.coerce.number().int().positive().default(1)]. *)
Definition pageField : field :=
  default_ (coerce_number [Check (Int int_message);
                           Positive "Number must be greater than 0"])
           (JS.Num (JS.Finite 1)).

(** [z.coerce.number().int().min(1).max(100).default(20)]. *)
Definition limitField : field :=
  default_ (coerce_number [Check (Int int_message);
                           Check (NMin 1 "Number must be greater than or equal to 1");
                           Check (NMax 100 "Number must be less than or equal to 100")])
           (JS.Num (JS.Finite 20)).

Definition paginationShape : shape :=
  [ ("page", pageField); ("limit", limitField) ].
Definition paginationSchema := object paginationShape.

Definition contactSearchShape : shape :=
  [ ("search", optional (str [Max 100 "String must contain at most 100 character(s)"]));
    ("type", optional (enum contactTypes));
    ("organizationId", optional uuidSchema);
    ("page", pageField);
    ("limit", limitField);
    ("sortBy", default_ (optional (enum sortColumns)) (JS.Str "createdAt"));
    ("sortOrder", default_ (optional (enum sortOrders)) (JS.Str "desc")) ].
Definition contactSearchSchema := object contactSearchShape.

End Shapes.

(** A whole number between two bounds. *)
Definition whole_between (lo : Z) (hi : option Z) (v : JS.value) : Prop :=
  exists z : Z,
    (lo <= z)%Z /\ (forall h, hi = Some h -> (z <= h)%Z) /\
    exists q, v = JS.Num (JS.Finite q) /\ Qeq q (inject_Z z).

(** Absent, or a text that passes the test. *)
Definition absent_or (P : string -> Prop) (v : JS.value) : Prop :=
  v = JS.Undefined \/ exists s, v = JS.Str s /\ P s.

End SearchParams.

(* ===================================================================== *)
(** ** The navigation ([src/config/navigation.ts]) *)
(* ===================================================================== *)

Module Navigation.

(** An entry of the side bar (its icon is left out). *)
Record NavigationItem := { title : string; href : string }.

Definition mainNavigation : list NavigationItem :=
  [ {| title := "Dashboard"; href := "/dashboard" |};
    {| title := "Contacts"; href := "/contacts" |};
    {| title := "Organizations"; href := "/organizations" |};
    {| title := "Deals"; href := "/deals" |};
    {| title := "Reports"; href := "/reports" |} ].

Definition secondaryNavigation : list NavigationItem :=
  [ {| title := "Settings"; href := "/settings" |} ].

End Navigation.

(* ===================================================================== *)
(** ** The interface store ([src/stores/ui-store.ts])

    The state of the store and its setters, and what the [persist]
    middleware keeps between two loads of the page: the part of the
    state that [partialize] selects, merged over the initial state. *)
(* ===================================================================== *)

Module UIStore.

Record UIState := {
  sidebarOpen : bool;
  sidebarCollapsed : bool;
  activeModal : option string;
  modalData : option JS.object;
  commandOpen : bool;
  mobileMenuOpen : bool
}.

Definition initial : UIState :=
  {| sidebarOpen := true;
     sidebarCollapsed := false;
     activeModal := None;
     modalData := None;
     commandOpen := false;
     mobileMenuOpen := false |}.

(** The setters of the store. *)
Inductive action :=
| toggleSidebar
| setSidebarCollapsed (collapsed : bool)
| openModal (id : string) (data : option JS.object)
| closeModal
| setCommandOpen (open : bool)
| setMobileMenuOpen (open : bool).

(** [set] merges what the setter returns into the state. *)
Definition set (a : action) (state : UIState) : UIState :=
  match a with
  | toggleSidebar =>
      {| sidebarOpen := negb (sidebarOpen state);
         sidebarCollapsed := sidebarCollapsed state;
         activeModal := activeModal state; modalData := modalData state;
         commandOpen := commandOpen state; mobileMenuOpen := mobileMenuOpen state |}
  | setSidebarCollapsed collapsed =>
      {| sidebarOpen := sidebarOpen state;
         sidebarCollapsed := collapsed;
         activeModal := activeModal state; modalData := modalData state;
         commandOpen := commandOpen state; mobileMenuOpen := mobileMenuOpen state |}
  | openModal id data =>
      {| sidebarOpen := sidebarOpen state;
         sidebarCollapsed := sidebarCollapsed state;
         activeModal := Some id; modalData := data;
         commandOpen := commandOpen state; mobileMenuOpen := mobileMenuOpen state |}
  | closeModal =>
      {| sidebarOpen := sidebarOpen state;
         sidebarCollapsed := sidebarCollapsed state;
         activeModal := None; modalData := None;
         commandOpen := commandOpen state; mobileMenuOpen := mobileMenuOpen state |}
  | setCommandOpen open =>
      {| sidebarOpen := sidebarOpen state;
         sidebarCollapsed := sidebarCollapsed state;
         activeModal := activeModal state; modalData := modalData state;
         commandOpen := open; mobileMenuOpen := mobileMenuOpen state |}
  | setMobileMenuOpen open =>
      {| sidebarOpen := sidebarOpen state;
         sidebarCollapsed := sidebarCollapsed state;
         activeModal := activeModal state; modalData := modalData state;
         commandOpen := commandOpen state; mobileMenuOpen := open |}
  end.

(** [partialize]: the part of the state that is stored. *)
Definition partialize (state : UIState) : bool := sidebarCollapsed state.

(** The state after a load of the page: the stored part, if there is
    one, over the initial state. *)
Definition rehydrate (stored : option bool) : UIState :=
  match stored with
  | Some collapsed => set (setSidebarCollapsed collapsed) initial
  | None => initial
  end.

(** The setters called in order. *)
Definition run (actions : list action) (state : UIState) : UIState :=
  fold_left (fun s a => set a s) actions state.

(** No modal is active without a modal to hold its data. *)
Definition modal_consistent (state : UIState) : Prop :=
  activeModal state = None -> modalData state = None.

End UIStore.

(* ===================================================================== *)
(** ** Proof automation *)
(* ===================================================================== *)

Create HintDb zod discriminated.

(** Every field of a shape is lawful, by the lemmas of the [zod] base. *)
Ltac lawful_shape :=
  repeat (apply Forall_cons; split; [cbn [snd]|]);
  try apply Forall_nil;
  unfold Schemas.optionalText, Schemas.optionalUuid;
  unfold Schemas.emailSchema, Schemas.phoneSchema, Schemas.urlSchema,
    Schemas.uuidSchema, Schemas.currencySchema, Schemas.percentageSchema,
    Schemas.passwordField;
  auto 10 with zod.

(** A name is a field of a shape. *)
Ltac find_field :=
  first [ apply list_elem_of_here | apply list_elem_of_further; find_field ].

(** A field schema takes the empty string as absent, whatever the format
    tests answer on it. *)
Ltac blank_field :=
  intros p;
  unfold Schemas.phoneSchema, Schemas.urlSchema, Schemas.optionalText,
    Schemas.optionalUuid;
  unfold Schemas.uuidSchema, Zod.transform, Zod.or_, Zod.optional, Zod.str;
  cbn [Zod.run_checks Zod.run_check fst snd];
  try destruct (Zod.url_ok EmptyString); try destruct (Zod.uuid_ok EmptyString);
  reflexivity.

(* ===================================================================== *)
(** ** Facts about the schema library *)
(* ===================================================================== *)

Section ZodFacts.
Import Zod Spec.
Context `{F : Formats} `{C : Coercion}.

Lemma run_check_path (p : list string) (c : check) (s : string) (i : issue) :
  (run_check p c s).1 = Some i → path i = p.
Proof.
  destruct c; simpl; repeat case_match; intros; simplify_eq; reflexivity.
Qed.

Lemma run_checks_path (cs : list check) (p : list string) (s : string) (i : issue) :
  i ∈ (run_checks p cs s).1 → path i = p.
Proof.
  revert s. induction cs as [|c cs IH]; intros s; simpl.
  - intros Hin. inversion Hin.
  - destruct (run_check p c s) as [o s'] eqn:Hc.
    destruct (run_checks p cs s') as [errs out] eqn:Hr.
    specialize (IH s'). rewrite Hr in IH. simpl in *.
    destruct o as [x|]; [|exact IH].
    intros [->|Hin]%elem_of_cons; [|auto].
    apply (run_check_path p c s). rewrite Hc. reflexivity.
Qed.

Lemma lawful_str (cs : list check) : lawful (str cs).
Proof.
  split.
  - intros p v i. destruct v; simpl;
      try (intros ->%list_elem_of_singleton; reflexivity).
    destruct (run_checks p cs s) as [errs out] eqn:Hr. simpl.
    intros Hin. apply (run_checks_path cs p s). rewrite Hr. exact Hin.
  - intros p v. destruct v; simpl; try (split; discriminate).
    destruct (run_checks p cs s) as [[|e errs] out]; simpl;
      split; (reflexivity || discriminate).
Qed.

Lemma lawful_coerce_number (cs : list ncheck) : lawful (coerce_number cs).
Proof.
  split.
  - intros p v i. unfold coerce_number.
    destruct (Number v) as [|neg|q]; simpl.
    + intros ->%list_elem_of_singleton. reflexivity.
    + intros (c & _ & Hc)%list_elem_of_omap.
      destruct c; simpl in Hc; repeat case_match; simplify_eq; reflexivity.
    + intros (c & _ & Hc)%list_elem_of_omap.
      destruct c; simpl in Hc; repeat case_match; simplify_eq; reflexivity.
  - intros p v. unfold coerce_number.
    destruct (Number v) as [|neg|q]; simpl; [split; discriminate| |];
      case_match; simpl; split; (reflexivity || discriminate).
Qed.

Lemma lawful_optional (s : field) : lawful s → lawful (optional s).
Proof.
  intros [Hp Hs]. split.
  - intros p v i. destruct v; simpl; try apply Hp. intros Hin; inversion Hin.
  - intros p v. destruct v; simpl; try apply Hs. split; reflexivity.
Qed.

Lemma lawful_literal (lit : string) : lawful (literal lit).
Proof.
  split.
  - intros p v i. destruct v; simpl; try case_match; simpl;
      try (intros ->%list_elem_of_singleton; reflexivity).
    intros Hin; inversion Hin.
  - intros p v. destruct v; simpl; try case_match; simpl;
      split; (reflexivity || discriminate).
Qed.

Lemma lawful_or (a b : field) : lawful a → lawful b → lawful (or_ a b).
Proof.
  intros [Hpa Hsa] [Hpb Hsb]. split.
  - intros p v i. unfold or_. specialize (Hpa p v i). specialize (Hpb p v i).
    destruct (a p v) as [[x|x|] ea]; simpl in *; auto;
      destruct (b p v) as [[y|y|] eb]; simpl in *; auto.
    intros ->%list_elem_of_singleton. reflexivity.
  - intros p v. unfold or_. specialize (Hsa p v). specialize (Hsb p v).
    destruct (a p v) as [[x|x|] ea]; simpl in *; auto;
      destruct (b p v) as [[y|y|] eb]; simpl in *; auto.
    split; discriminate.
Qed.

Lemma lawful_transform (s : field) (f : JS.value → JS.value) :
  lawful s → lawful (transform s f).
Proof.
  intros [Hp Hs]. split.
  - intros p v i. unfold transform. specialize (Hp p v i).
    destruct (s p v) as [[x|x|] errs]; simpl in *; exact Hp.
  - intros p v. unfold transform. specialize (Hs p v).
    destruct (s p v) as [[x|x|] errs]; simpl in *; exact Hs.
Qed.

Lemma lawful_default (s : field) (d : JS.value) : lawful s → lawful (default_ s d).
Proof.
  intros [Hp Hs]. split.
  - intros p v i. destruct v; simpl; apply Hp.
  - intros p v. destruct v; simpl; apply Hs.
Qed.

Lemma lawful_enum (values : list string) : lawful (enum values).
Proof.
  split.
  - intros p v i. destruct v; simpl; try case_match; simpl;
      try (intros ->%list_elem_of_singleton; reflexivity).
    intros Hin; inversion Hin.
  - intros p v. destruct v; simpl; try case_match; simpl;
      split; (reflexivity || discriminate).
Qed.

End ZodFacts.

#[export] Hint Resolve lawful_str lawful_coerce_number lawful_optional lawful_literal
  lawful_or lawful_transform lawful_default lawful_enum : zod.

(* ===================================================================== *)
(** ** Facts about [flatten] and [z.object] *)
(* ===================================================================== *)

Section ObjectFacts.
Import Zod Spec.

Lemma flatten_lookup (errs : list issue) (acc : FieldErrors * list string) (k : string) :
  (fold_left file_issue errs acc).1 !! k =
    match messages_at k errs with
    | [] => acc.1 !! k
    | ms => Some (default [] (acc.1 !! k) ++ ms)
    end.
Proof.
  revert acc. induction errs as [|i errs IH]; intros acc; [reflexivity|].
  cbn [fold_left]. rewrite IH. unfold messages_at, file_issue. cbn [List.filter].
  destruct (path i) as [|k' rest] eqn:Hp; cbn [head].
  - rewrite bool_decide_eq_false_2 by discriminate. reflexivity.
  - destruct (decide (k' = k)) as [->|Hne].
    + rewrite bool_decide_eq_true_2 by reflexivity. cbn [map fst].
      rewrite lookup_insert_eq.
      destruct (map message _); [reflexivity|].
      cbn [from_option id]. rewrite <- app_assoc. reflexivity.
    + rewrite bool_decide_eq_false_2 by congruence. cbn [fst].
      rewrite lookup_insert_ne by exact Hne. reflexivity.
Qed.

Lemma fieldErrors_lookup (errs : list issue) (k : string) :
  fieldErrors errs !! k = entry (messages_at k errs).
Proof.
  unfold fieldErrors, flatten. rewrite flatten_lookup. cbn [fst].
  rewrite lookup_empty. destruct (messages_at k errs); reflexivity.
Qed.

Lemma messages_at_app (k : string) (xs ys : list issue) :
  messages_at k (xs ++ ys) = messages_at k xs ++ messages_at k ys.
Proof. unfold messages_at. rewrite List.filter_app, map_app. reflexivity. Qed.

Lemma messages_at_all (k : string) (errs : list issue) :
  (∀ i, i ∈ errs → path i = [k]) → messages_at k errs = map message errs.
Proof.
  induction errs as [|i errs IH]; intros Hall; [reflexivity|].
  unfold messages_at in *. cbn [List.filter].
  rewrite (Hall i) by apply list_elem_of_here. cbn [head].
  rewrite bool_decide_eq_true_2 by reflexivity. cbn [map].
  f_equal. apply IH. intros j Hj. apply Hall. apply list_elem_of_further, Hj.
Qed.

Lemma messages_at_none (k k' : string) (errs : list issue) :
  k' ≠ k → (∀ i, i ∈ errs → path i = [k']) → messages_at k errs = [].
Proof.
  intros Hne. induction errs as [|i errs IH]; intros Hall; [reflexivity|].
  unfold messages_at in *. cbn [List.filter].
  rewrite (Hall i) by apply list_elem_of_here. cbn [head].
  rewrite bool_decide_eq_false_2 by congruence.
  apply IH. intros j Hj. apply Hall. apply list_elem_of_further, Hj.
Qed.

Lemma object_issues (sh : shape) (p : list string) (data : JS.object) :
  (object sh p data).2 =
    concat (map (fun kf => (kf.2 (p ++ [kf.1]) (JS.get data kf.1)).2) sh).
Proof. unfold object. cbn [snd]. rewrite map_map. reflexivity. Qed.

Lemma object_messages_at (sh : shape) (data : JS.object) (k : string) :
  Forall (fun kf => lawful kf.2) sh →
  messages_at k (object sh [] data).2 = shape_messages sh data k.
Proof.
  rewrite object_issues. unfold shape_messages.
  induction 1 as [|[k' s] sh [Hp _] Hsh IH]; [reflexivity|].
  cbn [map concat fst snd]. rewrite messages_at_app, IH. f_equal.
  destruct (String.eqb_spec k' k) as [->|Hne].
  - apply messages_at_all. intros i Hi. apply (Hp _ _ _ Hi).
  - apply (messages_at_none k k'); [exact Hne|].
    intros i Hi. apply (Hp _ _ _ Hi).
Qed.

Lemma object_field_messages (sh : shape) (data : JS.object) (k : string) :
  Forall (fun kf => lawful kf.2) sh →
  field_messages (object sh) data k = entry (shape_messages sh data k).
Proof.
  intros Hl. unfold field_messages.
  rewrite fieldErrors_lookup, object_messages_at by exact Hl. reflexivity.
Qed.

Lemma shape_messages_notin (sh : shape) (data : JS.object) (k : string) :
  k ∉ map fst sh → shape_messages sh data k = [].
Proof.
  unfold shape_messages. induction sh as [|[k' s] sh IH]; [reflexivity|].
  cbn [map concat fst snd]. intros Hn.
  destruct (String.eqb_spec k' k) as [->|Hne].
  - exfalso. apply Hn. apply list_elem_of_here.
  - cbn [app]. apply IH. intros Hin. apply Hn. apply list_elem_of_further, Hin.
Qed.

Lemma shape_messages_in (sh : shape) (data : JS.object) (k : string) (s : field) :
  NoDup (map fst sh) → (k, s) ∈ sh →
  shape_messages sh data k = own_messages s data k.
Proof.
  induction sh as [|[k' s'] sh IH]; intros Hnd Hin; [inversion Hin|].
  cbn [map fst] in Hnd. apply NoDup_cons in Hnd as [Hk' Hnd].
  apply elem_of_cons in Hin as [Heq|Hin].
  - inversion Heq; subst k' s'. unfold shape_messages. cbn [map concat fst snd].
    rewrite String.eqb_refl.
    fold (shape_messages sh data k). rewrite shape_messages_notin by exact Hk'.
    apply app_nil_r.
  - unfold shape_messages. cbn [map concat fst snd].
    destruct (String.eqb_spec k' k) as [->|Hne].
    + exfalso. apply Hk'. apply list_elem_of_In, in_map_iff.
      exists (k, s). split; [reflexivity|]. apply list_elem_of_In, Hin.
    + cbn [app]. apply IH; assumption.
Qed.

(** A plain object schema has no cross-field validation. *)
Lemma object_field_local (sh : shape) :
  Forall (fun kf => lawful kf.2) sh → field_local (object sh).
Proof.
  intros Hl d1 d2 k Heq. rewrite !object_field_messages by exact Hl.
  f_equal. unfold shape_messages. f_equal. apply map_ext. intros [k' s].
  cbn [fst snd]. destruct (String.eqb k' k); [|reflexivity].
  unfold own_messages, JS.get. rewrite Heq. reflexivity.
Qed.

Lemma partial_lawful (sh : shape) :
  Forall (fun kf => lawful kf.2) sh → Forall (fun kf => lawful kf.2) (partial sh).
Proof.
  unfold partial. induction 1 as [|[k s] sh Hs Hsh IH]; constructor; [|exact IH].
  cbn [snd] in *. apply lawful_optional, Hs.
Qed.

Lemma partial_keys (sh : shape) : map fst (partial sh) = map fst sh.
Proof. unfold partial. rewrite map_map. reflexivity. Qed.

(** The merge is valid exactly when nothing was dirty before and every
    pair is valid. *)
Lemma merge_valid (dirty : bool) (acc : JS.object)
    (pairs : list (string * bool * (parsed JS.value * list issue))) :
  isValid (mergeObjectSync dirty acc pairs)
  = negb dirty && forallb (fun x => isValid x.2.1) pairs.
Proof.
  revert dirty acc. induction pairs as [|[[k al] [r errs]] pairs IH]; intros dirty acc.
  - cbn. destruct dirty; reflexivity.
  - cbn [mergeObjectSync forallb snd fst].
    destruct r as [v|v|]; cbn [isValid negb].
    + rewrite IH, orb_false_r. reflexivity.
    + rewrite IH, orb_true_r. cbn. rewrite andb_false_r. reflexivity.
    + rewrite andb_false_r. reflexivity.
Qed.

Lemma object_valid_iff (sh : shape) (p : list string) (data : JS.object) :
  Forall (fun kf => lawful kf.2) sh →
  isValid (object sh p data).1 = true ↔ (object sh p data).2 = [].
Proof.
  intros Hl. rewrite object_issues. unfold object. cbn [fst].
  rewrite merge_valid. cbn [negb andb]. rewrite forallb_forall.
  induction Hl as [|[k s] sh [_ Hs] Hsh IH].
  - cbn. split; [reflexivity|]. intros _ x [].
  - cbn [map concat fst snd]. split.
    + intros Hall.
      assert (H1 : (s (p ++ [k]) (JS.get data k)).2 = []).
      { apply Hs. apply (Hall (parse_pair p data (k, s))). left. reflexivity. }
      rewrite H1. cbn [app]. apply IH. intros x Hx. apply Hall. right. exact Hx.
    + intros [H1 H2]%app_eq_nil x [<-|Hx].
      * cbn. apply Hs. exact H1.
      * apply IH; assumption.
Qed.

(** A schema built from lawful fields fails with a non-empty error. *)
Lemma safeParse_failure_nonempty (sh : shape) (data : JS.object) (errs : list issue) :
  Forall (fun kf => lawful kf.2) sh →
  safeParse (object sh) data = Failure errs → errs ≠ [].
Proof.
  intros Hl. unfold safeParse. pose proof (object_valid_iff sh [] data Hl) as Hv.
  destruct (object sh [] data) as [[out|out|] e]; cbn in *; intros Hf; inversion Hf; subst;
    intros ->; destruct Hv as [_ Hv]; specialize (Hv eq_refl); discriminate.
Qed.

(** Parsing succeeds or fails with every issue the fields raised. *)
Lemma safeParse_issues (sh : shape) (data : JS.object) :
  Forall (fun kf => lawful kf.2) sh →
  match safeParse (object sh) data with
  | Success _ => (object sh [] data).2 = []
  | Failure errs => errs = (object sh [] data).2 ∧ errs ≠ []
  end.
Proof.
  intros Hl. pose proof (object_valid_iff sh [] data Hl) as Hv.
  pose proof (safeParse_failure_nonempty sh data) as Hne.
  unfold safeParse in *.
  destruct (object sh [] data) as [[out|out|] e]; cbn in *.
  - apply Hv. reflexivity.
  - split; [reflexivity|]. apply Hne; [exact Hl|reflexivity].
  - split; [reflexivity|]. apply Hne; [exact Hl|reflexivity].
Qed.

End ObjectFacts.

(* ===================================================================== *)
(** ** The schemas are built from lawful fields *)
(* ===================================================================== *)

Section SchemaFacts.
Import Zod Spec Schemas.
Context `{F : Formats} `{C : Coercion}.

Lemma loginShape_lawful : Forall (fun kf => lawful kf.2) loginShape.
Proof. unfold loginShape. lawful_shape. Qed.

Lemma registerShape_lawful : Forall (fun kf => lawful kf.2) registerShape.
Proof. unfold registerShape. lawful_shape. Qed.

Lemma forgotPasswordShape_lawful : Forall (fun kf => lawful kf.2) forgotPasswordShape.
Proof. unfold forgotPasswordShape. lawful_shape. Qed.

Lemma resetPasswordShape_lawful : Forall (fun kf => lawful kf.2) resetPasswordShape.
Proof. unfold resetPasswordShape. lawful_shape. Qed.

Lemma updateProfileShape_lawful : Forall (fun kf => lawful kf.2) updateProfileShape.
Proof. unfold updateProfileShape. lawful_shape. Qed.

Lemma contactShape_lawful : Forall (fun kf => lawful kf.2) contactShape.
Proof. unfold contactShape. lawful_shape. Qed.

Lemma dealShape_lawful : Forall (fun kf => lawful kf.2) dealShape.
Proof. unfold dealShape. lawful_shape. Qed.

Lemma moveDealShape_lawful : Forall (fun kf => lawful kf.2) moveDealShape.
Proof. unfold moveDealShape. lawful_shape. Qed.

Lemma organizationShape_lawful : Forall (fun kf => lawful kf.2) organizationShape.
Proof. unfold organizationShape. lawful_shape. Qed.

Lemma contactShape_keys : NoDup (map fst contactShape).
Proof. apply (bool_decide_unpack _). vm_compute. reflexivity. Qed.

Lemma dealShape_keys : NoDup (map fst dealShape).
Proof. apply (bool_decide_unpack _). vm_compute. reflexivity. Qed.

Lemma organizationShape_keys : NoDup (map fst organizationShape).
Proof. apply (bool_decide_unpack _). vm_compute. reflexivity. Qed.

End SchemaFacts.

(* ===================================================================== *)
(** ** Facts about the data layer and the handlers *)
(* ===================================================================== *)

Section HandlerFacts.
Import Zod Spec Schemas World Errors Handler Actions.
Context `{F : Formats}.

Lemma foreign_none_owned (id uid : string) (w : World.t) :
  foreign id uid w → none_owned id uid w.
Proof.
  intros [_ Hf] r Hr. unfold owned_by.
  destruct (String.eqb_spec (World.id r) id) as [Hid|]; [|reflexivity].
  destruct (String.eqb_spec (userId r) uid) as [Hu|]; [|reflexivity].
  exfalso. exact (Hf r Hr Hid Hu).
Qed.

Lemma absent_none_owned (id uid : string) (w : World.t) :
  absent id w → none_owned id uid w.
Proof.
  intros Ha r Hr. unfold owned_by.
  destruct (String.eqb_spec (World.id r) id) as [Hid|]; [|reflexivity].
  exfalso. exact (Ha r Hr Hid).
Qed.

Lemma filter_none {A} (f : A → bool) (l : list A) :
  (∀ x, x ∈ l → f x = false) → List.filter f l = [].
Proof.
  induction l as [|x l IH]; intros Hall; [reflexivity|].
  cbn. rewrite (Hall x) by apply list_elem_of_here.
  apply IH. intros y Hy. apply Hall, list_elem_of_further, Hy.
Qed.

Lemma filter_all {A} (f : A → bool) (l : list A) :
  (∀ x, x ∈ l → f x = true) → List.filter f l = l.
Proof.
  induction l as [|x l IH]; intros Hall; [reflexivity|].
  cbn. rewrite (Hall x) by apply list_elem_of_here. f_equal.
  apply IH. intros y Hy. apply Hall, list_elem_of_further, Hy.
Qed.

Lemma filter_filter_negb {A} (f : A → bool) (l : list A) :
  List.filter f (List.filter (fun x => negb (f x)) l) = [].
Proof.
  apply filter_none. intros x Hx. apply list_elem_of_In, filter_In in Hx as [_ Hx].
  destruct (f x); [discriminate|reflexivity].
Qed.

Lemma filter_some {A} (f : A → bool) (l : list A) (x : A) :
  x ∈ l → f x = true → List.filter f l ≠ [].
Proof.
  intros Hx Hf Hnil.
  assert (Hin : In x (List.filter f l)).
  { apply filter_In. split; [apply list_elem_of_In, Hx|exact Hf]. }
  rewrite Hnil in Hin. exact Hin.
Qed.

(** A statement that matches no row leaves the table as it is. *)
Lemma update_none_owned (set : JS.object) (id uid : string) (w : World.t) :
  none_owned id uid w →
  db_update set id uid w =
    (Return [], emit (Sql (UpdateWhere set id uid)) w).
Proof.
  intros Hn. unfold db_update.
  assert (Hmap : map (fun r => if owned_by id uid r then apply_set set (clock w) r else r)
                   (contacts w) = contacts w).
  { rewrite <- (map_id (contacts w)) at 2. apply map_ext_in.
    intros r Hr. rewrite (Hn r); [reflexivity|apply list_elem_of_In, Hr]. }
  rewrite Hmap, (filter_none _ _ Hn).
  destruct w; reflexivity.
Qed.

Lemma delete_none_owned (id uid : string) (w : World.t) :
  none_owned id uid w →
  db_delete id uid w = (Return [], emit (Sql (DeleteWhere id uid)) w).
Proof.
  intros Hn. unfold db_delete. rewrite (filter_none _ _ Hn).
  rewrite filter_all; [destruct w; reflexivity|].
  intros r Hr. rewrite (Hn r Hr). reflexivity.
Qed.

Lemma handle_not_found (w : World.t) :
  handleActionError (NotFoundError (Some "Contact")) w = (Return not_found, w).
Proof. reflexivity. Qed.

Lemma handle_unauthenticated (w : World.t) :
  handleActionError (AuthenticationError None) w = (Return unauthenticated, w).
Proof. reflexivity. Qed.

(** The three handlers, step by step. *)

Lemma deleteContact_unauthenticated (id : string) (w : World.t) :
  session w = None → deleteContact id w = (Return unauthenticated, w).
Proof.
  intros Hs. unfold deleteContact, try_catch, bind, getUser. rewrite Hs. reflexivity.
Qed.

Lemma createContact_unauthenticated prev (formData : FormData) (w : World.t) :
  session w = None → createContact prev formData w = (Return unauthenticated, w).
Proof.
  intros Hs. unfold createContact, try_catch, bind, getUser. rewrite Hs. reflexivity.
Qed.

Lemma updateContact_unauthenticated id prev (formData : FormData) (w : World.t) :
  session w = None → updateContact id prev formData w = (Return unauthenticated, w).
Proof.
  intros Hs. unfold updateContact, try_catch, bind, getUser. rewrite Hs. reflexivity.
Qed.

Lemma createContact_invalid prev (formData : FormData) (w : World.t) user errs :
  session w = Some user →
  safeParse contactSchema (JS.fromEntries formData) = Failure errs →
  createContact prev formData w = (Return (Failed None (Some (fieldErrors errs))), w).
Proof.
  intros Hs Hp. unfold createContact, try_catch, bind, getUser.
  rewrite Hs, Hp. reflexivity.
Qed.

Lemma updateContact_invalid id prev (formData : FormData) (w : World.t) user errs :
  session w = Some user →
  safeParse contactUpdateSchema (JS.fromEntries formData) = Failure errs →
  updateContact id prev formData w = (Return (Failed None (Some (fieldErrors errs))), w).
Proof.
  intros Hs Hp. unfold updateContact, try_catch, bind, getUser.
  rewrite Hs, Hp. reflexivity.
Qed.

Lemma updateContact_none_owned id prev (formData : FormData) (w : World.t) user data :
  session w = Some user →
  none_owned id (user_id user) w →
  safeParse contactUpdateSchema (JS.fromEntries formData) = Success data →
  updateContact id prev formData w =
    (Return not_found, emit (Sql (UpdateWhere data id (user_id user))) w).
Proof.
  intros Hs Hn Hp. unfold updateContact, try_catch, bind, getUser.
  rewrite Hs, Hp, (update_none_owned _ _ _ _ Hn). reflexivity.
Qed.

Lemma deleteContact_none_owned id (w : World.t) user :
  session w = Some user →
  none_owned id (user_id user) w →
  deleteContact id w =
    (Return not_found, emit (Sql (DeleteWhere id (user_id user))) w).
Proof.
  intros Hs Hn. unfold deleteContact, try_catch, bind, getUser.
  rewrite Hs, (delete_none_owned _ _ _ Hn). reflexivity.
Qed.

(** Whatever the world, the delete handler returns a result. *)
Lemma deleteContact_returns (id : string) (w : World.t) :
  ∃ r w', deleteContact id w = (Return r, w').
Proof.
  unfold deleteContact, try_catch, bind, getUser.
  destruct (session w) as [user|]; [|eexists; eexists; reflexivity].
  unfold db_delete.
  destruct (List.filter (owned_by id (user_id user)) (contacts w));
    eexists; eexists; reflexivity.
Qed.

Lemma deleteContact_owned id (w : World.t) user r :
  session w = Some user →
  r ∈ contacts w → owned_by id (user_id user) r = true →
  deleteContact id w =
    (Return (Succeeded None (Some "Contact deleted successfully")),
     emit (RevalidatePath "/contacts")
       (emit (Sql (DeleteWhere id (user_id user)))
          (with_contacts
             (List.filter (fun r => negb (owned_by id (user_id user) r)) (contacts w)) w))).
Proof.
  intros Hs Hr Ho. unfold deleteContact, try_catch, bind, getUser.
  rewrite Hs. unfold db_delete.
  pose proof (filter_some _ _ _ Hr Ho) as Hne.
  destruct (List.filter (owned_by id (user_id user)) (contacts w)) as [|x xs];
    [contradiction|].
  reflexivity.
Qed.

End HandlerFacts.

(* ===================================================================== *)
(** ** Ownership: not found, whoever owns the row *)
(* ===================================================================== *)

Section Ownership.
Import Zod Spec Schemas World Errors Handler Actions.

(** C1, as stated, fails for an update whose input does not pass the
    schema: bob submits an empty first name for a contact that belongs to
    alice, and the answer is the field-level error map, not "Contact not
    found". *)
Lemma update_foreign_invalid_input_reports_fields :
  let w := Sample.world (Some Sample.bob) [Sample.johns_row] in
  let result :=
    (updateContact (F := stock) "contact-1" None
       (Sample.form [("firstName", EmptyString)]) w).1 in
  foreign "contact-1" "user-b" w ∧
  result = Return (Failed None (Some {[ "firstName" := ["First name is required"] ]})) ∧
  result ≠ Return not_found.
Proof.
  cbv zeta. split; [|split].
  - split.
    + exists Sample.johns_row. split; [apply list_elem_of_here|reflexivity].
    + intros r ->%list_elem_of_singleton _. discriminate.
  - vm_compute. reflexivity.
  - vm_compute. discriminate.
Qed.

(** C1 (amended): for an authenticated caller, a key that exists under
    another owner and a key that exists nowhere get the same answer from
    delete and from update, and neither request changes a row.  The answer
    is "Contact not found" for every delete, and for every update whose
    input passes the update schema (an update that fails validation is
    answered with the same field errors in both cases). *)
Theorem foreign_row_indistinguishable_from_absent `{F : Formats}
    (id : string) (user : User) (prev : option ActionResult) (formData : FormData)
    (w1 w2 : World.t) :
  session w1 = Some user → session w2 = Some user →
  foreign id (user_id user) w1 → absent id w2 →
  (deleteContact id w1).1 = Return not_found ∧
  (deleteContact id w2).1 = Return not_found ∧
  contacts (deleteContact id w1).2 = contacts w1 ∧
  contacts (deleteContact id w2).2 = contacts w2 ∧
  (updateContact id prev formData w1).1 = (updateContact id prev formData w2).1 ∧
  contacts (updateContact id prev formData w1).2 = contacts w1 ∧
  contacts (updateContact id prev formData w2).2 = contacts w2 ∧
  (∀ data, safeParse contactUpdateSchema (JS.fromEntries formData) = Success data →
     (updateContact id prev formData w1).1 = Return not_found).
Proof.
  intros Hs1 Hs2 Hf%foreign_none_owned Ha%(absent_none_owned id (user_id user)).
  rewrite (deleteContact_none_owned id w1 user Hs1 Hf).
  rewrite (deleteContact_none_owned id w2 user Hs2 Ha).
  destruct (safeParse contactUpdateSchema (JS.fromEntries formData)) as [data|errs] eqn:Hp.
  - rewrite (updateContact_none_owned id prev formData w1 user data Hs1 Hf Hp).
    rewrite (updateContact_none_owned id prev formData w2 user data Hs2 Ha Hp).
    cbn. repeat split; reflexivity.
  - rewrite (updateContact_invalid id prev formData w1 user errs Hs1 Hp).
    rewrite (updateContact_invalid id prev formData w2 user errs Hs2 Hp).
    cbn. repeat split; try reflexivity. intros data Hd. discriminate.
Qed.

(** The instance of C1 for bob, alice's contact and an empty table. *)
Lemma foreign_row_indistinguishable_witness :
  let w1 := Sample.world (Some Sample.bob) [Sample.johns_row] in
  let w2 := Sample.world (Some Sample.bob) [] in
  let formData := Sample.form [("firstName", "Jane")] in
  (deleteContact "contact-1" w1).1 = Return not_found ∧
  (deleteContact "contact-1" w2).1 = Return not_found ∧
  contacts (deleteContact "contact-1" w1).2 = contacts w1 ∧
  contacts (deleteContact "contact-1" w2).2 = contacts w2 ∧
  (updateContact (F := stock) "contact-1" None formData w1).1
    = (updateContact (F := stock) "contact-1" None formData w2).1 ∧
  contacts (updateContact (F := stock) "contact-1" None formData w1).2 = contacts w1 ∧
  contacts (updateContact (F := stock) "contact-1" None formData w2).2 = contacts w2 ∧
  (∀ data, safeParse (contactUpdateSchema (F := stock)) (JS.fromEntries formData)
           = Success data →
     (updateContact (F := stock) "contact-1" None formData w1).1 = Return not_found).
Proof.
  cbv zeta.
  apply (foreign_row_indistinguishable_from_absent (F := stock)
           "contact-1" Sample.bob None (Sample.form [("firstName", "Jane")])
           (Sample.world (Some Sample.bob) [Sample.johns_row])
           (Sample.world (Some Sample.bob) [])).
  - reflexivity.
  - reflexivity.
  - split.
    + exists Sample.johns_row. split; [apply list_elem_of_here|reflexivity].
    + intros r ->%list_elem_of_singleton _. discriminate.
  - intros r Hr. inversion Hr.
Defined.

(** C7: the same delete, issued twice by the owner of the row, succeeds
    and then reports "Contact not found"; and in any world at all the
    handler returns a result: nothing thrown inside it escapes. *)
Theorem delete_twice_succeeds_then_not_found
    (id : string) (user : User) (r : Contact) (w : World.t) :
  session w = Some user →
  r ∈ contacts w → owned_by id (user_id user) r = true →
  (∃ w1 w2,
     deleteContact id w
       = (Return (Succeeded None (Some "Contact deleted successfully")), w1) ∧
     deleteContact id w1 = (Return not_found, w2) ∧
     none_owned id (user_id user) w1 ∧
     contacts w2 = contacts w1) ∧
  (∀ w0, ∃ r w0', deleteContact id w0 = (Return r, w0')).
Proof.
  intros Hs Hr Ho. split; [|intros w0; apply deleteContact_returns].
  rewrite (deleteContact_owned id w user r Hs Hr Ho).
  eexists. eexists. split; [reflexivity|].
  set (w1 := emit _ _).
  assert (Hn : none_owned id (user_id user) w1).
  { intros x Hx. subst w1. cbn in Hx.
    apply list_elem_of_In, filter_In in Hx as [_ Hx].
    destruct (owned_by id (user_id user) x); [discriminate|reflexivity]. }
  rewrite (deleteContact_none_owned id w1 user Hs Hn).
  split; [reflexivity|]. split; [exact Hn|reflexivity].
Qed.

(** The instance of C7 for alice and her contact. *)
Lemma delete_twice_witness :
  ∃ w1 w2,
    deleteContact "contact-1" (Sample.world (Some Sample.alice) [Sample.johns_row])
      = (Return (Succeeded None (Some "Contact deleted successfully")), w1) ∧
    deleteContact "contact-1" w1 = (Return not_found, w2) ∧
    none_owned "contact-1" "user-a" w1 ∧
    contacts w2 = contacts w1.
Proof.
  apply (proj1 (delete_twice_succeeds_then_not_found "contact-1" Sample.alice
                  Sample.johns_row
                  (Sample.world (Some Sample.alice) [Sample.johns_row])
                  eq_refl (list_elem_of_here _ _) eq_refl)).
Defined.

End Ownership.

(* ===================================================================== *)
(** ** Authentication and validation come before the data layer *)
(* ===================================================================== *)

Section Validation.
Import Zod Spec Schemas World Errors Handler Actions.

Lemma object_issue_paths (sh : shape) (data : JS.object) (i : issue) :
  Forall (fun kf => lawful kf.2) sh →
  i ∈ (object sh [] data).2 → ∃ k, path i = [k].
Proof.
  intros Hl. rewrite object_issues.
  induction Hl as [|[k s] sh [Hp _] Hsh IH]; cbn [map concat fst snd].
  - intros Hin. inversion Hin.
  - intros [Hin|Hin]%elem_of_app; [|exact (IH Hin)].
    exists k. apply (Hp _ _ _ Hin).
Qed.

Lemma fieldErrors_nonempty (errs : list issue) (i : issue) (k : string) :
  i ∈ errs → path i = [k] → fieldErrors errs ≠ ∅.
Proof.
  intros Hin Hp Hempty.
  assert (Hl : fieldErrors errs !! k = None) by (rewrite Hempty; apply lookup_empty).
  rewrite fieldErrors_lookup in Hl.
  assert (Hm : In (message i) (messages_at k errs)).
  { unfold messages_at. apply in_map, filter_In. split; [apply list_elem_of_In, Hin|].
    rewrite Hp. apply bool_decide_eq_true_2. reflexivity. }
  destruct (messages_at k errs); [exact Hm|discriminate].
Qed.

(** What a rejected object parse gives to [flatten]. *)
Lemma rejected_object_errors (sh : shape) (data : JS.object) (errs : list issue) :
  Forall (fun kf => lawful kf.2) sh →
  safeParse (object sh) data = Failure errs →
  errs = (object sh [] data).2 ∧ fieldErrors errs ≠ ∅.
Proof.
  intros Hl Hp. pose proof (safeParse_issues sh data Hl) as Hi.
  rewrite Hp in Hi. destruct Hi as [-> Hne]. split; [reflexivity|].
  destruct (object sh [] data).2 as [|i rest] eqn:He; [contradiction|].
  destruct (object_issue_paths sh data i Hl) as [k Hk].
  { rewrite He. apply list_elem_of_here. }
  apply (fieldErrors_nonempty _ i k); [apply list_elem_of_here|exact Hk].
Qed.

(** A field that raises issues makes the object parse fail, and its
    messages are what the error map holds under its name. *)
Lemma failing_field_reported (sh : shape) (data : JS.object) (k : string) (s : field) :
  Forall (fun kf => lawful kf.2) sh → NoDup (map fst sh) →
  (k, s) ∈ sh → own_messages s data k ≠ [] →
  ∃ errs, safeParse (object sh) data = Failure errs ∧
          fieldErrors errs !! k = Some (own_messages s data k).
Proof.
  intros Hl Hnd Hin Hne.
  pose proof (object_field_messages sh data k Hl) as Hm.
  rewrite (shape_messages_in sh data k s Hnd Hin) in Hm.
  unfold field_messages in Hm.
  pose proof (safeParse_issues sh data Hl) as Hi.
  destruct (safeParse (object sh) data) as [out|errs].
  - rewrite Hi in Hm. cbn in Hm.
    destruct (own_messages s data k); [contradiction|discriminate].
  - destruct Hi as [-> _]. eexists. split; [reflexivity|].
    rewrite Hm. destruct (own_messages s data k); [contradiction|reflexivity].
Qed.

Section WithFormats.
Context `{F : Formats}.

Lemma create_reports_failing_field (user : User) prev (formData : FormData)
    (w : World.t) (k : string) (s : field) :
  session w = Some user →
  (k, s) ∈ contactShape → own_messages s (JS.fromEntries formData) k ≠ [] →
  ∃ errors,
    createContact prev formData w = (Return (Failed None (Some errors)), w) ∧
    errors !! k = Some (own_messages s (JS.fromEntries formData) k).
Proof.
  intros Hs Hin Hne.
  destruct (failing_field_reported contactShape (JS.fromEntries formData) k s
              contactShape_lawful contactShape_keys Hin Hne) as (errs & Hp & Hk).
  exists (fieldErrors errs). split; [|exact Hk].
  apply (createContact_invalid prev formData w user errs Hs Hp).
Qed.

Lemma update_reports_failing_field (user : User) id prev (formData : FormData)
    (w : World.t) (k : string) (s : field) :
  session w = Some user →
  (k, s) ∈ partial contactShape → own_messages s (JS.fromEntries formData) k ≠ [] →
  ∃ errors,
    updateContact id prev formData w = (Return (Failed None (Some errors)), w) ∧
    errors !! k = Some (own_messages s (JS.fromEntries formData) k).
Proof.
  intros Hs Hin Hne.
  assert (Hnd : NoDup (map fst (partial contactShape))).
  { rewrite partial_keys. apply contactShape_keys. }
  destruct (failing_field_reported (partial contactShape) (JS.fromEntries formData) k s
              (partial_lawful _ contactShape_lawful) Hnd Hin Hne) as (errs & Hp & Hk).
  exists (fieldErrors errs). split; [|exact Hk].
  apply (updateContact_invalid id prev formData w user errs Hs Hp).
Qed.

Lemma create_validates_first prev :
  validates_first (fun formData => rejected_by contactSchema (JS.fromEntries formData))
                  (createContact prev).
Proof.
  intros w user formData Hs [errs Hp].
  exists (fieldErrors errs). split.
  - apply (createContact_invalid prev formData w user errs Hs Hp).
  - apply (rejected_object_errors contactShape _ errs contactShape_lawful Hp).
Qed.

Lemma update_validates_first id prev :
  validates_first (fun formData => rejected_by contactUpdateSchema (JS.fromEntries formData))
                  (updateContact id prev).
Proof.
  intros w user formData Hs [errs Hp].
  exists (fieldErrors errs). split.
  - apply (updateContact_invalid id prev formData w user errs Hs Hp).
  - apply (rejected_object_errors (partial contactShape) _ errs
             (partial_lawful _ contactShape_lawful) Hp).
Qed.

End WithFormats.

(** An authenticated delete always reaches the table: its one statement
    is the scoped DELETE, and its answer never carries field errors. *)
Lemma delete_always_reaches_the_table (id : string) (user : User) (w : World.t) :
  session w = Some user →
  ∃ r w', deleteContact id w = (Return r, w') ∧
          errors_of r = None ∧
          statements (trace w')
            = statements (trace w) ++ [DeleteWhere id (user_id user)].
Proof.
  intros Hs. unfold deleteContact, try_catch, bind, getUser. rewrite Hs.
  unfold db_delete.
  destruct (List.filter (owned_by id (user_id user)) (contacts w)) as [|x xs];
    eexists; eexists; (split; [reflexivity|]); (split; [reflexivity|]);
    cbn; unfold statements; rewrite ?omap_app; cbn; rewrite ?app_nil_r; reflexivity.
Qed.

End Validation.

Section ValidationClaims.
Import Zod Spec Schemas World Errors Handler Actions.

Lemma nonempty_length (e : string) : e ≠ EmptyString → (JS.length e <? 1)%Z = false.
Proof.
  intros He. destruct e as [|c e']; [contradiction|].
  apply Z.ltb_ge. unfold JS.length. cbn [String.length]. lia.
Qed.

(** The claim's scenario: an empty first name next to a valid last name
    and e-mail address. *)
Lemma scenario_parse :
  safeParse (contactSchema (F := stock))
    (JS.fromEntries Sample.scenario)
  = Failure [Issue too_small ["firstName"] "First name is required"].
Proof. vm_compute. reflexivity. Qed.

(** C2: an authenticated create or update whose input fails the
    constraint of a field is answered with [success: false] and an error
    map that holds, under the name of that field, the messages of the
    constraints it failed; the world is left as it was (no statement, no
    row, no invalidation).  In particular an empty first name is reported
    as "First name is required" and a malformed e-mail address as
    "Invalid email address", and the scenario of the specification gives
    exactly the map with the single entry for [firstName].  (The deal
    schema, for which the repository has no handler, reports a percentage
    above 100 under [probability] in the same way.) *)
Theorem invalid_field_is_reported_and_nothing_is_written :
  (∀ (F : Formats) (user : User) prev (formData : FormData) (w : World.t)
     (k : string) (s : field),
     session w = Some user →
     (k, s) ∈ contactShape → own_messages s (JS.fromEntries formData) k ≠ [] →
     ∃ errors,
       createContact prev formData w = (Return (Failed None (Some errors)), w) ∧
       errors !! k = Some (own_messages s (JS.fromEntries formData) k)) ∧
  (∀ (F : Formats) (user : User) id prev (formData : FormData) (w : World.t)
     (k : string) (s : field),
     session w = Some user →
     (k, s) ∈ partial contactShape → own_messages s (JS.fromEntries formData) k ≠ [] →
     ∃ errors,
       updateContact id prev formData w = (Return (Failed None (Some errors)), w) ∧
       errors !! k = Some (own_messages s (JS.fromEntries formData) k)) ∧
  (∀ (F : Formats) (user : User) prev (formData : FormData) (w : World.t),
     session w = Some user →
     JS.get (JS.fromEntries formData) "firstName" = JS.Str EmptyString →
     ∃ errors,
       createContact prev formData w = (Return (Failed None (Some errors)), w) ∧
       errors !! "firstName" = Some ["First name is required"]) ∧
  (∀ (F : Formats) (user : User) prev (formData : FormData) (w : World.t) (e : string),
     session w = Some user →
     JS.get (JS.fromEntries formData) "email" = JS.Str e →
     e ≠ EmptyString → email_ok e = false →
     ∃ errors,
       createContact prev formData w = (Return (Failed None (Some errors)), w) ∧
       errors !! "email" = Some ["Invalid email address"]) ∧
  (∀ (user : User) prev (w : World.t),
     session w = Some user →
     createContact (F := stock) prev
       Sample.scenario w
     = (Return (Failed None (Some {[ "firstName" := ["First name is required"] ]})), w)) ∧
  (∀ (F : Formats) (C : Coercion) (data : JS.object),
     JS.get data "probability" ≠ JS.Undefined →
     JS.gt (Number (JS.get data "probability")) 100 = true →
     ∃ errs msgs,
       safeParse dealSchema data = Failure errs ∧
       fieldErrors errs !! "probability" = Some msgs ∧
       "Must be at most 100" ∈ msgs).
Proof.
  repeat apply conj.
  - intros F user prev formData w k s. apply create_reports_failing_field.
  - intros F user id prev formData w k s. apply update_reports_failing_field.
  - intros F user prev formData w Hs Hget.
    destruct (create_reports_failing_field user prev formData w "firstName"
                (str [Min 1 "First name is required";
                      Max 100 "First name must be less than 100 characters"; Trim]) Hs)
      as (errors & Hres & Hk).
    { apply list_elem_of_here. }
    { unfold own_messages. rewrite Hget. cbn. discriminate. }
    exists errors. split; [exact Hres|].
    rewrite Hk. unfold own_messages. rewrite Hget. reflexivity.
  - intros F user prev formData w e Hs Hget He Hbad.
    assert (Hown : own_messages emailSchema (JS.fromEntries formData) "email"
                   = ["Invalid email address"]).
    { unfold own_messages, emailSchema. rewrite Hget.
      cbn [str run_checks run_check]. rewrite (nonempty_length e He), Hbad.
      reflexivity. }
    destruct (create_reports_failing_field user prev formData w "email" emailSchema Hs)
      as (errors & Hres & Hk).
    { do 2 apply list_elem_of_further. apply list_elem_of_here. }
    { rewrite Hown. discriminate. }
    exists errors. split; [exact Hres|]. rewrite Hk, Hown. reflexivity.
  - intros user prev w Hs.
    rewrite (createContact_invalid (F := stock) prev _ w user _ Hs scenario_parse).
    reflexivity.
  - intros F C data Hdef Hgt.
    assert (Hown : "Must be at most 100" ∈ own_messages percentageSchema data "probability").
    { unfold own_messages, percentageSchema, optional, coerce_number.
      destruct (JS.get data "probability") as [|x|n|f] eqn:Hv; [contradiction| | |];
        (destruct (Number _) as [|neg|q]; [discriminate| |]);
        cbn [omap list_omap run_ncheck snd]; rewrite Hgt;
        repeat case_match; cbn; rewrite ?elem_of_cons; auto 10. }
    destruct (failing_field_reported dealShape data "probability" percentageSchema
                dealShape_lawful dealShape_keys) as (errs & Hp & Hk).
    { do 5 apply list_elem_of_further. apply list_elem_of_here. }
    { intros Hnil. rewrite Hnil in Hown. inversion Hown. }
    exists errs, (own_messages percentageSchema data "probability").
    split; [exact Hp|]. split; [exact Hk|exact Hown].
Qed.

(** The instance of C2 for bob and the scenario's form. *)
Lemma invalid_field_witness :
  let w := Sample.world (Some Sample.bob) [] in
  let formData := Sample.scenario in
  session w = Some Sample.bob ∧
  ∃ errors,
    createContact (F := stock) None formData w = (Return (Failed None (Some errors)), w) ∧
    errors !! "firstName" = Some ["First name is required"].
Proof.
  cbv zeta. split; [reflexivity|].
  apply (proj1 (proj2 (proj2 invalid_field_is_reported_and_nothing_is_written))
           stock Sample.bob None _ (Sample.world (Some Sample.bob) [])).
  - reflexivity.
  - vm_compute. reflexivity.
Defined.

(** C3, as stated, fails for delete: the handler has no validation step.
    The key "not-a-uuid" is rejected by the key schema of the repository,
    yet the authenticated delete issues its DELETE statement, and its
    answer carries no field-level error map. *)
Lemma delete_does_not_validate_its_input :
  let w := Sample.world (Some Sample.bob) [] in
  safeParse (uuidSchema (F := stock)) (JS.Str "not-a-uuid")
    = Failure [Issue invalid_string [] "Invalid ID format"] ∧
  (∃ r w', deleteContact "not-a-uuid" w = (Return r, w') ∧
           errors_of r = None ∧
           statements (trace w') = [DeleteWhere "not-a-uuid" "user-b"]) ∧
  ¬ validates_first (fun id => rejected_by (uuidSchema (F := stock)) (JS.Str id))
      deleteContact.
Proof.
  cbv zeta. split; [vm_compute; reflexivity|].
  split; [eexists _, _; split; [reflexivity|split; reflexivity]|].
  intros Hv.
  destruct (Hv (Sample.world (Some Sample.bob) []) Sample.bob "not-a-uuid" eq_refl)
    as (errors & Hres & _).
  { eexists. vm_compute. reflexivity. }
  discriminate Hres.
Qed.

(** C3 (amended): create and update validate the raw input against the
    contact schema before any data-layer call: a rejected input is
    answered with a non-empty field-level error map and the world is left
    as it was.  Delete has three steps and no validation: every
    authenticated delete issues its scoped DELETE statement, and its
    answer never carries field errors. *)
Theorem create_and_update_validate_first `{F : Formats} (prev : option ActionResult) :
  validates_first (fun formData => rejected_by contactSchema (JS.fromEntries formData))
    (createContact prev) ∧
  (∀ id,
     validates_first
       (fun formData => rejected_by contactUpdateSchema (JS.fromEntries formData))
       (updateContact id prev)) ∧
  (∀ id user w,
     session w = Some user →
     ∃ r w', deleteContact id w = (Return r, w') ∧
             errors_of r = None ∧
             statements (trace w')
               = statements (trace w) ++ [DeleteWhere id (user_id user)]).
Proof.
  split; [apply create_validates_first|].
  split; [intros id; apply update_validates_first|].
  intros id user w. apply delete_always_reaches_the_table.
Qed.

(** The instance of C3 for the scenario's form, which the create schema
    rejects. *)
Lemma create_validates_first_witness :
  let w := Sample.world (Some Sample.bob) [] in
  let formData := Sample.scenario in
  ∃ errors,
    createContact (F := stock) None formData w = (Return (Failed None (Some errors)), w) ∧
    errors ≠ ∅.
Proof.
  cbv zeta.
  apply (proj1 (create_and_update_validate_first (F := stock) None)
           (Sample.world (Some Sample.bob) []) Sample.bob).
  - reflexivity.
  - eexists. apply scenario_parse.
Defined.

(** C6: without an identity every mutation handler answers with the
    authentication error and does nothing else: the answer does not
    depend on the input, and the world (table, statements, invalidations)
    is the one it started from. *)
Theorem unauthenticated_mutation_is_refused `{F : Formats}
    (prev : option ActionResult) (m : mutation) (w : World.t) :
  session w = None → run prev m w = (Return unauthenticated, w).
Proof.
  intros Hs. destruct m as [formData|id formData|id]; cbn [run].
  - apply createContact_unauthenticated, Hs.
  - apply updateContact_unauthenticated, Hs.
  - apply deleteContact_unauthenticated, Hs.
Qed.

(** The instance of C6 for an anonymous update of alice's contact. *)
Lemma unauthenticated_mutation_witness :
  let w := Sample.world None [Sample.johns_row] in
  session w = None ∧
  run (F := stock) None (Update "contact-1" (Sample.form [("firstName", "Jane")])) w
    = (Return unauthenticated, w).
Proof.
  cbv zeta. split; [reflexivity|].
  apply (unauthenticated_mutation_is_refused (F := stock)). reflexivity.
Defined.

End ValidationClaims.

(* ===================================================================== *)
(** ** The route guard *)
(* ===================================================================== *)

Section RouteGuard.
Import Spec World Handler Middleware.

Lemma params_get_delete (ps : URLSearchParams) (name : string) :
  params_get (params_delete ps name) name = None.
Proof.
  induction ps as [|[k v] ps IH]; [reflexivity|].
  unfold params_delete in *. cbn [List.filter fst].
  destruct (String.eqb k name) eqn:Hk; cbn [negb]; [exact IH|].
  cbn [params_get]. rewrite Hk. exact IH.
Qed.

Lemma params_get_delete_other (ps : URLSearchParams) (name other : string) :
  other ≠ name →
  params_get (params_delete ps name) other = params_get ps other.
Proof.
  intros Hne. induction ps as [|[k v] ps IH]; [reflexivity|].
  unfold params_delete in *. cbn [List.filter fst].
  destruct (String.eqb_spec k name) as [->|Hk]; cbn [negb params_get].
  - destruct (String.eqb_spec name other); [congruence|exact IH].
  - rewrite IH. reflexivity.
Qed.

Lemma params_get_set (ps : URLSearchParams) (name value : string) :
  params_get (params_set ps name value) name = Some value.
Proof.
  induction ps as [|[k v] ps IH]; cbn [params_set params_get].
  - rewrite String.eqb_refl. reflexivity.
  - destruct (String.eqb k name) eqn:Hk; cbn [params_get].
    + rewrite String.eqb_refl. reflexivity.
    + rewrite Hk. exact IH.
Qed.

(** [set] leaves the other names as they were. *)
Lemma params_get_set_other (ps : URLSearchParams) (name value other : string) :
  other ≠ name →
  params_get (params_set ps name value) other = params_get ps other.
Proof.
  intros Hne. induction ps as [|[k v] ps IH]; cbn [params_set params_get].
  - destruct (String.eqb_spec name other); [congruence|reflexivity].
  - destruct (String.eqb_spec k name) as [->|Hk]; cbn [params_get].
    + destruct (String.eqb_spec name other); [congruence|].
      clear IH. induction ps as [|[k' v'] ps IH']; [reflexivity|].
      unfold params_delete in *. cbn [List.filter fst params_get].
      destruct (String.eqb_spec k' name) as [->|Hk']; cbn [negb params_get].
      * destruct (String.eqb_spec name other); [congruence|exact IH'].
      * destruct (String.eqb k' other); [reflexivity|exact IH'].
    + destruct (String.eqb k other); [reflexivity|exact IH].
Qed.

(** C8: a request for a path under a protected prefix, without an
    identity, is answered with a redirect to [/login] on the same origin
    whose [redirectTo] parameter is the path that was asked for; the
    other query parameters are kept. *)
Theorem protected_path_redirects_to_login (request : NextRequest) (w : World.t) :
  session w = None →
  isProtectedRoute (pathname (nextUrl request)) = true →
  ∃ url,
    updateSession request w = (Return (Redirect url), w) ∧
    pathname url = "/login" ∧
    origin url = origin (nextUrl request) ∧
    params_get (searchParams url) "redirectTo" = Some (pathname (nextUrl request)) ∧
    ∀ other, other ≠ "redirectTo" →
      params_get (searchParams url) other
        = params_get (searchParams (nextUrl request)) other.
Proof.
  intros Hs Hp. unfold updateSession, bind, Middleware.getUser. rewrite Hs, Hp.
  cbn [andb negb]. rewrite bool_decide_eq_false_2 by (intros [x Hx]; discriminate).
  cbn [negb]. eexists. split; [reflexivity|].
  cbn [pathname origin searchParams set_pathname set_searchParams].
  split; [reflexivity|]. split; [reflexivity|].
  split; [apply params_get_set|].
  intros other Hne. apply params_get_set_other, Hne.
Qed.

(** The instance of C8 for an anonymous request to a contact page. *)
Lemma protected_path_witness :
  let request := Sample.page "/contacts/42" [("tab", "notes")] in
  let w := Sample.world None [] in
  ∃ url,
    updateSession request w = (Return (Redirect url), w) ∧
    pathname url = "/login" ∧
    origin url = "https://app.example.com" ∧
    params_get (searchParams url) "redirectTo" = Some "/contacts/42" ∧
    ∀ other, other ≠ "redirectTo" →
      params_get (searchParams url) other
        = params_get (searchParams (nextUrl request)) other.
Proof.
  cbv zeta.
  apply (protected_path_redirects_to_login
           (Sample.page "/contacts/42" [("tab", "notes")]) (Sample.world None [])).
  - reflexivity.
  - reflexivity.
Defined.

(** C5, as stated, fails when the request carries a return target: an
    authenticated request to [/login?redirectTo=/contacts] is redirected
    to [/contacts], not to [/dashboard]. *)
Lemma auth_route_follows_return_target :
  let request := Sample.page "/login" [("redirectTo", "/contacts")] in
  let w := Sample.world (Some Sample.bob) [] in
  isAuthRoute (pathname (nextUrl request)) = true ∧
  updateSession request w
    = (Return (Redirect {| origin := "https://app.example.com";
                           pathname := "/contacts";
                           searchParams := [] |}), w) ∧
  "/contacts" ≠ "/dashboard".
Proof.
  cbv zeta. split; [reflexivity|]. split; [reflexivity|]. discriminate.
Qed.

(** C5 (amended): a request for a path under an auth-only prefix, with
    an identity, is answered with a redirect on the same origin that
    carries no [redirectTo] parameter and keeps the other parameters of
    the request.  Its path is [/dashboard] when the request has no
    [redirectTo] parameter or an empty one, and the value of that
    parameter when it is a path in serialised form. *)
Theorem auth_route_redirects_authenticated (request : NextRequest) (user : User)
    (w : World.t) :
  session w = Some user →
  isAuthRoute (pathname (nextUrl request)) = true →
  ∃ url,
    updateSession request w = (Return (Redirect url), w) ∧
    origin url = origin (nextUrl request) ∧
    params_get (searchParams url) "redirectTo" = None ∧
    (∀ other, other ≠ "redirectTo" →
       params_get (searchParams url) other
         = params_get (searchParams (nextUrl request)) other) ∧
    match params_get (searchParams (nextUrl request)) "redirectTo" with
    | None => pathname url = "/dashboard"
    | Some target =>
        if String.eqb target EmptyString then pathname url = "/dashboard"
        else serialised_path target = true → pathname url = target
    end.
Proof.
  intros Hs Ha. unfold updateSession, bind, Middleware.getUser. rewrite Hs, Ha.
  rewrite bool_decide_eq_true_2 by (eexists; reflexivity).
  rewrite andb_false_r. cbn [andb].
  eexists. split; [reflexivity|].
  cbn [pathname origin searchParams set_pathname set_searchParams].
  split; [reflexivity|]. split; [apply params_get_delete|].
  split; [intros other Hne; apply params_get_delete_other, Hne|].
  destruct (params_get (searchParams (nextUrl request)) "redirectTo") as [target|];
    [|reflexivity].
  cbn [or_else]. destruct (String.eqb target EmptyString); [reflexivity|].
  intros _. reflexivity.
Qed.

(** The instance of C5 for an authenticated request to the login page
    that names the page of a deal as its return target. *)
Lemma auth_route_witness :
  let request := Sample.page "/login" [("redirectTo", "/deals/7"); ("tab", "open")] in
  let w := Sample.world (Some Sample.bob) [] in
  serialised_path "/deals/7" = true ∧
  ∃ url,
    updateSession request w = (Return (Redirect url), w) ∧
    origin url = "https://app.example.com" ∧
    pathname url = "/deals/7" ∧
    params_get (searchParams url) "redirectTo" = None ∧
    params_get (searchParams url) "tab" = Some "open".
Proof.
  cbv zeta. split; [reflexivity|].
  destruct (auth_route_redirects_authenticated
              (Sample.page "/login" [("redirectTo", "/deals/7"); ("tab", "open")])
              Sample.bob (Sample.world (Some Sample.bob) []) eq_refl eq_refl)
    as (url & Hrun & Horigin & Hgone & Hkept & Hpath).
  exists url. split; [exact Hrun|]. split; [exact Horigin|].
  split; [exact (Hpath eq_refl)|]. split; [exact Hgone|].
  rewrite (Hkept "tab") by discriminate. reflexivity.
Defined.

End RouteGuard.

(* ===================================================================== *)
(** ** The webhook entry point *)
(* ===================================================================== *)

Section WebhookClaims.
Import Spec World Handler Webhook.

Lemma POST_cases (request : Request) (w : World.t) :
  POST request w
  = (Return (if has_signature request then placeholder else missing_signature), w).
Proof.
  unfold POST, has_signature.
  destruct (falsy (headers_get (headers request) "stripe-signature")); reflexivity.
Qed.

(** C4, as stated, fails for a signature that is present and not valid:
    the verification is commented out in the handler, so a delivery whose
    signature header holds an arbitrary string is acknowledged with
    status 200 and [received: true].  With a verification that accepts
    nothing, the handler does not reject everything unverified. *)
Lemma forged_signature_is_acknowledged :
  let w := Sample.world None [] in
  POST Sample.forged_delivery w = (Return placeholder, w) ∧
  status placeholder = 200%Z ∧
  ¬ rejects_unverified (fun _ => false).
Proof.
  cbv zeta. split; [reflexivity|]. split; [reflexivity|].
  intros Hr.
  destruct (Hr Sample.forged_delivery (Sample.world None []) eq_refl)
    as (r & w' & Hpost & Hstatus).
  cbv in Hpost. inversion Hpost; subst r. cbv in Hstatus. apply Hstatus. reflexivity.
Qed.

(** C4 (amended): the handler tests the presence of the signature and
    nothing else.  A request without a (non-empty) [stripe-signature]
    header is rejected with status 400; any other request is answered
    with the placeholder acknowledgement, whatever its signature and
    body; no event is processed and the world is left as it was in both
    cases.  So the handler rejects what a verification does not accept
    exactly when that verification accepts every request that carries a
    signature. *)
Theorem webhook_tests_presence_only :
  (∀ (request : Request) (w : World.t),
     has_signature request = false →
     POST request w = (Return missing_signature, w)) ∧
  (∀ (request : Request) (w : World.t),
     has_signature request = true →
     POST request w = (Return placeholder, w)) ∧
  (∀ verified : Request → bool,
     rejects_unverified verified ↔
     ∀ request, has_signature request = true → verified request = true).
Proof.
  split; [|split].
  - intros request w Hn. rewrite POST_cases, Hn. reflexivity.
  - intros request w Hy. rewrite POST_cases, Hy. reflexivity.
  - intros verified. split.
    + intros Hr request Hy.
      destruct (verified request) eqn:Hv; [reflexivity|].
      destruct (Hr request (Sample.world None []) Hv) as (r & w' & Hpost & Hstatus).
      rewrite POST_cases, Hy in Hpost. inversion Hpost; subst r.
      cbv in Hstatus. exfalso. apply Hstatus. reflexivity.
    + intros Hall request w Hv.
      destruct (has_signature request) eqn:Hy.
      * rewrite (Hall request Hy) in Hv. discriminate.
      * exists missing_signature, w. rewrite POST_cases, Hy.
        split; [reflexivity|]. cbv. discriminate.
Qed.

(** The instance of C4 for a delivery without a signature header. *)
Lemma webhook_witness :
  let w := Sample.world None [Sample.johns_row] in
  has_signature Sample.unsigned_delivery = false ∧
  POST Sample.unsigned_delivery w = (Return missing_signature, w).
Proof.
  cbv zeta. split; [reflexivity|].
  apply (proj1 webhook_tests_presence_only). reflexivity.
Defined.

End WebhookClaims.

(* ===================================================================== *)
(** ** Cross-field validation *)
(* ===================================================================== *)

Section CrossField.
Import Zod Spec Schemas.

Lemma refine_issues {I A} (S : schema I A) (test : A → bool) (msg : string)
    (sub p : list string) (v : I) :
  (refine S test msg sub p v).2
  = (S p v).2 ++
    match parsed_value (S p v).1 with
    | Some x => if test x then [] else [Issue custom (p ++ sub) msg]
    | None => []
    end.
Proof.
  unfold refine. destruct (S p v) as [[x|x|] errs]; cbn;
    try destruct (test x); cbn; rewrite ?app_nil_r; reflexivity.
Qed.

(** What a schema with the password refinement reports under a field:
    the messages of its object, and under [confirmPassword] the mismatch
    as well. *)
Lemma refined_field_messages (sh : shape) (data : JS.object) (k : string) :
  Forall (fun kf => lawful kf.2) sh →
  field_messages
    (refine (object sh) passwords_equal "Passwords do not match" ["confirmPassword"])
    data k
  = entry (shape_messages sh data k ++
           if String.eqb k "confirmPassword"
           then mismatch (object sh [] data).1 else []).
Proof.
  intros Hl. unfold field_messages.
  rewrite fieldErrors_lookup, refine_issues, messages_at_app.
  rewrite (object_messages_at sh data k Hl). do 2 f_equal.
  unfold mismatch. destruct (parsed_value (object sh [] data).1) as [out|].
  - destruct (passwords_equal out).
    + destruct (String.eqb k "confirmPassword"); reflexivity.
    + unfold messages_at. cbn [List.filter path head app].
      destruct (String.eqb_spec k "confirmPassword") as [->|Hne].
      * rewrite bool_decide_eq_true_2 by reflexivity. reflexivity.
      * rewrite bool_decide_eq_false_2 by congruence. reflexivity.
  - destruct (String.eqb k "confirmPassword"); reflexivity.
Qed.

(** C9, as stated, fails: the registration schema is not the only one
    with a cross-field rule.  The reset-password schema compares
    [confirmPassword] with [password] too: the same confirmation is
    accepted next to one password and rejected next to another. *)
Lemma reset_password_compares_two_fields :
  let d1 : JS.object :=
    {[ "password" := JS.Str "Password123"; "confirmPassword" := JS.Str "Password123" ]} in
  let d2 : JS.object :=
    {[ "password" := JS.Str "Password124"; "confirmPassword" := JS.Str "Password123" ]} in
  d1 !! "confirmPassword" = d2 !! "confirmPassword" ∧
  field_messages (resetPasswordSchema (F := stock)) d1 "confirmPassword" = None ∧
  field_messages (resetPasswordSchema (F := stock)) d2 "confirmPassword" = Some ["Passwords do not match"] ∧
  ¬ field_local (resetPasswordSchema (F := stock)).
Proof.
  cbv zeta. split; [vm_compute; reflexivity|].
  split; [vm_compute; reflexivity|].
  split; [vm_compute; reflexivity|].
  intros Hlocal.
  specialize (Hlocal
    {[ "password" := JS.Str "Password123"; "confirmPassword" := JS.Str "Password123" ]}
    {[ "password" := JS.Str "Password124"; "confirmPassword" := JS.Str "Password123" ]}
    "confirmPassword").
  vm_compute in Hlocal. specialize (Hlocal eq_refl). discriminate Hlocal.
Qed.

(** C9 (amended): in every object schema built from the field schemas
    of the library, what is reported under a field depends on the value
    of that field alone; this covers the auth, contact, deal and
    organization schemas and the objects under the two refined schemas.  The only cross-field rule is the equality of
    [password] and [confirmPassword], and two schemas have it: the
    registration schema and the reset-password schema.  Each of them
    reports what its object reports, plus "Passwords do not match" under
    [confirmPassword] when the object parse did not abort and the two
    values differ. *)
Theorem cross_field_rule_is_password_confirmation `{F : Formats} `{C : Coercion} :
  (∀ sh : shape, Forall (fun kf => lawful kf.2) sh → field_local (object sh)) ∧
  Forall field_local
    [ loginSchema; forgotPasswordSchema; updateProfileSchema;
      contactSchema; contactUpdateSchema;
      dealSchema; dealUpdateSchema; moveDealSchema;
      organizationSchema; organizationUpdateSchema;
      object registerShape; object resetPasswordShape ] ∧
  (∀ data k,
     field_messages registerSchema data k
     = entry (shape_messages registerShape data k ++
              if String.eqb k "confirmPassword"
              then mismatch (object registerShape [] data).1 else [])) ∧
  (∀ data k,
     field_messages resetPasswordSchema data k
     = entry (shape_messages resetPasswordShape data k ++
              if String.eqb k "confirmPassword"
              then mismatch (object resetPasswordShape [] data).1 else [])).
Proof.
  split; [exact object_field_local|]. split; [|split].
  - repeat match goal with
           | |- Forall _ (_ :: _) => constructor
           | |- Forall _ [] => constructor
           end;
      apply object_field_local;
      first [ apply loginShape_lawful | apply forgotPasswordShape_lawful
            | apply updateProfileShape_lawful | apply contactShape_lawful
            | apply dealShape_lawful | apply moveDealShape_lawful
            | apply organizationShape_lawful | apply registerShape_lawful
            | apply resetPasswordShape_lawful
            | apply partial_lawful;
              first [ apply contactShape_lawful | apply dealShape_lawful
                    | apply organizationShape_lawful ] ].
  - intros data k. apply refined_field_messages, registerShape_lawful.
  - intros data k. apply refined_field_messages, resetPasswordShape_lawful.
Qed.

(** The instance of C9 for the login schema. *)
Lemma cross_field_witness :
  Forall (fun kf => lawful kf.2) (loginShape (F := stock)) ∧
  field_local (loginSchema (F := stock)).
Proof.
  split; [apply loginShape_lawful|].
  apply (proj1 (cross_field_rule_is_password_confirmation
                  (F := stock) (C := Sample.digits_only))).
  apply loginShape_lawful.
Defined.

End CrossField.

(* ===================================================================== *)
(** ** Empty optional fields *)
(* ===================================================================== *)

Section BlankFields.
Import Zod Spec Schemas World Handler.

(** A key that no pair carries keeps the value it had. *)
Lemma merge_lookup_notin dirty (acc : JS.object)
    (pairs : list (string * bool * (parsed JS.value * list issue)))
    (out : JS.object) (k : string) :
  k ∉ map (fun x => x.1.1) pairs →
  parsed_value (mergeObjectSync dirty acc pairs) = Some out →
  out !! k = acc !! k.
Proof.
  revert dirty acc. induction pairs as [|[[k' al] [r errs]] pairs IH]; intros dirty acc Hn.
  - cbn. destruct dirty; cbn; intros [= <-]; reflexivity.
  - cbn [map fst] in Hn. apply not_elem_of_cons in Hn as [Hne Hn].
    cbn [mergeObjectSync]. destruct r as [v|v|]; [| |discriminate];
      intros Hm; rewrite (IH _ _ Hn Hm); case_match;
        try reflexivity; apply lookup_insert_ne; congruence.
Qed.

(** A key that one pair carries reads as the value of that pair. *)
Lemma merge_get dirty (acc : JS.object)
    (pairs : list (string * bool * (parsed JS.value * list issue)))
    (out : JS.object) (k : string) (al : bool) (r : parsed JS.value)
    (errs : list issue) (v : JS.value) :
  NoDup (map (fun x => x.1.1) pairs) →
  (k, al, (r, errs)) ∈ pairs →
  parsed_value r = Some v →
  k ≠ "__proto__" →
  acc !! k = None →
  parsed_value (mergeObjectSync dirty acc pairs) = Some out →
  JS.get out k = v.
Proof.
  revert dirty acc.
  induction pairs as [|[[k' al'] [r' errs']] pairs IH]; intros dirty acc Hnd Hin Hv Hk Hacc.
  - inversion Hin.
  - cbn [map fst] in Hnd. apply NoDup_cons in Hnd as [Hk' Hnd].
    apply elem_of_cons in Hin as [Heq|Hin].
    + inversion Heq; subst k' al' r' errs'. cbn [mergeObjectSync].
      destruct r as [x|x|]; [| |discriminate]; cbn in Hv; inversion Hv; subst x;
        intros Hm; unfold JS.get; rewrite (merge_lookup_notin _ _ _ _ _ Hk' Hm);
        (destruct (String.eqb_spec k "__proto__"); [contradiction|]); cbn [negb andb];
        (destruct (negb (JS.is_undefined v) || al) eqn:Hkeep;
          [rewrite lookup_insert_eq; reflexivity|]);
        rewrite Hacc; cbn; apply orb_false_iff in Hkeep as [Hu _];
        destruct v; cbn in Hu; try discriminate; reflexivity.
    + assert (Hne : k' ≠ k).
      { intros ->. apply Hk'. apply list_elem_of_In, in_map_iff.
        exists (k, al, (r, errs)). split; [reflexivity|apply list_elem_of_In, Hin]. }
      cbn [mergeObjectSync]. destruct r' as [x|x|]; [| |discriminate];
        intros Hm; apply (IH _ _ Hnd Hin Hv Hk) in Hm; try exact Hm;
        case_match; try exact Hacc; rewrite lookup_insert_ne by exact Hne; exact Hacc.
Qed.

(** Reading a parsed object at one of the names of its shape. *)
Lemma object_get (sh : shape) (data out : JS.object) (k : string) (s : field)
    (v : JS.value) :
  NoDup (map fst sh) → (k, s) ∈ sh → k ≠ "__proto__" →
  parsed_value (s [k] (JS.get data k)).1 = Some v →
  parsed_value (object sh [] data).1 = Some out →
  JS.get out k = v.
Proof.
  intros Hnd Hin Hk Hv Hm. unfold object in Hm. cbn [fst] in Hm.
  apply (merge_get false ∅ (map (parse_pair [] data) sh) out k (JS.has data k)
           (s [k] (JS.get data k)).1 (s [k] (JS.get data k)).2 v).
  - rewrite map_map. cbn [parse_pair fst]. exact Hnd.
  - apply list_elem_of_In, in_map_iff. exists (k, s).
    split; [|apply list_elem_of_In, Hin].
    unfold parse_pair. cbn [fst snd app]. destruct (s [k] (JS.get data k)); reflexivity.
  - exact Hv.
  - exact Hk.
  - apply lookup_empty.
  - exact Hm.
Qed.

(** An [undefined] property is not among the values handed to the ORM. *)
Lemma defined_undefined (o : JS.object) (k : string) :
  JS.get o k = JS.Undefined → defined o !! k = None.
Proof.
  unfold JS.get, defined. intros Hg. apply map_lookup_filter_None.
  destruct (o !! k) as [v|] eqn:Hk; [right|left; reflexivity].
  intros x Hx. cbn in Hg. subst v. inversion Hx; subst x. cbn. discriminate.
Qed.

Lemma partial_elem (sh : shape) (k : string) (s : field) :
  (k, s) ∈ sh → (k, optional s) ∈ partial sh.
Proof.
  intros Hin. unfold partial. apply list_elem_of_In, in_map_iff.
  exists (k, s). split; [reflexivity|apply list_elem_of_In, Hin].
Qed.

Lemma optional_blank (s : field) : blank_is_absent s → blank_is_absent (optional s).
Proof. intros Hs p. apply Hs. Qed.

(** The empty string under a field that takes it as absent: nothing is
    reported under the field, and a successful parse holds [undefined]
    there. *)
Lemma blank_field_in_object (sh : shape) (data : JS.object) (k : string) (s : field) :
  Forall (fun kf => lawful kf.2) sh → NoDup (map fst sh) →
  (k, s) ∈ sh → k ≠ "__proto__" → blank_is_absent s →
  JS.get data k = JS.Str EmptyString →
  field_messages (object sh) data k = None ∧
  ∀ out, safeParse (object sh) data = Success out →
         JS.get out k = JS.Undefined ∧ defined out !! k = None.
Proof.
  intros Hl Hnd Hin Hk Hb Hget. split.
  - rewrite (object_field_messages sh data k Hl), (shape_messages_in sh data k s Hnd Hin).
    unfold own_messages. rewrite Hget, Hb. reflexivity.
  - intros out Hp.
    assert (Hout : JS.get out k = JS.Undefined).
    { apply (object_get sh data out k s JS.Undefined Hnd Hin Hk).
      - rewrite Hget, Hb. reflexivity.
      - unfold safeParse in Hp.
        destruct (object sh [] data) as [[x|x|] errs]; cbn; inversion Hp; reflexivity. }
    split; [exact Hout|apply defined_undefined, Hout].
Qed.

Lemma shape_field_unique (sh : shape) (k : string) (s s' : field) :
  NoDup (map fst sh) → (k, s) ∈ sh → (k, s') ∈ sh → s = s'.
Proof.
  induction sh as [|[k0 s0] sh IH]; intros Hnd Hin Hin'; [inversion Hin|].
  cbn [map fst] in Hnd. apply NoDup_cons in Hnd as [Hk0 Hnd].
  assert (Hout : ∀ x, (k0, x) ∈ sh → False).
  { intros x Hx. apply Hk0. apply list_elem_of_In, in_map_iff.
    exists (k0, x). split; [reflexivity|apply list_elem_of_In, Hx]. }
  apply elem_of_cons in Hin as [Heq|Hin]; apply elem_of_cons in Hin' as [Heq'|Hin'].
  - congruence.
  - inversion Heq; subst k0 s0. destruct (Hout _ Hin').
  - inversion Heq'; subst k0 s0. destruct (Hout _ Hin).
  - apply IH; assumption.
Qed.

(** The empty string under a field that takes it as absent does not
    stand in the way of the form: the form is accepted as soon as its
    other fields are valid. *)
Lemma blank_field_accepted (sh : shape) (data : JS.object) (k : string) (s : field) :
  NoDup (map fst sh) → (k, s) ∈ sh → blank_is_absent s →
  JS.get data k = JS.Str EmptyString →
  others_valid sh data k →
  ∃ out, safeParse (object sh) data = Success out.
Proof.
  intros Hnd Hin Hb Hget Hothers.
  assert (Hv : isValid (object sh [] data).1 = true).
  { unfold object. cbn [fst]. rewrite merge_valid. cbn [negb andb].
    apply forallb_forall. intros x Hx.
    apply in_map_iff in Hx as ([k' s'] & <- & Hx). apply list_elem_of_In in Hx.
    unfold parse_pair. cbn [fst snd app].
    destruct (decide (k' = k)) as [->|Hne].
    - rewrite (shape_field_unique sh k s' s Hnd Hx Hin), Hget, Hb. reflexivity.
    - apply (Hothers k' s' Hx Hne). }
  unfold safeParse. destruct (object sh [] data) as [[out|out|] errs];
    try discriminate Hv. exists out. reflexivity.
Qed.

Section WithLibrary.
Context `{F : Formats} `{C : Coercion}.

(** Each listed name is a field of its shape that takes the empty string
    as absent. *)
Lemma optional_strings_blank (sh : shape) (names : list string) (k : string) :
  (sh, names) ∈ optional_strings → k ∈ names →
  Forall (fun kf => lawful kf.2) sh ∧ NoDup (map fst sh) ∧ k ≠ "__proto__" ∧
  ∃ s, (k, s) ∈ sh ∧ blank_is_absent s.
Proof.
  unfold optional_strings. intros Hsh Hk.
  repeat (apply elem_of_cons in Hsh as [Hsh|Hsh]); try (inversion Hsh; fail);
    inversion Hsh; subst sh names; clear Hsh;
    (split; [first [apply contactShape_lawful | apply dealShape_lawful
                   | apply organizationShape_lawful]|]);
    (split; [first [apply contactShape_keys | apply dealShape_keys
                   | apply organizationShape_keys]|]);
    repeat (apply elem_of_cons in Hk as [->|Hk]); try (inversion Hk; fail);
    (split; [discriminate|]);
    eexists; (split; [find_field|blank_field]).
Qed.

End WithLibrary.

Section Stored.
Context `{F : Formats}.
Import Errors Actions.

Lemma contact_strings_blank (k : string) :
  k ∈ contact_optional_strings →
  k ≠ "__proto__" ∧ k ≠ "type" ∧ ∃ s, (k, s) ∈ contactShape ∧ blank_is_absent s.
Proof.
  unfold contact_optional_strings. intros Hk.
  repeat (apply elem_of_cons in Hk as [->|Hk]); try (inversion Hk; fail);
    (split; [discriminate|]); (split; [discriminate|]);
    eexists; (split; [find_field|blank_field]).
Qed.

(** The values validated from a form with an empty optional field have
    no entry for it. *)
Lemma contact_blank_dropped (sh : shape) (formData : FormData) (k : string)
    (data : JS.object) :
  sh = contactShape ∨ sh = partial contactShape →
  k ∈ contact_optional_strings →
  JS.get (JS.fromEntries formData) k = JS.Str EmptyString →
  safeParse (object sh) (JS.fromEntries formData) = Success data →
  defined data !! k = None.
Proof.
  intros Hsh Hk Hget Hp.
  destruct (contact_strings_blank k Hk) as (Hproto & _ & s & Hin & Hb).
  destruct Hsh as [-> | ->].
  - apply (blank_field_in_object contactShape _ k s contactShape_lawful
             contactShape_keys Hin Hproto Hb Hget), Hp.
  - assert (Hnd : NoDup (map fst (partial contactShape))).
    { rewrite partial_keys. apply contactShape_keys. }
    apply (blank_field_in_object (partial contactShape) _ k (optional s)
             (partial_lawful _ contactShape_lawful) Hnd (partial_elem _ _ _ Hin)
             Hproto (optional_blank s Hb) Hget), Hp.
Qed.

(** The row a create stores has no value in the column of an optional
    field that was submitted empty. *)
Lemma create_blank_not_stored (user : User) prev (formData : FormData) (w w' : World.t)
    (k : string) (row : Contact) (msg : option string) :
  session w = Some user →
  k ∈ contact_optional_strings →
  JS.get (JS.fromEntries formData) k = JS.Str EmptyString →
  createContact prev formData w = (Return (Succeeded (Some row) msg), w') →
  columns row !! k = None ∧ row ∈ contacts w'.
Proof.
  intros Hs Hk Hget. unfold createContact, try_catch, bind, Handler.getUser.
  rewrite Hs.
  destruct (safeParse contactSchema (JS.fromEntries formData)) as [data|errs] eqn:Hp;
    [|discriminate].
  unfold db_insert.
  destruct (key_taken _ (contacts w)); [cbn; destruct (JS.includes _ _); discriminate|].
  destruct (refused w _) as [fault|].
  { cbn. destruct (JS.includes fault _); [discriminate|].
    destruct (JS.includes fault _); discriminate. }
  unfold revalidatePath, ret. cbn [head].
  intros Heq. inversion Heq; subst row msg w'; clear Heq.
  cbn [columns contacts emit next_seed with_contacts]. split.
  - apply lookup_union_None. split.
    + apply (contact_blank_dropped contactShape formData k data); auto.
    + destruct (contact_strings_blank k Hk) as (_ & Htype & _).
      apply lookup_singleton_ne. congruence.
  - apply elem_of_app. right. apply list_elem_of_here.
Qed.

(** The row an update returns keeps, in the column of an optional field
    that was submitted empty, the value it had. *)
Lemma update_blank_not_stored (user : User) id prev (formData : FormData)
    (w w' : World.t) (k : string) (row : Contact) (msg : option string) :
  session w = Some user →
  k ∈ contact_optional_strings →
  JS.get (JS.fromEntries formData) k = JS.Str EmptyString →
  updateContact id prev formData w = (Return (Succeeded (Some row) msg), w') →
  ∃ old, old ∈ contacts w ∧ owned_by id (user_id user) old = true ∧
         columns row !! k = columns old !! k.
Proof.
  intros Hs Hk Hget. unfold updateContact, try_catch, bind, Handler.getUser.
  rewrite Hs.
  destruct (safeParse contactUpdateSchema (JS.fromEntries formData)) as [data|errs] eqn:Hp;
    [|discriminate].
  assert (Hdrop : defined data !! k = None).
  { apply (contact_blank_dropped (partial contactShape) formData k data); auto. }
  unfold db_update.
  set (upd := fun r => if owned_by id (user_id user) r
                       then apply_set data (clock w) r else r).
  destruct (List.filter (owned_by id (user_id user)) (map upd (contacts w)))
    as [|first rest] eqn:Hrows; cbn [head]; [discriminate|].
  destruct (refused w _) as [fault|].
  { cbn. destruct (JS.includes fault _); [discriminate|].
    destruct (JS.includes fault _); discriminate. }
  unfold revalidatePath, ret. intros Heq. inversion Heq; subst row msg w'; clear Heq.
  assert (Hin : In first (List.filter (owned_by id (user_id user)) (map upd (contacts w)))).
  { rewrite Hrows. left. reflexivity. }
  apply filter_In in Hin as [Hin Howned].
  apply in_map_iff in Hin as (old & Hupd & Hold).
  exists old. split; [apply list_elem_of_In, Hold|].
  subst first. unfold upd in *.
  destruct (owned_by id (user_id user) old) eqn:Ho.
  - split; [reflexivity|]. cbn [apply_set columns].
    rewrite lookup_union_r by exact Hdrop. reflexivity.
  - rewrite Ho in Howned. discriminate.
Qed.

End Stored.

(** C10: for each optional text field of the contact, deal and
    organization schemas (phone, title, organizationId, notes,
    linkedinUrl, twitterUrl, description and the fields declared the same
    way), in the create and in the update variant, the empty string is
    accepted, whatever the format tests say of the empty string: the
    field parses it to [undefined]; in a form, nothing is reported under
    the field, the form is accepted as soon as its other fields are
    valid, and an accepted form holds [undefined] under the field, so
    that the values handed to the data layer have no entry for it.  The
    row stored by a contact create has no value in that column, and a
    contact update leaves the column as it was. *)
Theorem empty_optional_field_is_absent `{F : Formats} `{C : Coercion} :
  (∀ (sh : shape) (names : list string) (k : string),
     (sh, names) ∈ optional_strings → k ∈ names →
     ∃ s, (k, s) ∈ sh ∧
          safeParse s (JS.Str EmptyString) = Success JS.Undefined ∧
          safeParse (optional s) (JS.Str EmptyString) = Success JS.Undefined) ∧
  (∀ (sh : shape) (names : list string) (k : string) (data : JS.object),
     (sh, names) ∈ optional_strings → k ∈ names →
     JS.get data k = JS.Str EmptyString →
     (field_messages (object sh) data k = None ∧
      (others_valid sh data k → ∃ out, safeParse (object sh) data = Success out) ∧
      ∀ out, safeParse (object sh) data = Success out →
             JS.get out k = JS.Undefined ∧ defined out !! k = None) ∧
     (field_messages (object (partial sh)) data k = None ∧
      (others_valid (partial sh) data k →
       ∃ out, safeParse (object (partial sh)) data = Success out) ∧
      ∀ out, safeParse (object (partial sh)) data = Success out →
             JS.get out k = JS.Undefined ∧ defined out !! k = None)) ∧
  (∀ (user : User) prev (formData : Actions.FormData) (w w' : World.t) (k : string)
     (row : Contact) (msg : option string),
     session w = Some user → k ∈ contact_optional_strings →
     JS.get (JS.fromEntries formData) k = JS.Str EmptyString →
     Actions.createContact prev formData w
       = (Return (Errors.Succeeded (Some row) msg), w') →
     columns row !! k = None ∧ row ∈ contacts w') ∧
  (∀ (user : User) id prev (formData : Actions.FormData) (w w' : World.t) (k : string)
     (row : Contact) (msg : option string),
     session w = Some user → k ∈ contact_optional_strings →
     JS.get (JS.fromEntries formData) k = JS.Str EmptyString →
     Actions.updateContact id prev formData w
       = (Return (Errors.Succeeded (Some row) msg), w') →
     ∃ old, old ∈ contacts w ∧ owned_by id (user_id user) old = true ∧
            columns row !! k = columns old !! k).
Proof.
  split; [|split; [|split]].
  - intros sh names k Hsh Hk.
    destruct (optional_strings_blank sh names k Hsh Hk) as (_ & _ & _ & s & Hin & Hb).
    exists s. split; [exact Hin|].
    unfold safeParse, optional. rewrite (Hb []). split; reflexivity.
  - intros sh names k data Hsh Hk Hget.
    destruct (optional_strings_blank sh names k Hsh Hk)
      as (Hl & Hnd & Hproto & s & Hin & Hb).
    assert (Hndp : NoDup (map fst (partial sh))).
    { rewrite partial_keys. exact Hnd. }
    split.
    + destruct (blank_field_in_object sh data k s Hl Hnd Hin Hproto Hb Hget)
        as [Hnone Hout].
      split; [exact Hnone|]. split; [|exact Hout].
      apply (blank_field_accepted sh data k s Hnd Hin Hb Hget).
    + destruct (blank_field_in_object (partial sh) data k (optional s)
                  (partial_lawful _ Hl) Hndp (partial_elem _ _ _ Hin) Hproto
                  (optional_blank s Hb) Hget) as [Hnone Hout].
      split; [exact Hnone|]. split; [|exact Hout].
      apply (blank_field_accepted (partial sh) data k (optional s) Hndp
               (partial_elem _ _ _ Hin) (optional_blank s Hb) Hget).
  - intros user prev formData w w' k row msg. apply create_blank_not_stored.
  - intros user id prev formData w w' k row msg. apply update_blank_not_stored.
Qed.

(** The instance of C10 for a contact form with an empty phone field:
    the form is accepted, and the create stores a row without a phone. *)
Lemma empty_optional_field_witness :
  let formData := Sample.form
    [("firstName", "John"); ("lastName", "Doe"); ("email", "john@example.com");
     ("phone", EmptyString)] in
  let data := JS.fromEntries formData in
  let w := Sample.world (Some Sample.bob) [] in
  JS.get data "phone" = JS.Str EmptyString ∧
  safeParse (phoneSchema (F := stock)) (JS.Str EmptyString) = Success JS.Undefined ∧
  safeParse (contactSchema (F := stock)) data
    = Success (<[ "type" := JS.Str "lead" ]>
                 (<[ "phone" := JS.Undefined ]>
                    (<[ "email" := JS.Str "john@example.com" ]>
                       (<[ "lastName" := JS.Str "Doe" ]>
                          (<[ "firstName" := JS.Str "John" ]> ∅))))) ∧
  field_messages (contactSchema (F := stock)) data "phone" = None ∧
  (∃ out, safeParse (contactSchema (F := stock)) data = Success out ∧
          JS.get out "phone" = JS.Undefined ∧ defined out !! "phone" = None) ∧
  (∃ out, safeParse (contactUpdateSchema (F := stock)) data = Success out ∧
          JS.get out "phone" = JS.Undefined ∧ defined out !! "phone" = None) ∧
  ∃ row w',
    Actions.createContact (F := stock) None formData w
      = (Return (Errors.Succeeded (Some row) (Some "Contact created successfully")), w') ∧
    columns row !! "phone" = None ∧ contacts w' = [row].
Proof.
  cbv zeta.
  set (formData := Sample.form
    [("firstName", "John"); ("lastName", "Doe"); ("email", "john@example.com");
     ("phone", EmptyString)]).
  set (data := JS.fromEntries formData).
  set (values := <[ "type" := JS.Str "lead" ]>
                   (<[ "phone" := JS.Undefined ]>
                      (<[ "email" := JS.Str "john@example.com" ]>
                         (<[ "lastName" := JS.Str "Doe" ]>
                            (<[ "firstName" := JS.Str "John" ]> (∅ : JS.object)))))).
  assert (Hget : JS.get data "phone" = JS.Str EmptyString) by (vm_compute; reflexivity).
  assert (Hp : safeParse (contactSchema (F := stock)) data = Success values)
    by (vm_compute; reflexivity).
  pose proof (empty_optional_field_is_absent (F := stock) (C := Sample.digits_only))
    as (Hfield & Hform & Hcreate & _).
  destruct (Hform contactShape contact_optional_strings "phone" data
              ltac:(apply list_elem_of_here) ltac:(apply list_elem_of_here) Hget)
    as [(Hnone & Haccepted & Hout) (_ & Haccepted' & Hout')].
  split; [exact Hget|]. split; [vm_compute; reflexivity|]. split; [exact Hp|].
  split; [exact Hnone|]. split; [|split].
  - destruct Haccepted as [out Hout0].
    + intros k' s' Hin Hne. unfold contactShape in Hin.
      repeat (apply elem_of_cons in Hin as [Hin|Hin]); try (inversion Hin; fail);
        inversion Hin; subst k' s'; try congruence; vm_compute; reflexivity.
    + exists out. split; [exact Hout0|exact (Hout out Hout0)].
  - destruct Haccepted' as [out Hout0].
    + intros k' s' Hin Hne. unfold contactShape, partial in Hin. cbn [map fst snd] in Hin.
      repeat (apply elem_of_cons in Hin as [Hin|Hin]); try (inversion Hin; fail);
        inversion Hin; subst k' s'; try congruence; vm_compute; reflexivity.
    + exists out. split; [exact Hout0|exact (Hout' out Hout0)].
  - set (row := {| id := "contact-2"; userId := "user-b";
                   columns := defined values ∪ {[ "type" := JS.Str "lead" ]};
                   createdAt := 1000; updatedAt := 1000 |}).
    assert (Hrun : Actions.createContact (F := stock) None formData
                     (Sample.world (Some Sample.bob) [])
                   = (Return (Errors.Succeeded (Some row)
                                (Some "Contact created successfully")),
                      emit (RevalidatePath "/contacts")
                        (emit (Sql (InsertInto values "user-b"))
                           (next_seed (with_contacts [row]
                                         (Sample.world (Some Sample.bob) [])))))).
    { unfold Actions.createContact, try_catch, bind, Handler.getUser.
      fold data. rewrite Hp. reflexivity. }
    eexists _, _. split; [exact Hrun|]. split; [|reflexivity].
    apply (Hcreate Sample.bob None formData (Sample.world (Some Sample.bob) []) _
             "phone" row _ eq_refl ltac:(apply list_elem_of_here) Hget Hrun).
Defined.

End BlankFields.

(* ===================================================================== *)
(** ** The matcher decides the language *)
(* ===================================================================== *)

Section RegexFacts.
Import Lang.
#[local] Arguments String.append !_ _ / : simpl nomatch.

Lemma append_nil_right (s : string) : (s ++ EmptyString)%string = s.
Proof. induction s as [|c s IH]; simpl; [reflexivity|f_equal; exact IH]. Qed.

Lemma append_assoc_string (a b c : string) :
  ((a ++ b) ++ c)%string = (a ++ (b ++ c))%string.
Proof. induction a as [|x a IH]; simpl; [reflexivity|f_equal; exact IH]. Qed.

Lemma append_empty (a b : string) :
  (a ++ b)%string = EmptyString -> a = EmptyString /\ b = EmptyString.
Proof. destruct a; cbn; [auto|discriminate]. Qed.

Lemma append_length (a b : string) :
  String.length (a ++ b) = (String.length a + String.length b)%nat.
Proof. induction a as [|x a IH]; simpl; [reflexivity|f_equal; exact IH]. Qed.

Lemma chars_append (a b : string) : chars (a ++ b) = chars a ++ chars b.
Proof. unfold chars. induction a as [|x a IH]; simpl; [reflexivity|f_equal; exact IH]. Qed.

Lemma nullable_lang (r : Regex.t) :
  Regex.nullable r = true <-> lang r EmptyString.
Proof.
  split.
  - induction r as [| |p|r1 IH1 r2 IH2|r1 IH1 r2 IH2|r IH]; cbn; try discriminate.
    + intros _. constructor.
    + intros [H1 H2]%andb_true_iff.
      change EmptyString with (EmptyString ++ EmptyString)%string.
      constructor; auto.
    + intros [H1|H2]%orb_true_iff; [apply lang_alt_l|apply lang_alt_r]; auto.
    + intros _. constructor.
  - intros Hl. remember EmptyString as s eqn:Hs.
    induction Hl as [|p c Hp|r1 r2 s1 s2 H1 IH1 H2 IH2|r1 r2 s H1 IH1|r1 r2 s H2 IH2
                    |r|r s1 s2 H1 IH1 H2 IH2]; cbn; try reflexivity.
    + discriminate.
    + apply append_empty in Hs as [-> ->].
      rewrite IH1, IH2 by reflexivity. reflexivity.
    + rewrite IH1 by exact Hs. reflexivity.
    + rewrite IH2 by exact Hs. apply orb_true_r.
Qed.

Lemma deriv_sound (r : Regex.t) (c : ascii) (s : string) :
  lang (Regex.deriv c r) s -> lang r (String c s).
Proof.
  revert s. induction r as [| |p|r1 IH1 r2 IH2|r1 IH1 r2 IH2|r IH]; intros s; cbn.
  - intros Hl. inversion Hl.
  - intros Hl. inversion Hl.
  - destruct (p c) eqn:Hp; intros Hl; inversion Hl; subst. constructor. exact Hp.
  - destruct (Regex.nullable r1) eqn:Hn.
    + intros Hl. inversion Hl as [| | |? ? ? Hleft|? ? ? Hright| |]; subst.
      * inversion Hleft as [| |? ? s1 s2 Ha Hb| | | |]; subst.
        change (String c (s1 ++ s2)) with (String c s1 ++ s2)%string.
        constructor; auto.
      * change (String c s) with (EmptyString ++ String c s)%string.
        constructor; [apply nullable_lang, Hn|auto].
    + intros Hl. inversion Hl as [| |? ? s1 s2 Ha Hb| | | |]; subst.
      change (String c (s1 ++ s2)) with (String c s1 ++ s2)%string.
      constructor; auto.
  - intros Hl. inversion Hl; subst; [apply lang_alt_l|apply lang_alt_r]; auto.
  - intros Hl. inversion Hl as [| |? ? s1 s2 Ha Hb| | | |]; subst.
    change (String c (s1 ++ s2)) with (String c s1 ++ s2)%string.
    constructor; auto.
Qed.

Lemma deriv_complete (r : Regex.t) (c : ascii) (s : string) :
  lang r (String c s) -> lang (Regex.deriv c r) s.
Proof.
  intros Hl. remember (String c s) as t eqn:Ht. revert s Ht.
  induction Hl as [|p x Hp|r1 r2 s1 s2 H1 IH1 H2 IH2|r1 r2 t H1 IH1|r1 r2 t H2 IH2
                  |r|r s1 s2 H1 IH1 H2 IH2]; intros s Ht; cbn.
  - discriminate.
  - inversion Ht; subst. rewrite Hp. constructor.
  - destruct s1 as [|y s1'].
    + cbn in Ht. subst s2.
      assert (Hn : Regex.nullable r1 = true) by (apply nullable_lang, H1).
      rewrite Hn. apply lang_alt_r. apply IH2. reflexivity.
    + cbn in Ht. inversion Ht; subst y s.
      assert (Hd : lang (Regex.Seq (Regex.deriv c r1) r2) (s1' ++ s2)).
      { constructor; [apply IH1; reflexivity|exact H2]. }
      destruct (Regex.nullable r1); [apply lang_alt_l|]; exact Hd.
  - apply lang_alt_l. apply IH1, Ht.
  - apply lang_alt_r. apply IH2, Ht.
  - discriminate.
  - destruct s1 as [|y s1'].
    + cbn in Ht. apply IH2, Ht.
    + cbn in Ht. inversion Ht; subst y s.
      constructor; [apply IH1; reflexivity|exact H2].
Qed.

(** The derivative matcher accepts exactly the language of the
    expression. *)
Lemma matches_lang (r : Regex.t) (s : string) :
  Regex.matches r s = true <-> lang r s.
Proof.
  revert r. induction s as [|c s IH]; intros r; cbn.
  - apply nullable_lang.
  - rewrite IH. split; [apply deriv_sound|apply deriv_complete].
Qed.

Lemma lang_star_any (s : string) : lang (Regex.Star Regex.any) s.
Proof.
  induction s as [|c s IH]; [constructor|].
  change (String c s) with (String c EmptyString ++ s)%string.
  constructor; [constructor; reflexivity|exact IH].
Qed.

Lemma in_chars_split (c : ascii) (s : string) :
  In c (chars s) -> exists a b, s = (a ++ String c b)%string.
Proof.
  unfold chars. induction s as [|x s IH]; cbn; [intros []|].
  intros [->|Hin].
  - exists EmptyString, s. reflexivity.
  - destruct (IH Hin) as (a & b & ->). exists (String x a), b. reflexivity.
Qed.

(** An unanchored one-class expression finds a character of the class. *)
Lemma test_class (p : ascii -> bool) (s : string) :
  Regex.test (Regex.Class p) s = some_char p s.
Proof.
  apply eq_true_iff_eq. unfold Regex.test, some_char.
  rewrite matches_lang, existsb_exists. split.
  - intros Hl.
    inversion Hl as [| |? ? s1 s23 _ H23| | | |]; subst.
    inversion H23 as [| |? ? s2 s3 H2 _| | | |]; subst.
    inversion H2; subst.
    exists c. split; [|assumption].
    rewrite chars_append. apply in_or_app. right. left. reflexivity.
  - intros (c & Hin & Hp). destruct (in_chars_split c s Hin) as (a & b & ->).
    constructor; [apply lang_star_any|].
    change (String c b) with (String c EmptyString ++ b)%string.
    constructor; [constructor; exact Hp|apply lang_star_any].
Qed.

Lemma lang_times_class (p : ascii -> bool) (n : nat) (s : string) :
  lang (Regex.times n (Regex.Class p)) s <->
  String.length s = n /\ all_chars p s = true.
Proof.
  revert s. induction n as [|n IH]; intros s; cbn.
  - split.
    + intros Hl. inversion Hl. split; reflexivity.
    + intros [Hlen _]. destruct s; [constructor|discriminate].
  - split.
    + intros Hl. inversion Hl as [| |? ? s1 s2 H1 H2| | | |]; subst.
      inversion H1; subst. apply IH in H2 as [Hlen Hall]. cbn.
      unfold all_chars, chars in *. cbn. rewrite Hlen, Hall.
      split; [reflexivity|]. rewrite andb_true_r. assumption.
    + intros [Hlen Hall]. destruct s as [|c s]; [discriminate|].
      unfold all_chars, chars in Hall. cbn in Hall, Hlen.
      apply andb_true_iff in Hall as [Hc Hall].
      change (String c s) with (String c EmptyString ++ s)%string.
      constructor; [constructor; exact Hc|].
      apply IH. split; [congruence|exact Hall].
Qed.

Lemma lang_upto_class (p : ascii -> bool) (n : nat) (s : string) :
  lang (Regex.upto n (Regex.Class p)) s <->
  (String.length s <= n)%nat /\ all_chars p s = true.
Proof.
  revert s. induction n as [|n IH]; intros s; cbn.
  - split.
    + intros Hl. inversion Hl. split; [cbn; lia|reflexivity].
    + intros [Hlen _]. destruct s; [constructor|cbn in Hlen; lia].
  - unfold Regex.opt. split.
    + intros Hl. inversion Hl as [| | |? ? ? Hleft|? ? ? Hright| |]; subst.
      * inversion Hleft. split; [cbn; lia|reflexivity].
      * inversion Hright as [| |? ? s1 s2 H1 H2| | | |]; subst.
        inversion H1; subst. apply IH in H2 as [Hlen Hall]. cbn.
        unfold all_chars, chars in *. cbn. rewrite Hall.
        split; [lia|]. rewrite andb_true_r. assumption.
    + intros [Hlen Hall]. destruct s as [|c s]; [apply lang_alt_l; constructor|].
      apply lang_alt_r.
      unfold all_chars, chars in Hall. cbn in Hall, Hlen.
      apply andb_true_iff in Hall as [Hc Hall].
      change (String c s) with (String c EmptyString ++ s)%string.
      constructor; [constructor; exact Hc|].
      apply IH. split; [lia|exact Hall].
Qed.

Lemma lang_consumes_in (r : Regex.t) (s : string) :
  lang r s -> forall c, In c (chars s) -> consumes r c = true.
Proof.
  induction 1 as [|p x Hp|r1 r2 s1 s2 H1 IH1 H2 IH2|r1 r2 s H1 IH1|r1 r2 s H2 IH2
                 |r|r s1 s2 H1 IH1 H2 IH2]; intros c Hin; cbn.
  - destruct Hin.
  - destruct Hin as [<-|[]]. exact Hp.
  - rewrite chars_append in Hin. apply in_app_or in Hin as [Hin|Hin].
    + rewrite (IH1 c Hin). reflexivity.
    + rewrite (IH2 c Hin). apply orb_true_r.
  - rewrite (IH1 c Hin). reflexivity.
  - rewrite (IH2 c Hin). apply orb_true_r.
  - destruct Hin.
  - rewrite chars_append in Hin.
    apply in_app_or in Hin as [Hin|Hin]; [exact (IH1 c Hin)|exact (IH2 c Hin)].
Qed.

(** A matched string is made of characters the expression can consume. *)
Lemma lang_consumes (r : Regex.t) (s : string) :
  lang r s -> all_chars (consumes r) s = true.
Proof.
  intros Hl. unfold all_chars. apply forallb_forall.
  intros c Hin. apply (lang_consumes_in r s Hl c Hin).
Qed.

End RegexFacts.

(* ===================================================================== *)
(** ** What the field schemas accept *)
(* ===================================================================== *)

Section FieldShapes.
Import Lang Shapes Zod Spec Schemas.
#[local] Arguments String.append !_ _ / : simpl nomatch.

Lemma is_char_eq (a c : ascii) : JS.is_char a c = true <-> c = a.
Proof. unfold JS.is_char. rewrite Ascii.eqb_eq. split; congruence. Qed.

Lemma all_chars_append (p : ascii -> bool) (a b : string) :
  all_chars p (a ++ b) = all_chars p a && all_chars p b.
Proof. unfold all_chars. rewrite chars_append. apply forallb_app. Qed.

(** The phone pattern matches the phone numbers. *)
Lemma phone_regex_shape (s : string) :
  Regex.matches phone_regex s = true <-> phone_number s.
Proof.
  rewrite matches_lang. unfold phone_regex, Regex.between, Regex.opt, phone_number. split.
  - intros Hl.
    inversion Hl as [| |? ? s0 s123 H0 H123| | | |]; subst.
    inversion H123 as [| |? ? s1 s23 H1 H23| | | |]; subst.
    inversion H23 as [| |? ? s2 s3 H2 H3| | | |]; subst.
    inversion H1 as [|? d Hd| | | | |]; subst.
    apply (lang_times_class JS.is_digit 1) in H2 as [Hlen2 Hall2].
    apply (lang_upto_class JS.is_digit 13) in H3 as [Hlen3 Hall3].
    exists d, (s2 ++ s3)%string.
    repeat split.
    + inversion H0 as [| | |? ? ? Hleft|? ? ? Hright| |]; subst.
      * inversion Hleft. left. reflexivity.
      * inversion Hright as [|? c Hc| | | | |]; subst.
        apply is_char_eq in Hc. subst c. right. reflexivity.
    + exact Hd.
    + rewrite all_chars_append, Hall2, Hall3. reflexivity.
    + rewrite append_length. lia.
    + rewrite append_length. lia.
  - intros (d & ds & Hs & Hd & Hall & Hlo & Hhi).
    destruct ds as [|x rest]; [cbn in Hlo; lia|].
    unfold all_chars, chars in Hall. cbn in Hall, Hhi.
    apply andb_true_iff in Hall as [Hx Hrest].
    assert (Htail : lang
              (Regex.Seq (Regex.Class (JS.in_range 49 57))
                 (Regex.Seq (Regex.times 1 digit) (Regex.upto 13 digit)))
              (String d (String x rest))).
    { change (String d (String x rest))
        with (String d EmptyString ++ (String x EmptyString ++ rest))%string.
      constructor; [constructor; exact Hd|].
      constructor.
      - apply (lang_times_class JS.is_digit 1). split; [reflexivity|].
        unfold all_chars, chars. cbn. rewrite Hx. reflexivity.
      - apply (lang_upto_class JS.is_digit 13). split; [lia|exact Hrest]. }
    destruct Hs as [-> | ->].
    + change (String d (String x rest))
        with (EmptyString ++ String d (String x rest))%string.
      constructor; [apply lang_alt_l; constructor|exact Htail].
    + change (String "+" (String d (String x rest)))
        with (String "+" EmptyString ++ String d (String x rest))%string.
      constructor; [|exact Htail].
      apply lang_alt_r. constructor. reflexivity.
Qed.

Lemma phone_number_nonempty (s : string) : phone_number s -> s <> EmptyString.
Proof. intros (d & ds & [-> | ->] & _); discriminate. Qed.

Lemma nonempty_eqb (s : string) : s <> EmptyString -> String.eqb s EmptyString = false.
Proof. intros Hs. apply String.eqb_neq. exact Hs. Qed.

(** X7.  The phone field: an absent value and the empty string are taken
    as absent; a string is kept exactly when it is a phone number (an
    optional plus sign, a digit from 1 to 9, then one to fourteen
    digits); any other string is refused with "Invalid phone number
    format", and a file with "Invalid input". *)
Theorem phone_field_takes_phone_numbers `{F : Formats} (p : list string) (s : string) :
  phoneSchema p JS.Undefined = (OK JS.Undefined, []) /\
  phoneSchema p (JS.Str EmptyString) = (OK JS.Undefined, []) /\
  (phone_number s -> phoneSchema p (JS.Str s) = (OK (JS.Str s), [])) /\
  (s <> EmptyString -> ~ phone_number s ->
   phoneSchema p (JS.Str s)
   = (INVALID, [Issue invalid_string p "Invalid phone number format"])) /\
  (forall name, phoneSchema p (JS.File name)
                = (INVALID, [Issue invalid_union p "Invalid input"])).
Proof.
  split; [reflexivity|]. split; [reflexivity|]. split; [|split].
  - intros Hp. pose proof (phone_number_nonempty s Hp) as Hne.
    apply phone_regex_shape in Hp.
    unfold phoneSchema, transform, or_, optional, str.
    cbn [run_checks run_check fst snd]. rewrite Hp. cbn.
    unfold or_undefined, JS.or_. cbn. rewrite (nonempty_eqb s Hne). reflexivity.
  - intros Hne Hnot.
    assert (Hm : Regex.matches phone_regex s = false).
    { destruct (Regex.matches phone_regex s) eqn:Hm; [|reflexivity].
      exfalso. apply Hnot, phone_regex_shape, Hm. }
    unfold phoneSchema, transform, or_, optional, str, literal.
    cbn [run_checks run_check fst snd]. rewrite Hm. cbn.
    rewrite (nonempty_eqb s Hne). reflexivity.
  - intros name. reflexivity.
Qed.

(** The instance of X7 for an international number. *)
Lemma phone_field_witness :
  phone_number "+1234567890" /\
  phoneSchema (F := stock) ["phone"] (JS.Str "+1234567890")
  = (OK (JS.Str "+1234567890"), []).
Proof.
  assert (Hp : phone_number "+1234567890").
  { exists "1"%char, "234567890". repeat split; try reflexivity.
    - right. reflexivity.
    - cbn. lia.
    - cbn. lia. }
  split; [exact Hp|].
  apply (proj1 (proj2 (proj2 (phone_field_takes_phone_numbers (F := stock)
                                ["phone"] "+1234567890"))) Hp).
Defined.

Lemma length_ltb (s : string) (n : nat) :
  (JS.length s <? Z.of_nat n)%Z = (String.length s <? n)%nat.
Proof.
  unfold JS.length. destruct (Nat.ltb_spec (String.length s) n).
  - apply Z.ltb_lt. lia.
  - apply Z.ltb_ge. lia.
Qed.

(** X8.  The password rules: the messages reported for a string are
    those of the rules it breaks, all of them and in order (eight
    characters, an upper-case letter, a lower-case letter, a digit), and
    the string is accepted unchanged exactly when it breaks none. *)
Theorem password_rules `{F : Formats} (p : list string) (s : string) :
  map message (passwordField p (JS.Str s)).2 = password_messages s /\
  (passwordField p (JS.Str s) = (OK (JS.Str s), []) <->
   (8 <= String.length s)%nat /\
   some_char JS.is_upper s = true /\
   some_char JS.is_lower s = true /\
   some_char JS.is_digit s = true).
Proof.
  unfold passwordField, str, password_messages.
  cbn [run_checks run_check fst snd].
  unfold has_upper, has_lower, has_digit, digit. rewrite !test_class.
  change 8%Z with (Z.of_nat 8). rewrite length_ltb.
  destruct (Nat.ltb_spec (String.length s) 8) as [Hlt|Hge];
    destruct (some_char JS.is_upper s); destruct (some_char JS.is_lower s);
    destruct (some_char JS.is_digit s); cbn; (split; [reflexivity|]);
    split; try discriminate; try (intros (? & ? & ? & ?); (lia || discriminate));
    intros _; repeat split; (lia || reflexivity).
Qed.

End FieldShapes.

(* ===================================================================== *)
(** ** Trimming and lower-casing *)
(* ===================================================================== *)

Section Normalisation.
Import Lang Shapes Zod Spec Schemas.
#[local] Arguments String.append !_ _ / : simpl nomatch.

Lemma lower_char_idem (c : ascii) : JS.lower_char (JS.lower_char c) = JS.lower_char c.
Proof. destruct c as [[] [] [] [] [] [] [] []]; reflexivity. Qed.

Lemma lower_char_space (c : ascii) : JS.is_space (JS.lower_char c) = JS.is_space c.
Proof. destruct c as [[] [] [] [] [] [] [] []]; reflexivity. Qed.

Lemma toLowerCase_idem (s : string) :
  JS.toLowerCase (JS.toLowerCase s) = JS.toLowerCase s.
Proof.
  unfold JS.toLowerCase. induction s as [|c s IH]; cbn; [reflexivity|].
  rewrite lower_char_idem, IH. reflexivity.
Qed.

Lemma trimStart_lower (s : string) :
  JS.trimStart (JS.toLowerCase s) = JS.toLowerCase (JS.trimStart s).
Proof.
  unfold JS.toLowerCase. induction s as [|c s IH]; cbn; [reflexivity|].
  rewrite lower_char_space. destruct (JS.is_space c); [exact IH|reflexivity].
Qed.

Lemma trimEnd_lower (s : string) :
  JS.trimEnd (JS.toLowerCase s) = JS.toLowerCase (JS.trimEnd s).
Proof.
  unfold JS.toLowerCase. induction s as [|c s IH]; cbn; [reflexivity|].
  rewrite IH, lower_char_space.
  destruct (JS.trimEnd s); cbn; [destruct (JS.is_space c)|]; reflexivity.
Qed.

Lemma trim_lower (s : string) : JS.trim (JS.toLowerCase s) = JS.toLowerCase (JS.trim s).
Proof. unfold JS.trim. rewrite trimStart_lower, trimEnd_lower. reflexivity. Qed.

Lemma trimEnd_cons (c : ascii) (s : string) :
  JS.trimEnd (String c s)
  = match JS.trimEnd s with
    | EmptyString => if JS.is_space c then EmptyString else String c EmptyString
    | String y t => String c (String y t)
    end.
Proof. reflexivity. Qed.

Lemma trimEnd_idem (s : string) : JS.trimEnd (JS.trimEnd s) = JS.trimEnd s.
Proof.
  induction s as [|c s IH]; [reflexivity|].
  rewrite trimEnd_cons.
  destruct (JS.trimEnd s) as [|y t] eqn:Ht.
  - destruct (JS.is_space c) eqn:Hc; [reflexivity|].
    rewrite trimEnd_cons. cbn. rewrite Hc. reflexivity.
  - rewrite trimEnd_cons, IH. reflexivity.
Qed.

Lemma trimStart_clean (s : string) : starts_clean (JS.trimStart s).
Proof.
  induction s as [|c s IH]; cbn; [exact I|].
  destruct (JS.is_space c) eqn:Hc; [exact IH|]. cbn. exact Hc.
Qed.

Lemma clean_trimStart (s : string) : starts_clean s -> JS.trimStart s = s.
Proof. destruct s as [|c s]; cbn; [reflexivity|]. intros ->. reflexivity. Qed.

Lemma trimEnd_clean (s : string) : starts_clean s -> starts_clean (JS.trimEnd s).
Proof.
  destruct s as [|c s]; cbn; [auto|]. intros Hc.
  destruct (JS.trimEnd s); [rewrite Hc|]; cbn; exact Hc.
Qed.

(** Trimming twice is trimming once. *)
Lemma trim_idem (s : string) : JS.trim (JS.trim s) = JS.trim s.
Proof.
  unfold JS.trim at 1.
  rewrite (clean_trimStart (JS.trim s)).
  - unfold JS.trim. apply trimEnd_idem.
  - unfold JS.trim. apply trimEnd_clean, trimStart_clean.
Qed.

Lemma trim_lower_normalised (s : string) : normalised (JS.trim (JS.toLowerCase s)).
Proof.
  split.
  - rewrite trim_lower, toLowerCase_idem. reflexivity.
  - apply trim_idem.
Qed.

(** A string of white space trims to nothing. *)
Lemma trimStart_blank (s : string) : blank s = true -> JS.trimStart s = EmptyString.
Proof.
  unfold blank, all_chars, chars. induction s as [|c s IH]; cbn; [reflexivity|].
  intros [Hc Hs]%andb_true_iff. rewrite Hc. apply IH, Hs.
Qed.

Lemma trim_blank (s : string) : blank s = true -> JS.trim s = EmptyString.
Proof. intros Hb. unfold JS.trim. rewrite (trimStart_blank s Hb). reflexivity. Qed.

(** A string without white space is its own trim. *)
Lemma trimEnd_no_space (s : string) :
  all_chars (fun c => negb (JS.is_space c)) s = true -> JS.trimEnd s = s.
Proof.
  unfold all_chars, chars. induction s as [|c s IH]; cbn; [reflexivity|].
  intros [Hc Hs]%andb_true_iff. rewrite (IH Hs).
  destruct s; [|reflexivity]. destruct (JS.is_space c); [discriminate|reflexivity].
Qed.

Lemma trim_no_space (s : string) :
  all_chars (fun c => negb (JS.is_space c)) s = true -> JS.trim s = s.
Proof.
  intros Hall. unfold JS.trim. rewrite clean_trimStart; [apply trimEnd_no_space, Hall|].
  destruct s as [|c s]; cbn; [exact I|].
  unfold all_chars, chars in Hall. cbn in Hall.
  apply andb_true_iff in Hall as [Hc _]. destruct (JS.is_space c); [discriminate|reflexivity].
Qed.

Lemma email_regex_no_space (c : ascii) :
  consumes email_regex c = true -> JS.is_space c = false.
Proof. destruct c as [[] [] [] [] [] [] [] []]; cbn; intros H; (reflexivity || discriminate H). Qed.

(** The stock e-mail pattern matches no string with white space in it. *)
Lemma zod_email_no_space (s : string) :
  zod_email s = true -> all_chars (fun c => negb (JS.is_space c)) s = true.
Proof.
  unfold zod_email. intros [_ Hm]%andb_true_iff.
  apply matches_lang in Hm. unfold all_chars. apply forallb_forall.
  intros c Hin. rewrite (email_regex_no_space c); [reflexivity|].
  apply (lang_consumes_in email_regex s Hm c Hin).
Qed.

(** What the e-mail field takes and what it hands on. *)
Lemma email_field_value `{F : Formats} (p : list string) (s : string) (v : JS.value) :
  (emailSchema p (JS.Str s)).1 = OK v ->
  v = JS.Str (JS.trim (JS.toLowerCase s)) /\ s <> EmptyString /\ email_ok s = true.
Proof.
  unfold emailSchema, str. cbn [run_checks run_check fst snd].
  destruct s as [|c s'] eqn:Hs.
  - cbn. destruct (email_ok EmptyString); cbn; discriminate.
  - rewrite <- Hs. rewrite (nonempty_length s) by (rewrite Hs; discriminate).
    destruct (email_ok s) eqn:He; cbn; [|discriminate].
    intros Hv. inversion Hv; subst v.
    split; [reflexivity|]. split; [rewrite Hs; discriminate|reflexivity].
Qed.

(** X9.  The e-mail field checks the string as typed and then
    normalises it: an accepted address is not empty and passes the
    e-mail test as typed, and the value handed on is its lower-cased,
    trimmed form, which is in normal form (lower-casing or trimming it
    again changes nothing). *)
Theorem email_field_normalises `{F : Formats} (p : list string) (s : string)
    (v : JS.value) :
  (emailSchema p (JS.Str s)).1 = OK v ->
  v = JS.Str (JS.trim (JS.toLowerCase s)) /\
  normalised (JS.trim (JS.toLowerCase s)) /\
  s <> EmptyString /\ email_ok s = true.
Proof.
  intros Hv. destruct (email_field_value p s v Hv) as (Hval & Hne & Hok).
  split; [exact Hval|]. split; [apply trim_lower_normalised|].
  split; [exact Hne|exact Hok].
Qed.

(** The instance of X9 for an address typed in capitals. *)
Lemma email_field_witness :
  (emailSchema (F := stock) ["email"] (JS.Str "John@Example.COM")).1
    = OK (JS.Str "john@example.com") /\
  normalised "john@example.com".
Proof.
  assert (Hv : (emailSchema (F := stock) ["email"] (JS.Str "John@Example.COM")).1
               = OK (JS.Str "john@example.com")) by (vm_compute; reflexivity).
  split; [exact Hv|].
  exact (proj1 (proj2 (email_field_normalises (F := stock) ["email"] "John@Example.COM"
                         (JS.Str "john@example.com") Hv))).
Defined.

(** X10.  With the library's stock e-mail pattern the trim of the
    e-mail field never removes anything: an address typed with white
    space around it (or anywhere in it) is refused with "Invalid email
    address", and an accepted address is handed on lower-cased and
    otherwise as typed. *)
Theorem email_with_spaces_is_refused (p : list string) (s : string) :
  (some_char JS.is_space s = true ->
   In "Invalid email address"
      (map message (emailSchema (F := stock) p (JS.Str s)).2)) /\
  (forall v, (emailSchema (F := stock) p (JS.Str s)).1 = OK v ->
             v = JS.Str (JS.toLowerCase s)).
Proof.
  split.
  - intros Hsp.
    assert (Hbad : zod_email s = false).
    { destruct (zod_email s) eqn:He; [|reflexivity].
      apply zod_email_no_space in He. unfold some_char in Hsp.
      apply existsb_exists in Hsp as (c & Hin & Hc).
      unfold all_chars in He. rewrite forallb_forall in He.
      specialize (He c Hin). rewrite Hc in He. discriminate. }
    unfold emailSchema, str. cbn [run_checks run_check fst snd email_ok stock].
    rewrite Hbad. case_match; cbn; auto.
  - intros v Hv.
    destruct (email_field_value (F := stock) p s v Hv) as (-> & _ & Hok).
    cbn [email_ok stock] in Hok. apply zod_email_no_space in Hok.
    rewrite trim_lower. rewrite (trim_no_space s Hok). reflexivity.
Qed.

(** The instance of X10 for an address typed with a leading space. *)
Lemma email_with_spaces_witness :
  some_char JS.is_space " john@example.com" = true /\
  In "Invalid email address"
     (map message (emailSchema (F := stock) ["email"] (JS.Str " john@example.com")).2).
Proof.
  split; [reflexivity|].
  apply (proj1 (email_with_spaces_is_refused ["email"] " john@example.com")).
  reflexivity.
Defined.

End Normalisation.

(* ===================================================================== *)
(** ** Faults and their classification *)
(* ===================================================================== *)

Section Faults.
Import Effects World Errors Handler.
#[local] Arguments String.append !_ _ / : simpl nomatch.

Lemma startsWith_prefix (s p : string) :
  JS.startsWith s p = true <-> exists b, s = (p ++ b)%string.
Proof.
  revert s. induction p as [|x p IH]; intros s.
  - split; [intros _; exists s; reflexivity|intros _; destruct s; reflexivity].
  - destruct s as [|y s]; cbn.
    + split; [discriminate|intros [b Hb]; discriminate].
    + rewrite andb_true_iff, Ascii.eqb_eq, IH. split.
      * intros [-> [b ->]]. exists b. reflexivity.
      * intros [b Hb]. inversion Hb; subst. split; [reflexivity|exists b; reflexivity].
Qed.

(** [includes] finds the marker wherever it stands. *)
Lemma includes_contains (s p : string) :
  JS.includes s p = true <-> contains s p.
Proof.
  unfold contains. induction s as [|y s IH].
  - cbn [JS.includes]. rewrite orb_false_r, startsWith_prefix. split.
    + intros [b Hb]. exists EmptyString, b. exact Hb.
    + intros (a & b & Hab). destruct a; [exists b; exact Hab|discriminate].
  - cbn [JS.includes]. rewrite orb_true_iff, startsWith_prefix, IH. split.
    + intros [[b Hb]|(a & b & Hab)].
      * exists EmptyString, b. exact Hb.
      * exists (String y a), b. cbn. rewrite Hab. reflexivity.
    + intros (a & b & Hab). destruct a as [|x a].
      * left. exists b. exact Hab.
      * right. cbn in Hab. inversion Hab; subst. exists a, b. reflexivity.
Qed.

(** A fault of the data layer is answered with one of the three fixed
    messages; the answer is told by the message of the fault, and neither
    the table nor the cached views are touched. *)
Lemma plain_fault_answer (fault : string) (w : World.t) :
  exists (r : ActionResult) (w' : World.t),
    handleActionError (Plain fault) w = (Return r, w') /\
    contacts w' = contacts w /\
    revalidations (trace w') = revalidations (trace w) /\
    (r = conflict \/ r = dangling \/ r = unexpected) /\
    (contains fault "unique constraint" -> r = conflict) /\
    (~ contains fault "unique constraint" ->
     contains fault "foreign key constraint" -> r = dangling).
Proof.
  unfold handleActionError.
  destruct (JS.includes fault "unique constraint") eqn:Hu;
    [|destruct (JS.includes fault "foreign key constraint") eqn:Hf];
    eexists _, _; (split; [reflexivity|]); (split; [reflexivity|]); split.
  - reflexivity.
  - split; [left; reflexivity|]. split; [reflexivity|].
    intros Hn. destruct Hn. apply includes_contains, Hu.
  - reflexivity.
  - split; [right; left; reflexivity|]. split; [|reflexivity].
    intros Hc%includes_contains. congruence.
  - cbn [emit trace]. unfold revalidations. rewrite omap_app. apply app_nil_r.
  - split; [right; right; reflexivity|]. split.
    + intros Hc%includes_contains. congruence.
    + intros _ Hc%includes_contains. congruence.
Qed.

(** The fault of a key that is taken mentions the unique constraint. *)
Lemma duplicate_key_answer (w : World.t) :
  handleActionError (Plain duplicate_key) w = (Return conflict, w).
Proof. reflexivity. Qed.

(** X6.  What [handleActionError] makes of a thrown value.  An
    application error gives its own message (a validation error its
    field map) and nothing is logged.  Any other error is told by its
    message: one that mentions a unique constraint gives the conflict
    answer, otherwise one that mentions a foreign key constraint gives
    the dangling-reference answer, and nothing is logged; every other
    fault, and a thrown value that is no error, gives the generic answer
    and is logged.  So the message of a fault of the data layer is never
    handed to the caller. *)
Theorem thrown_values_are_classified (w : World.t) :
  (forall cls message code status errors,
     handleActionError (App cls message code status errors) w
     = (Return (match cls with
                | ValidationErrorClass => Failed None errors
                | _ => Failed (Some message) None
                end), w)) /\
  (forall message,
     contains message "unique constraint" ->
     handleActionError (Plain message) w = (Return conflict, w)) /\
  (forall message,
     ~ contains message "unique constraint" ->
     contains message "foreign key constraint" ->
     handleActionError (Plain message) w = (Return dangling, w)) /\
  (forall message,
     ~ contains message "unique constraint" ->
     ~ contains message "foreign key constraint" ->
     handleActionError (Plain message) w
     = (Return unexpected, emit (ConsoleError "Unexpected error:") w)) /\
  handleActionError NotAnError w
  = (Return unexpected, emit (ConsoleError "Unexpected error:") w) /\
  (forall error, exists r w',
     handleActionError error w = (Return r, w') /\
     contacts w' = contacts w /\
     (forall message, error = Plain message ->
        r = conflict \/ r = dangling \/ r = unexpected)).
Proof.
  assert (Hu : forall m, JS.includes m "unique constraint" = false <->
                         ~ contains m "unique constraint").
  { intros m. rewrite <- includes_contains. destruct (JS.includes m _); split;
      (congruence || discriminate || auto). }
  assert (Hf : forall m, JS.includes m "foreign key constraint" = false <->
                         ~ contains m "foreign key constraint").
  { intros m. rewrite <- includes_contains. destruct (JS.includes m _); split;
      (congruence || discriminate || auto). }
  split; [|split; [|split; [|split; [|split]]]].
  - intros cls message code status errors. destruct cls; reflexivity.
  - intros message Hc%includes_contains. unfold handleActionError. rewrite Hc. reflexivity.
  - intros message Hn%Hu Hc%includes_contains. unfold handleActionError.
    rewrite Hn, Hc. reflexivity.
  - intros message Hn%Hu Hm%Hf. unfold handleActionError. rewrite Hn, Hm. reflexivity.
  - reflexivity.
  - intros error. destruct error as [cls message code status errors|message|].
    + destruct cls; eexists; eexists; (split; [reflexivity|]);
        (split; [reflexivity|]); intros m Hm; discriminate Hm.
    + unfold handleActionError.
      destruct (JS.includes message "unique constraint");
        [|destruct (JS.includes message "foreign key constraint")];
        eexists; eexists; (split; [reflexivity|]); (split; [reflexivity|]);
        intros m _; auto.
    + eexists. eexists. split; [reflexivity|]. split; [reflexivity|].
      intros m Hm. discriminate Hm.
Qed.

(** The instance of X6 for a duplicate-key fault of the database. *)
Lemma thrown_values_witness :
  contains "duplicate key value violates unique constraint contacts_pkey"
           "unique constraint" /\
  handleActionError
    (Plain "duplicate key value violates unique constraint contacts_pkey")
    (Sample.world None [])
  = (Return conflict, Sample.world None []).
Proof.
  assert (Hc : contains "duplicate key value violates unique constraint contacts_pkey"
                        "unique constraint").
  { exists "duplicate key value violates ", " contacts_pkey". reflexivity. }
  split; [exact Hc|].
  apply (proj1 (proj2 (thrown_values_are_classified (Sample.world None []))) _ Hc).
Defined.

End Faults.

(* ===================================================================== *)
(** ** What a successful mutation writes *)
(* ===================================================================== *)

Section Writes.
Import Lang Shapes Effects Zod Spec Schemas World Errors Handler Actions.

(** The merge adds no key but those of its pairs. *)
Lemma merge_keys dirty (acc : JS.object)
    (pairs : list (string * bool * (parsed JS.value * list issue)))
    (out : JS.object) (k : string) :
  parsed_value (mergeObjectSync dirty acc pairs) = Some out ->
  is_Some (out !! k) ->
  is_Some (acc !! k) \/ k ∈ map (fun x => x.1.1) pairs.
Proof.
  revert dirty acc. induction pairs as [|[[k' al] [r errs]] pairs IH]; intros dirty acc.
  - cbn. destruct dirty; cbn; intros [= <-]; auto.
  - cbn [mergeObjectSync map fst]. destruct r as [v|v|]; [| |discriminate];
      intros Hm Hk; destruct (IH _ _ Hm Hk) as [Hacc|Hin];
      try (right; apply list_elem_of_further, Hin);
      (case_match; [|left; exact Hacc]);
      (destruct (decide (k' = k)) as [->|Hne];
        [right; apply list_elem_of_here
        |left; rewrite lookup_insert_ne in Hacc by exact Hne; exact Hacc]).
Qed.

(** The data of a successful parse has no key outside the shape. *)
Lemma parsed_keys (sh : shape) (raw data : JS.object) (k : string) :
  safeParse (object sh) raw = Success data ->
  is_Some (data !! k) -> k ∈ map fst sh.
Proof.
  intros Hp Hk. unfold safeParse, object in Hp. cbn [fst] in Hp.
  destruct (mergeObjectSync false ∅ (map (parse_pair [] raw) sh)) as [out|out|] eqn:Hm;
    inversion Hp; subst out.
  destruct (merge_keys false ∅ (map (parse_pair [] raw) sh) data k) as [Hempty|Hin].
  - rewrite Hm. reflexivity.
  - exact Hk.
  - rewrite lookup_empty in Hempty. destruct Hempty as [x Hx]. discriminate.
  - rewrite map_map in Hin. exact Hin.
Qed.

(** X1.  Unknown keys are stripped: the data a successful parse of an
    object schema hands on has no key outside the fields of the schema.
    For the contact schemas this means that no entry of a form can set
    [id], [userId], [createdAt] or [updatedAt]. *)
Theorem validated_data_has_schema_keys_only `{F : Formats} :
  (forall (sh : shape) (raw data : JS.object) (k : string),
     safeParse (object sh) raw = Success data ->
     is_Some (data !! k) -> k ∈ map fst sh) /\
  (forall (raw data : JS.object) (k : string),
     safeParse contactSchema raw = Success data \/
     safeParse contactUpdateSchema raw = Success data ->
     k ∈ ["id"; "userId"; "createdAt"; "updatedAt"] ->
     data !! k = None).
Proof.
  split; [exact parsed_keys|].
  intros raw data k Hp Hk.
  destruct (data !! k) as [v|] eqn:Hv; [exfalso|reflexivity].
  assert (Hin : k ∈ map fst contactShape).
  { destruct Hp as [Hp|Hp].
    - apply (parsed_keys contactShape raw data k Hp). rewrite Hv. eexists; reflexivity.
    - rewrite <- partial_keys.
      apply (parsed_keys (partial contactShape) raw data k Hp).
      rewrite Hv. eexists; reflexivity. }
  cbn in Hin.
  repeat (apply elem_of_cons in Hk as [->|Hk]); try (inversion Hk; fail);
    repeat (apply elem_of_cons in Hin as [Hin|Hin]); try discriminate Hin;
    inversion Hin.
Qed.

(** The instance of X1 for a form that tries to set the owner. *)
Lemma validated_data_witness :
  exists data,
    safeParse (contactSchema (F := stock))
      (JS.fromEntries (Sample.form
         [("firstName", "John"); ("lastName", "Doe"); ("email", "john@example.com");
          ("userId", "user-a")])) = Success data /\
    data !! "userId" = None.
Proof.
  exists (<[ "type" := JS.Str "lead" ]>
            (<[ "email" := JS.Str "john@example.com" ]>
               (<[ "lastName" := JS.Str "Doe" ]>
                  (<[ "firstName" := JS.Str "John" ]> ∅)))).
  assert (Hp : safeParse (contactSchema (F := stock))
                 (JS.fromEntries (Sample.form
                    [("firstName", "John"); ("lastName", "Doe");
                     ("email", "john@example.com"); ("userId", "user-a")]))
               = Success (<[ "type" := JS.Str "lead" ]>
                            (<[ "email" := JS.Str "john@example.com" ]>
                               (<[ "lastName" := JS.Str "Doe" ]>
                                  (<[ "firstName" := JS.Str "John" ]> ∅)))))
    by (vm_compute; reflexivity).
  split; [exact Hp|].
  apply (proj2 (validated_data_has_schema_keys_only (F := stock)) _ _ "userId"
           (or_introl Hp)).
  apply list_elem_of_further, list_elem_of_here.
Defined.

(** A successful parse holds, under each field, the value of a valid
    parse of that field. *)
Lemma success_field (sh : shape) (raw data : JS.object) (k : string) (s : field) :
  NoDup (map fst sh) -> (k, s) ∈ sh -> k <> "__proto__" ->
  safeParse (object sh) raw = Success data ->
  (s [k] (JS.get raw k)).1 = OK (JS.get data k).
Proof.
  intros Hnd Hin Hk Hp.
  assert (Hm : (object sh [] raw).1 = OK data).
  { unfold safeParse in Hp. destruct (object sh [] raw) as [[out|out|] e];
      inversion Hp; reflexivity. }
  assert (Hvalid : isValid (s [k] (JS.get raw k)).1 = true).
  { pose proof (merge_valid false ∅ (map (parse_pair [] raw) sh)) as Hv.
    unfold object in Hm. cbn [fst] in Hm. rewrite Hm in Hv. cbn in Hv.
    symmetry in Hv. rewrite forallb_forall in Hv.
    apply (Hv (parse_pair [] raw (k, s))).
    apply in_map, list_elem_of_In, Hin. }
  destruct (s [k] (JS.get raw k)).1 as [v|v|] eqn:Hr; try discriminate.
  f_equal. symmetry.
  apply (object_get sh raw data k s v Hnd Hin Hk).
  - rewrite Hr. reflexivity.
  - rewrite Hm. reflexivity.
Qed.

Lemma defined_lookup (o : JS.object) (k : string) (v : JS.value) :
  JS.get o k = v -> v <> JS.Undefined -> defined o !! k = Some v.
Proof.
  unfold JS.get, defined. intros Hg Hv. apply map_lookup_filter_Some.
  destruct (o !! k) as [x|]; cbn in Hg; [subst x|congruence].
  split; [reflexivity|]. cbn. destruct v; (reflexivity || congruence).
Qed.

Lemma defined_subset (o : JS.object) (k : string) (v : JS.value) :
  defined o !! k = Some v -> o !! k = Some v /\ v <> JS.Undefined.
Proof.
  unfold defined. intros [Ho Hv]%map_lookup_filter_Some. cbn in Hv.
  split; [exact Ho|]. intros ->. discriminate.
Qed.

Section WithFormats.
Context `{F : Formats}.

(** A required text field ([min(1)], a maximum, [trim]) takes a string
    whose length as typed is within the bounds, and hands on its trim. *)
Lemma required_text_ok (n : Z) (m1 m2 : string) (p : list string) (v x : JS.value) :
  (str [Min 1 m1; Max n m2; Trim] p v).1 = OK x ->
  exists a, v = JS.Str a /\ x = JS.Str (JS.trim a) /\ (1 <= JS.length a <= n)%Z.
Proof.
  destruct v as [|a|num|name]; try (cbn; discriminate).
  unfold str. cbn [run_checks run_check fst snd].
  destruct (Z.ltb_spec (JS.length a) 1); destruct (Z.ltb_spec n (JS.length a));
    cbn; try discriminate.
  intros [= <-]. exists a. repeat split; lia.
Qed.

Lemma email_ok_string (p : list string) (v x : JS.value) :
  (emailSchema p v).1 = OK x ->
  exists e, v = JS.Str e /\ x = JS.Str (JS.trim (JS.toLowerCase e)).
Proof.
  destruct v as [|e|num|name]; try (cbn; discriminate).
  intros Hv. exists e. split; [reflexivity|].
  apply (email_field_value p e x Hv).
Qed.

Lemma contact_type_ok (p : list string) (v x : JS.value) :
  (default_ (optional (enum contactTypes)) (JS.Str "lead") p v).1 = OK x ->
  exists t, x = JS.Str t /\ t ∈ contactTypes /\ (v = JS.Undefined -> t = "lead").
Proof.
  destruct v as [|t|num|name]; try (cbn; discriminate).
  - cbn. intros [= <-]. exists "lead". split; [reflexivity|].
    split; [apply list_elem_of_here|reflexivity].
  - unfold default_, optional, enum. case_bool_decide as Ht; cbn; [|discriminate].
    intros [= <-]. exists t. split; [reflexivity|].
    split; [exact Ht|discriminate].
Qed.

(** What the engine may answer to the INSERT of a create: the fault of
    the primary key when the generated key is taken, or the fault the
    world holds for the statement. *)
Lemma createContact_refused (user : User) prev (formData : FormData) (w : World.t)
    (data : JS.object) (fault : string) :
  session w = Some user ->
  safeParse contactSchema (JS.fromEntries formData) = Success data ->
  key_taken (uuids w (seed w)) (contacts w) = true /\ fault = duplicate_key \/
  key_taken (uuids w (seed w)) (contacts w) = false /\
  refused w (InsertInto data (user_id user)) = Some fault ->
  createContact prev formData w
  = handleActionError (Plain fault)
      (emit (Sql (InsertInto data (user_id user))) (next_seed w)).
Proof.
  intros Hs Hp Hfault. unfold createContact, try_catch, bind, Handler.getUser.
  rewrite Hs, Hp. unfold db_insert. cbv zeta. cbn [World.id].
  destruct Hfault as [[Hk ->]|[Hk Hr]]; rewrite Hk; [reflexivity|].
  rewrite Hr. reflexivity.
Qed.

Lemma updateContact_refused (user : User) (id : string) prev (formData : FormData)
    (w : World.t) (data : JS.object) (old : Contact) (fault : string) :
  session w = Some user ->
  safeParse contactUpdateSchema (JS.fromEntries formData) = Success data ->
  old ∈ contacts w -> owned_by id (user_id user) old = true ->
  refused w (UpdateWhere data id (user_id user)) = Some fault ->
  updateContact id prev formData w
  = handleActionError (Plain fault)
      (emit (Sql (UpdateWhere data id (user_id user))) w).
Proof.
  intros Hs Hp Hold Ho Hr. unfold updateContact, try_catch, bind, Handler.getUser.
  rewrite Hs, Hp. unfold db_update.
  set (upd := fun r => if owned_by id (user_id user) r
                       then apply_set data (clock w) r else r).
  assert (Hne : List.filter (owned_by id (user_id user)) (map upd (contacts w)) <> []).
  { apply (filter_some _ _ (upd old)).
    - apply list_elem_of_In, in_map, list_elem_of_In, Hold.
    - unfold upd. rewrite Ho. unfold owned_by, apply_set in *. cbn. exact Ho. }
  destruct (List.filter (owned_by id (user_id user)) (map upd (contacts w)))
    as [|row rest]; [contradiction|].
  rewrite Hr. reflexivity.
Qed.

(** A statement that the engine refuses is answered with one of the
    three fixed messages, and leaves the table and the cached views as
    they were. *)
Lemma refused_statement_answer (fault : string) (st : statement) (w0 w : World.t) :
  contacts w0 = contacts w -> trace w0 = trace w ->
  exists (r : ActionResult) (w' : World.t),
    handleActionError (Plain fault) (emit (Sql st) w0) = (Return r, w') /\
    contacts w' = contacts w /\
    revalidations (trace w') = revalidations (trace w) /\
    (r = conflict \/ r = dangling \/ r = unexpected) /\
    (contains fault "unique constraint" -> r = conflict) /\
    (~ contains fault "unique constraint" ->
     contains fault "foreign key constraint" -> r = dangling).
Proof.
  intros Hc Ht.
  destruct (plain_fault_answer fault (emit (Sql st) w0))
    as (r & w' & Hrun & Hrows & Hviews & Hkind).
  exists r, w'. split; [exact Hrun|]. split; [rewrite Hrows; exact Hc|].
  split; [|exact Hkind].
  rewrite Hviews. cbn [emit trace]. rewrite Ht. unfold revalidations.
  rewrite omap_app. apply app_nil_r.
Qed.

(** X2.  A create with an identity and a valid form, provided the key
    generated for the row is not taken and the engine accepts the INSERT,
    stores exactly one new row and returns it: the row has the generated
    key, which no row of the table had, belongs to the caller and carries
    the current time twice; its names are the submitted ones trimmed, its
    e-mail address the submitted one lower-cased and trimmed, its type
    one of the five contact types ("lead" when the form has none); it has
    no column outside the schema and no column holding [undefined].  The
    table is the old one with the row at its end, and the handler asks
    for the INSERT and then for the invalidation of [/contacts].  When
    the key is taken or the engine refuses the INSERT (a foreign key
    without its row), nothing is stored and no view is declared stale:
    the answer is one of the three fixed messages, the conflict message
    for a fault that mentions a unique constraint and otherwise the
    dangling-reference message for one that mentions a foreign key
    constraint. *)
Theorem create_stores_one_normalised_row (user : User) prev (formData : FormData)
    (w : World.t) (data : JS.object) :
  session w = Some user ->
  safeParse contactSchema (JS.fromEntries formData) = Success data ->
  (key_taken (uuids w (seed w)) (contacts w) = false ->
   refused w (InsertInto data (user_id user)) = None ->
   exists (row : Contact) (a b e t : string),
     createContact prev formData w
     = (Return (Succeeded (Some row) (Some "Contact created successfully")),
        emit (RevalidatePath "/contacts")
          (emit (Sql (InsertInto data (user_id user)))
             (next_seed (with_contacts (contacts w ++ [row]) w)))) /\
     World.id row = uuids w (seed w) /\
     (forall r, r ∈ contacts w -> World.id r <> World.id row) /\
     userId row = user_id user /\
     createdAt row = clock w /\ updatedAt row = clock w /\
     JS.get (JS.fromEntries formData) "firstName" = JS.Str a /\
     columns row !! "firstName" = Some (JS.Str (JS.trim a)) /\
     JS.get (JS.fromEntries formData) "lastName" = JS.Str b /\
     columns row !! "lastName" = Some (JS.Str (JS.trim b)) /\
     JS.get (JS.fromEntries formData) "email" = JS.Str e /\
     columns row !! "email" = Some (JS.Str (JS.trim (JS.toLowerCase e))) /\
     columns row !! "type" = Some (JS.Str t) /\ t ∈ contactTypes /\
     (JS.get (JS.fromEntries formData) "type" = JS.Undefined -> t = "lead") /\
     (forall k, is_Some (columns row !! k) -> k ∈ map fst contactShape) /\
     (forall k, columns row !! k <> Some JS.Undefined)) /\
  (forall fault : string,
     key_taken (uuids w (seed w)) (contacts w) = true /\ fault = duplicate_key \/
     key_taken (uuids w (seed w)) (contacts w) = false /\
     refused w (InsertInto data (user_id user)) = Some fault ->
     exists (r : ActionResult) (w' : World.t),
       createContact prev formData w = (Return r, w') /\
       contacts w' = contacts w /\
       revalidations (trace w') = revalidations (trace w) /\
       (r = conflict \/ r = dangling \/ r = unexpected) /\
       (contains fault "unique constraint" -> r = conflict) /\
       (~ contains fault "unique constraint" ->
        contains fault "foreign key constraint" -> r = dangling)).
Proof.
  intros Hs Hp. split.
  2:{ intros fault Hfault.
      rewrite (createContact_refused user prev formData w data fault Hs Hp Hfault).
      apply refused_statement_answer; reflexivity. }
  intros Hkey Hr. set (raw := JS.fromEntries formData) in *.
  pose proof (success_field contactShape raw data) as Hfield.
  specialize (fun k s Hin Hk => Hfield k s contactShape_keys Hin Hk Hp).
  destruct (required_text_ok _ _ _ _ _ _
              (Hfield "firstName" _ ltac:(find_field) ltac:(discriminate)))
    as (a & Ha & Hda & _).
  destruct (required_text_ok _ _ _ _ _ _
              (Hfield "lastName" _ ltac:(find_field) ltac:(discriminate)))
    as (b & Hb & Hdb & _).
  destruct (email_ok_string _ _ _
              (Hfield "email" _ ltac:(find_field) ltac:(discriminate)))
    as (e & He & Hde).
  destruct (contact_type_ok _ _ _
              (Hfield "type" _ ltac:(find_field) ltac:(discriminate)))
    as (t & Hdt & Ht & Hlead).
  eexists. exists a, b, e, t.
  split.
  { unfold createContact, try_catch, bind, Handler.getUser.
    rewrite Hs. fold raw. rewrite Hp. unfold db_insert. cbv zeta. cbn [World.id].
    rewrite Hkey, Hr. reflexivity. }
  cbn [World.id userId createdAt updatedAt columns].
  split; [reflexivity|]. split.
  { intros r Hin Heq. unfold key_taken in Hkey.
    assert (Ht' : existsb (fun r => String.eqb (World.id r) (uuids w (seed w)))
                    (contacts w) = true).
    { apply existsb_exists. exists r.
      split; [apply list_elem_of_In, Hin|apply String.eqb_eq, Heq]. }
    congruence. }
  repeat (split; [reflexivity|]).
  split; [exact Ha|]. split.
  { apply lookup_union_Some_l. apply defined_lookup; [exact Hda|discriminate]. }
  split; [exact Hb|]. split.
  { apply lookup_union_Some_l. apply defined_lookup; [exact Hdb|discriminate]. }
  split; [exact He|]. split.
  { apply lookup_union_Some_l. apply defined_lookup; [exact Hde|discriminate]. }
  split.
  { apply lookup_union_Some_l. apply defined_lookup; [exact Hdt|discriminate]. }
  split; [exact Ht|]. split; [exact Hlead|]. split.
  - intros k [Hk|Hk]%lookup_union_is_Some.
    + destruct Hk as [v Hv]. apply defined_subset in Hv as [Hv _].
      apply (parsed_keys contactShape raw data k Hp).
      rewrite Hv. eexists; reflexivity.
    + apply lookup_singleton_is_Some in Hk. subst k. cbn. find_field.
  - intros k Hk. apply lookup_union_Some_raw in Hk as [Hk|[_ Hk]].
    + apply defined_subset in Hk as [_ Hk]. congruence.
    + apply lookup_singleton_Some in Hk as [_ Hk]. discriminate.
Qed.

(** A field that the form does not carry is not among the values an
    update hands to the data layer. *)
Lemma update_omits_missing (raw data : JS.object) (k : string) :
  safeParse contactUpdateSchema raw = Success data ->
  JS.get raw k = JS.Undefined -> defined data !! k = None.
Proof.
  intros Hp Hraw. apply defined_undefined.
  destruct (decide (k ∈ map fst (partial contactShape))) as [Hin|Hout].
  - assert (Hnd : NoDup (map fst (partial contactShape))).
    { rewrite partial_keys. apply contactShape_keys. }
    assert (Hproto : k <> "__proto__").
    { intros ->. cbn in Hin.
      repeat (apply elem_of_cons in Hin as [Hin|Hin]); try discriminate Hin.
      inversion Hin. }
    apply list_elem_of_In, in_map_iff in Hin as ([k' s] & Hk & Hin). cbn in Hk. subst k'.
    pose proof (success_field (partial contactShape) raw data k s Hnd
                  (proj2 (list_elem_of_In _ _) Hin) Hproto Hp) as Hf.
    unfold partial in Hin. apply in_map_iff in Hin as ([k0 s0] & Heq & _).
    inversion Heq; subst k0 s. rewrite Hraw in Hf. cbn in Hf. congruence.
  - unfold JS.get. destruct (data !! k) as [v|] eqn:Hv; [|reflexivity].
    exfalso. apply Hout. apply (parsed_keys (partial contactShape) raw data k Hp).
    rewrite Hv. eexists; reflexivity.
Qed.

(** X3.  An update with an identity, a valid form and a row of the
    caller under the key, provided the engine accepts the UPDATE,
    rewrites that row and returns it: the key, the owner and the creation
    time stay, the modification time becomes the current time, every
    validated value that is not [undefined] is written to its column, and
    a column whose field the form does not carry keeps its value (the
    type included: no default applies).  The table is the old one with
    the rows of the caller under the key rewritten in place, the returned
    row among them, and the handler asks for the UPDATE and then for the
    invalidation of [/contacts] and of the page of the contact.  When the
    engine refuses the UPDATE (a foreign key without its row), no row is
    rewritten and no view is declared stale: the answer is one of the
    three fixed messages, the dangling-reference message for a fault that
    mentions a foreign key constraint and no unique constraint. *)
Theorem update_rewrites_submitted_columns (user : User) (id : string) prev
    (formData : FormData) (w : World.t) (data : JS.object) (old : Contact) :
  session w = Some user ->
  safeParse contactUpdateSchema (JS.fromEntries formData) = Success data ->
  old ∈ contacts w -> owned_by id (user_id user) old = true ->
  (refused w (UpdateWhere data id (user_id user)) = None ->
   exists (first row : Contact) (w' : World.t),
     updateContact id prev formData w
     = (Return (Succeeded (Some row) (Some "Contact updated successfully")), w') /\
     first ∈ contacts w /\ owned_by id (user_id user) first = true /\
     row = apply_set data (clock w) first /\
     World.id row = id /\ userId row = user_id user /\
     createdAt row = createdAt first /\ updatedAt row = clock w /\
     (forall k v, JS.get data k = v -> v <> JS.Undefined -> columns row !! k = Some v) /\
     (forall k, JS.get (JS.fromEntries formData) k = JS.Undefined ->
                columns row !! k = columns first !! k) /\
     contacts w'
     = map (fun r => if owned_by id (user_id user) r
                     then apply_set data (clock w) r else r) (contacts w) /\
     row ∈ contacts w' /\
     length (contacts w') = length (contacts w) /\
     trace w' = trace w ++ [Sql (UpdateWhere data id (user_id user));
                            RevalidatePath "/contacts";
                            RevalidatePath ("/contacts/" ++ id)]) /\
  (forall fault : string,
     refused w (UpdateWhere data id (user_id user)) = Some fault ->
     exists (r : ActionResult) (w' : World.t),
       updateContact id prev formData w = (Return r, w') /\
       contacts w' = contacts w /\
       revalidations (trace w') = revalidations (trace w) /\
       (r = conflict \/ r = dangling \/ r = unexpected) /\
       (contains fault "unique constraint" -> r = conflict) /\
       (~ contains fault "unique constraint" ->
        contains fault "foreign key constraint" -> r = dangling)).
Proof.
  intros Hs Hp Hold Ho. split.
  2:{ intros fault Hr.
      rewrite (updateContact_refused user id prev formData w data old fault
                 Hs Hp Hold Ho Hr).
      apply refused_statement_answer; reflexivity. }
  intros Hr. set (raw := JS.fromEntries formData) in *.
  set (upd := fun r => if owned_by id (user_id user) r
                       then apply_set data (clock w) r else r).
  assert (Hupd_owned : forall r, owned_by id (user_id user) (upd r)
                                 = owned_by id (user_id user) r).
  { intros r. unfold upd. destruct (owned_by id (user_id user) r) eqn:Hrow; [|exact Hrow].
    unfold owned_by, apply_set in *. cbn. exact Hrow. }
  assert (Hne : List.filter (owned_by id (user_id user)) (map upd (contacts w)) <> []).
  { apply (filter_some _ _ (upd old)).
    - apply list_elem_of_In, in_map, list_elem_of_In, Hold.
    - rewrite Hupd_owned. exact Ho. }
  destruct (List.filter (owned_by id (user_id user)) (map upd (contacts w)))
    as [|row rest] eqn:Hrows; [contradiction|].
  assert (Hin : In row (List.filter (owned_by id (user_id user)) (map upd (contacts w)))).
  { rewrite Hrows. left. reflexivity. }
  apply filter_In in Hin as [Hin Hrow].
  apply in_map_iff in Hin as (first & <- & Hfin).
  assert (Hfo : owned_by id (user_id user) first = true).
  { rewrite <- Hupd_owned. exact Hrow. }
  assert (Heq : upd first = apply_set data (clock w) first).
  { unfold upd. rewrite Hfo. reflexivity. }
  rewrite Heq in Hrows.
  exists first, (apply_set data (clock w) first). eexists. split.
  { unfold updateContact, try_catch, bind, Handler.getUser.
    rewrite Hs. fold raw. rewrite Hp. unfold db_update. fold upd.
    rewrite Hrows, Hr. reflexivity. }
  split; [apply list_elem_of_In, Hfin|]. split; [exact Hfo|]. split; [reflexivity|].
  unfold owned_by in Hfo. apply andb_true_iff in Hfo as [Hid Hu].
  apply String.eqb_eq in Hid. apply String.eqb_eq in Hu.
  cbn [apply_set World.id userId createdAt updatedAt columns].
  split; [exact Hid|]. split; [exact Hu|]. split; [reflexivity|]. split; [reflexivity|].
  split; [|split; [|split; [|split; [|split]]]].
  - intros k v Hv Hdef. apply lookup_union_Some_l. apply defined_lookup; assumption.
  - intros k Hk. apply lookup_union_r. apply (update_omits_missing raw data k Hp Hk).
  - reflexivity.
  - cbn [contacts emit with_contacts]. fold upd. rewrite <- Heq.
    apply list_elem_of_In, in_map, Hfin.
  - cbn. rewrite length_map. reflexivity.
  - cbn. rewrite <- !app_assoc. reflexivity.
Qed.

End WithFormats.

(** The instance of X2 for a form typed with stray spaces and capitals,
    and for a form that names an organization before an engine that
    holds none. *)
Lemma create_stores_witness :
  (exists (row : Contact),
     (createContact (F := stock) None
        (Sample.form [("firstName", " John "); ("lastName", "Doe");
                      ("email", "John@Example.com")])
        (Sample.world (Some Sample.bob) [Sample.johns_row])).1
     = Return (Succeeded (Some row) (Some "Contact created successfully")) /\
     World.id row = "contact-2" /\
     World.id Sample.johns_row <> World.id row /\
     userId row = "user-b" /\
     columns row !! "firstName" = Some (JS.Str "John") /\
     columns row !! "email" = Some (JS.Str "john@example.com") /\
     columns row !! "type" = Some (JS.Str "lead")) /\
  exists w',
    createContact (F := stock) None
      (Sample.form [("firstName", "John"); ("lastName", "Doe");
                    ("email", "john@example.com");
                    ("organizationId", "123e4567-e89b-42d3-a456-426614174000")])
      (Fixtures.without_organizations (Sample.world (Some Sample.bob) [Sample.johns_row]))
    = (Return dangling, w') /\
    contacts w' = [Sample.johns_row].
Proof.
  split.
  - assert (Hs : session (Sample.world (Some Sample.bob) [Sample.johns_row])
                 = Some Sample.bob) by reflexivity.
    assert (Hp : safeParse (contactSchema (F := stock))
                   (JS.fromEntries
                      (Sample.form [("firstName", " John "); ("lastName", "Doe");
                                    ("email", "John@Example.com")]))
                 = Success (<[ "type" := JS.Str "lead" ]>
                              (<[ "email" := JS.Str "john@example.com" ]>
                                 (<[ "lastName" := JS.Str "Doe" ]>
                                    (<[ "firstName" := JS.Str "John" ]> ∅)))))
      by (vm_compute; reflexivity).
    destruct (proj1 (create_stores_one_normalised_row (F := stock) Sample.bob None _ _ _
                       Hs Hp) eq_refl eq_refl)
      as (row & a & b & e & t & Hrun & Hid & Hfresh & Hu & _ & _ & Ha & Hfirst & _ & _
          & He & Hmail & Htype & _ & Hlead & _).
    exists row. rewrite Hrun. split; [reflexivity|]. split; [exact Hid|].
    split; [apply Hfresh, list_elem_of_here|]. split; [exact Hu|].
    vm_compute in Ha. inversion Ha; subst a.
    vm_compute in He. inversion He; subst e.
    split; [exact Hfirst|]. split; [exact Hmail|].
    rewrite Htype, Hlead; [reflexivity|]. vm_compute. reflexivity.
  - set (w := Fixtures.without_organizations
                (Sample.world (Some Sample.bob) [Sample.johns_row])).
    set (data := <[ "organizationId" := JS.Str "123e4567-e89b-42d3-a456-426614174000" ]>
                   (<[ "type" := JS.Str "lead" ]>
                      (<[ "email" := JS.Str "john@example.com" ]>
                         (<[ "lastName" := JS.Str "Doe" ]>
                            (<[ "firstName" := JS.Str "John" ]> (∅ : JS.object)))))).
    assert (Hs : session w = Some Sample.bob) by reflexivity.
    assert (Hp : safeParse (contactSchema (F := stock))
                   (JS.fromEntries
                      (Sample.form
                         [("firstName", "John"); ("lastName", "Doe");
                          ("email", "john@example.com");
                          ("organizationId", "123e4567-e89b-42d3-a456-426614174000")]))
                 = Success data)
      by (vm_compute; reflexivity).
    assert (Hk : key_taken (uuids w (seed w)) (contacts w) = false) by reflexivity.
    assert (Hr : refused w (InsertInto data (user_id Sample.bob))
                 = Some Fixtures.missing_organization)
      by (vm_compute; reflexivity).
    destruct (proj2 (create_stores_one_normalised_row (F := stock) Sample.bob None _ w
                       data Hs Hp)
                Fixtures.missing_organization (or_intror (conj Hk Hr)))
      as (r & w' & Hrun & Hrows & _ & _ & _ & Hdangling).
    exists w'. split; [|exact Hrows].
    rewrite Hrun, Hdangling; [reflexivity| |].
    + intros Hc%includes_contains. vm_compute in Hc. discriminate Hc.
    + apply includes_contains. vm_compute. reflexivity.
Defined.

(** The instance of X3 for alice renaming her contact, and for alice
    moving it to an organization before an engine that holds none. *)
Lemma update_rewrites_witness :
  (exists row w',
     updateContact (F := stock) "contact-1" None (Sample.form [("lastName", "Smith")])
       (Sample.world (Some Sample.alice) [Sample.johns_row])
     = (Return (Succeeded (Some row) (Some "Contact updated successfully")), w') /\
     columns row !! "lastName" = Some (JS.Str "Smith") /\
     columns row !! "firstName" = columns Sample.johns_row !! "firstName" /\
     updatedAt row = clock (Sample.world (Some Sample.alice) [Sample.johns_row]) /\
     contacts w' = [row]) /\
  exists w',
    updateContact (F := stock) "contact-1" None
      (Sample.form [("organizationId", "123e4567-e89b-42d3-a456-426614174000")])
      (Fixtures.without_organizations
         (Sample.world (Some Sample.alice) [Sample.johns_row]))
    = (Return dangling, w') /\
    contacts w' = [Sample.johns_row].
Proof.
  assert (Ho : owned_by "contact-1" (user_id Sample.alice) Sample.johns_row = true)
    by reflexivity.
  split.
  - assert (Hs : session (Sample.world (Some Sample.alice) [Sample.johns_row])
                 = Some Sample.alice) by reflexivity.
    assert (Hp : safeParse (contactUpdateSchema (F := stock))
                   (JS.fromEntries (Sample.form [("lastName", "Smith")]))
                 = Success {[ "lastName" := JS.Str "Smith" ]})
      by (vm_compute; reflexivity).
    assert (Hold : Sample.johns_row
                   ∈ contacts (Sample.world (Some Sample.alice) [Sample.johns_row]))
      by apply list_elem_of_here.
    destruct (proj1 (update_rewrites_submitted_columns (F := stock) Sample.alice
                       "contact-1" None _ _ _ _ Hs Hp Hold Ho) eq_refl)
      as (first & row & w' & Hrun & Hfirst & _ & Hrow & _ & _ & _ & Hupdated & Hwritten
          & Hkept & Htable & _).
    exists row, w'. split; [exact Hrun|].
    apply list_elem_of_singleton in Hfirst. subst first.
    split; [apply (Hwritten "lastName"); [vm_compute; reflexivity|discriminate]|].
    split; [apply (Hkept "firstName"); vm_compute; reflexivity|].
    split; [exact Hupdated|].
    rewrite Htable, Hrow. cbn [contacts Sample.world map]. rewrite Ho. reflexivity.
  - set (w := Fixtures.without_organizations
                (Sample.world (Some Sample.alice) [Sample.johns_row])).
    set (data := ({[ "organizationId" := JS.Str "123e4567-e89b-42d3-a456-426614174000" ]}
                  : JS.object)).
    assert (Hs : session w = Some Sample.alice) by reflexivity.
    assert (Hp : safeParse (contactUpdateSchema (F := stock))
                   (JS.fromEntries
                      (Sample.form
                         [("organizationId", "123e4567-e89b-42d3-a456-426614174000")]))
                 = Success data)
      by (vm_compute; reflexivity).
    assert (Hold : Sample.johns_row ∈ contacts w) by apply list_elem_of_here.
    assert (Hr : refused w (UpdateWhere data "contact-1" (user_id Sample.alice))
                 = Some Fixtures.missing_organization)
      by (vm_compute; reflexivity).
    destruct (proj2 (update_rewrites_submitted_columns (F := stock) Sample.alice
                       "contact-1" None _ w data _ Hs Hp Hold Ho)
                Fixtures.missing_organization Hr)
      as (r & w' & Hrun & Hrows & _ & _ & _ & Hdangling).
    exists w'. split; [|exact Hrows].
    rewrite Hrun, Hdangling; [reflexivity| |].
    + intros Hc%includes_contains. vm_compute in Hc. discriminate Hc.
    + apply includes_contains. vm_compute. reflexivity.
Defined.

End Writes.

(* ===================================================================== *)
(** ** What a mutation leaves alone *)
(* ===================================================================== *)

Section Mutations.
Import Effects Zod Spec Schemas World Errors Handler Actions.

Lemma others_app (uid : string) (xs ys : list Contact) :
  others uid (xs ++ ys) = others uid xs ++ others uid ys.
Proof. unfold others. apply List.filter_app. Qed.

Lemma owned_by_owner (id uid : string) (r : Contact) :
  owned_by id uid r = true -> String.eqb (userId r) uid = true.
Proof. unfold owned_by. intros [_ Hu]%andb_true_iff. exact Hu. Qed.

(** An UPDATE rewrites rows of the caller only. *)
Lemma others_update (set : JS.object) (now : Z) (id uid : string) (rows : list Contact) :
  others uid (map (fun r => if owned_by id uid r then apply_set set now r else r) rows)
  = others uid rows.
Proof.
  unfold others. induction rows as [|r rows IH]; [reflexivity|].
  cbn [map List.filter]. rewrite IH.
  destruct (owned_by id uid r) eqn:Ho; [|reflexivity].
  cbn [apply_set userId]. rewrite (owned_by_owner _ _ _ Ho). reflexivity.
Qed.

(** A DELETE removes rows of the caller only. *)
Lemma others_delete (id uid : string) (rows : list Contact) :
  others uid (List.filter (fun r => negb (owned_by id uid r)) rows) = others uid rows.
Proof.
  unfold others. induction rows as [|r rows IH]; [reflexivity|].
  cbn [List.filter]. destruct (owned_by id uid r) eqn:Ho; cbn [negb List.filter].
  - rewrite IH, (owned_by_owner _ _ _ Ho). reflexivity.
  - rewrite IH. reflexivity.
Qed.

(** An UPDATE that returns no row found none to rewrite. *)
Lemma update_returns_none (set : JS.object) (now : Z) (id uid : string)
    (rows : list Contact) :
  List.filter (owned_by id uid)
    (map (fun r => if owned_by id uid r then apply_set set now r else r) rows) = [] ->
  forall r, r ∈ rows -> owned_by id uid r = false.
Proof.
  intros Hnil r Hr. destruct (owned_by id uid r) eqn:Ho; [exfalso|reflexivity].
  apply (filter_some (owned_by id uid)
           (map (fun r => if owned_by id uid r then apply_set set now r else r) rows)
           (apply_set set now r)); [|exact Ho|exact Hnil].
  apply list_elem_of_In, in_map_iff. exists r. rewrite Ho.
  split; [reflexivity|apply list_elem_of_In, Hr].
Qed.

Lemma delete_returns_none (id uid : string) (rows : list Contact) :
  List.filter (owned_by id uid) rows = [] ->
  forall r, r ∈ rows -> owned_by id uid r = false.
Proof.
  intros Hnil r Hr. destruct (owned_by id uid r) eqn:Ho; [exfalso|reflexivity].
  exact (filter_some _ _ _ Hr Ho Hnil).
Qed.

Section WithFormats.
Context `{F : Formats}.

(** The two ways a mutation ends: with a failure that left the table and
    the cached views as they were (refused before the table is asked,
    answered "not found" after a statement that changed nothing, or
    refused by the engine), or carried out. *)
Lemma run_outcome prev (m : mutation) (w : World.t) :
  (exists e errs w',
     run prev m w = (Return (Failed e errs), w') /\
     contacts w' = contacts w /\
     revalidations (trace w') = revalidations (trace w)) \/
  (exists user data msg st more w',
     session w = Some user /\
     run prev m w = (Return (Succeeded data msg), w') /\
     others (user_id user) (contacts w') = others (user_id user) (contacts w) /\
     trace w' = trace w ++ Sql st :: RevalidatePath "/contacts" :: map RevalidatePath more).
Proof.
  assert (Hstmt : forall st, revalidations (trace (emit (Sql st) w))
                             = revalidations (trace w)).
  { intros st. cbn [emit trace]. unfold revalidations.
    rewrite omap_app. apply app_nil_r. }
  assert (Hfault : forall (r : ActionResult) (w' : World.t),
            r = conflict \/ r = dangling \/ r = unexpected ->
            contacts w' = contacts w ->
            revalidations (trace w') = revalidations (trace w) ->
            exists e errs w'',
              (Return r, w') = (Return (Failed e errs), w'') /\
              contacts w'' = contacts w /\
              revalidations (trace w'') = revalidations (trace w)).
  { intros r w' Hkind Hrows Hviews.
    destruct Hkind as [-> | [-> | ->]]; eexists _, _, w';
      (split; [reflexivity|]); (split; [exact Hrows|exact Hviews]). }
  destruct (session w) as [user|] eqn:Hs.
  2:{ left. exists (Some "You must be logged in to perform this action"), None, w.
      split; [|split; reflexivity].
      destruct m; cbn [run].
      - apply (createContact_unauthenticated _ _ _ Hs).
      - apply (updateContact_unauthenticated _ _ _ _ Hs).
      - apply (deleteContact_unauthenticated _ _ Hs). }
  destruct m as [formData|id formData|id]; cbn [run].
  - destruct (safeParse contactSchema (JS.fromEntries formData)) as [data|errs] eqn:Hp.
    2:{ left. eexists _, _, w. split; [|split; reflexivity].
        apply (createContact_invalid _ _ _ _ _ Hs Hp). }
    destruct (key_taken (uuids w (seed w)) (contacts w)) eqn:Hk;
      [|destruct (refused w (InsertInto data (user_id user))) as [fault|] eqn:Hr].
    + left.
      rewrite (createContact_refused user prev formData w data duplicate_key Hs Hp
                 (or_introl (conj Hk eq_refl))).
      destruct (refused_statement_answer duplicate_key
                  (InsertInto data (user_id user)) (next_seed w) w eq_refl eq_refl)
        as (r & w' & -> & Hrows & Hviews & Hkind & _).
      exact (Hfault r w' Hkind Hrows Hviews).
    + left.
      rewrite (createContact_refused user prev formData w data fault Hs Hp
                 (or_intror (conj Hk Hr))).
      destruct (refused_statement_answer fault
                  (InsertInto data (user_id user)) (next_seed w) w eq_refl eq_refl)
        as (r & w' & -> & Hrows & Hviews & Hkind & _).
      exact (Hfault r w' Hkind Hrows Hviews).
    + right. unfold createContact, try_catch, bind, Handler.getUser.
      rewrite Hs, Hp. unfold db_insert. cbv zeta. cbn [World.id]. rewrite Hk, Hr. cbn.
      eexists user, _, _, _, [], _. split; [reflexivity|]. split; [reflexivity|].
      cbn [contacts trace emit next_seed with_contacts].
      split; [|rewrite <- app_assoc; reflexivity].
      rewrite others_app. unfold others at 2. cbn. rewrite String.eqb_refl. cbn.
      apply app_nil_r.
  - destruct (safeParse contactUpdateSchema (JS.fromEntries formData))
      as [data|errs] eqn:Hp.
    2:{ left. eexists _, _, w. split; [|split; reflexivity].
        apply (updateContact_invalid _ _ _ _ _ _ Hs Hp). }
    destruct (List.filter (owned_by id (user_id user))
                (map (fun r => if owned_by id (user_id user) r
                               then apply_set data (clock w) r else r) (contacts w)))
      as [|row rest] eqn:Hrows.
    + left. eexists _, _, (emit (Sql (UpdateWhere data id (user_id user))) w).
      split; [|split; [reflexivity|apply Hstmt]].
      apply (updateContact_none_owned id prev formData w user data Hs); [|exact Hp].
      exact (update_returns_none data (clock w) id (user_id user) (contacts w) Hrows).
    + destruct (refused w (UpdateWhere data id (user_id user))) as [fault|] eqn:Hr.
      * left. unfold updateContact, try_catch, bind, Handler.getUser.
        rewrite Hs, Hp. unfold db_update. rewrite Hrows, Hr. cbv beta iota.
        destruct (refused_statement_answer fault
                    (UpdateWhere data id (user_id user)) w w eq_refl eq_refl)
          as (r & w' & -> & Hrows' & Hviews & Hkind & _).
        exact (Hfault r w' Hkind Hrows' Hviews).
      * right. unfold updateContact, try_catch, bind, Handler.getUser.
        rewrite Hs, Hp. unfold db_update. rewrite Hrows, Hr. cbn.
        eexists user, _, _, _, [("/contacts/" ++ id)%string], _.
        split; [reflexivity|]. split; [reflexivity|].
        cbn [contacts trace emit next_seed with_contacts].
        split; [apply others_update|rewrite <- !app_assoc; reflexivity].
  - destruct (List.filter (owned_by id (user_id user)) (contacts w))
      as [|row rest] eqn:Hrows.
    + left. eexists _, _, (emit (Sql (DeleteWhere id (user_id user))) w).
      split; [|split; [reflexivity|apply Hstmt]].
      apply (deleteContact_none_owned id w user Hs).
      exact (delete_returns_none id (user_id user) (contacts w) Hrows).
    + right. unfold deleteContact, try_catch, bind, Handler.getUser.
      rewrite Hs. unfold db_delete. rewrite Hrows. cbn.
      eexists user, _, _, _, [], _. split; [reflexivity|]. split; [reflexivity|].
      cbn [contacts trace emit next_seed with_contacts].
      split; [apply others_delete|rewrite <- !app_assoc; reflexivity].
Qed.

(** X4.  Whatever a signed-in caller asks of the three mutations, with
    whatever key and form, the rows of every other owner are afterwards
    what and where they were. *)
Theorem other_owners_rows_are_untouched prev (m : mutation) (w : World.t) (user : User) :
  session w = Some user ->
  others (user_id user) (contacts (run prev m w).2)
  = others (user_id user) (contacts w).
Proof.
  intros Hs.
  destruct (run_outcome prev m w)
    as [(e & errs & w' & -> & Hrows & _)
       |(u & data & msg & st & more & w' & Hu & -> & Ho & _)].
  - cbn [snd]. rewrite Hrows. reflexivity.
  - rewrite Hs in Hu. inversion Hu; subst u. exact Ho.
Qed.

(** X5.  As long as the statements on the table complete, a mutation
    returns a result and throws nothing.  When the result is a failure,
    the table is as it was and no cached view was declared stale; when it
    is a success, the list view [/contacts] was declared stale. *)
Theorem failed_mutation_changes_nothing prev (m : mutation) (w : World.t) :
  exists (r : ActionResult) (w' : World.t),
    run prev m w = (Return r, w') /\
    match r with
    | Failed _ _ =>
        contacts w' = contacts w /\
        revalidations (trace w') = revalidations (trace w)
    | Succeeded _ _ =>
        exists more,
          revalidations (trace w') = revalidations (trace w) ++ "/contacts" :: more
    end.
Proof.
  destruct (run_outcome prev m w)
    as [(e & errs & w' & Hr & Hrows & Hviews)
       |(u & data & msg & st & more & w' & _ & Hr & _ & Ht)].
  - exists (Failed e errs), w'. split; [exact Hr|]. split; [exact Hrows|exact Hviews].
  - exists (Succeeded data msg), w'. split; [exact Hr|]. exists more.
    rewrite Ht. unfold revalidations. rewrite omap_app. f_equal.
    cbn [omap list_omap]. f_equal. clear Hr Ht.
    induction more as [|p more IH]; [reflexivity|].
    cbn. rewrite IH. reflexivity.
Qed.

End WithFormats.

(** The instance of X4 for bob deleting a key that is alice's: her row
    stays. *)
Lemma other_owners_witness :
  others "user-b"
    (contacts (run (F := stock) None (Delete "contact-1")
                 (Sample.world (Some Sample.bob) [Sample.johns_row])).2)
  = [Sample.johns_row].
Proof.
  exact (other_owners_rows_are_untouched (F := stock) None (Delete "contact-1")
           (Sample.world (Some Sample.bob) [Sample.johns_row]) Sample.bob eq_refl).
Defined.

End Mutations.

(* ===================================================================== *)
(** ** The route guard, hop by hop *)
(* ===================================================================== *)

Section Guard.
Import Routes World Handler Middleware.

#[local] Arguments String.append !_ _ / : simpl nomatch.

(** No path is under a protected prefix and under an auth-only prefix. *)
Lemma protected_not_auth (p : string) :
  isProtectedRoute p = true -> isAuthRoute p = false.
Proof.
  unfold isProtectedRoute, isAuthRoute, JS.some, protectedRoutes, authRoutes.
  cbn [existsb]. rewrite !orb_true_iff.
  intros [H|[H|[H|[H|[H|H]]]]]; try discriminate H;
    apply startsWith_prefix in H as [b ->]; reflexivity.
Qed.

Lemma login_is_auth_only : isProtectedRoute "/login" = false /\ isAuthRoute "/login" = true.
Proof. split; reflexivity. Qed.

Lemma params_delete_idem (ps : URLSearchParams) (name : string) :
  params_delete (params_delete ps name) name = params_delete ps name.
Proof.
  unfold params_delete. induction ps as [|[k v] ps IH]; [reflexivity|].
  cbn. destruct (String.eqb k name) eqn:Hk; cbn; [exact IH|].
  rewrite Hk. cbn. f_equal. exact IH.
Qed.

Lemma params_delete_set (ps : URLSearchParams) (name value : string) :
  params_delete (params_set ps name value) name = params_delete ps name.
Proof.
  induction ps as [|[k v] ps IH]; cbn.
  - rewrite String.eqb_refl. reflexivity.
  - destruct (String.eqb k name) eqn:Hk; cbn.
    + rewrite String.eqb_refl. cbn. apply params_delete_idem.
    + rewrite Hk. cbn. f_equal. exact IH.
Qed.

Lemma params_delete_absent (ps : URLSearchParams) (name : string) :
  params_get ps name = None -> params_delete ps name = ps.
Proof.
  induction ps as [|[k v] ps IH]; [reflexivity|]. cbn.
  destruct (String.eqb k name); [discriminate|]. cbn. intros H. f_equal. exact (IH H).
Qed.

(** The guard, case by case. *)
Lemma guard_anonymous_protected (request : NextRequest) (w : World.t) :
  session w = None -> isProtectedRoute (pathname (nextUrl request)) = true ->
  updateSession request w
  = (Return (Redirect
       {| origin := origin (nextUrl request); pathname := "/login";
          searchParams := params_set (searchParams (nextUrl request)) "redirectTo"
                            (pathname (nextUrl request)) |}), w).
Proof.
  intros Hs Hp. unfold updateSession, bind, Middleware.getUser. rewrite Hs, Hp.
  reflexivity.
Qed.

Lemma guard_signed_in_auth (request : NextRequest) (w : World.t) (user : User) :
  session w = Some user -> isAuthRoute (pathname (nextUrl request)) = true ->
  updateSession request w
  = (Return (Redirect
       {| origin := origin (nextUrl request);
          pathname := or_else (params_get (searchParams (nextUrl request)) "redirectTo")
                        "/dashboard";
          searchParams := params_delete (searchParams (nextUrl request)) "redirectTo" |}),
     w).
Proof.
  intros Hs Hp. unfold updateSession, bind, Middleware.getUser. rewrite Hs, Hp.
  cbn. rewrite andb_false_r. reflexivity.
Qed.

Lemma guard_passes (request : NextRequest) (w : World.t) :
  (isProtectedRoute (pathname (nextUrl request)) && negb (signed_in w) = false) ->
  (isAuthRoute (pathname (nextUrl request)) && signed_in w = false) ->
  updateSession request w
  = (Return (Next {| nextUrl := nextUrl request;
                     cookies := cookies_setAll (cookies request) (refreshed w) |}
                  (cookies_setAll [] (refreshed w))), w).
Proof.
  unfold signed_in. intros Hp Ha. unfold updateSession, bind, Middleware.getUser.
  cbv beta iota zeta. rewrite Hp, Ha. reflexivity.
Qed.

Lemma cookie_get_set (cs : Cookies) (name value other : string) :
  cookie_get (cookie_set cs name value) other
  = if String.eqb name other then Some value else cookie_get cs other.
Proof.
  induction cs as [|[k v] cs IH]; cbn.
  - reflexivity.
  - destruct (String.eqb k name) eqn:Hk; cbn.
    + apply String.eqb_eq in Hk. subst k. destruct (String.eqb name other); reflexivity.
    + rewrite IH. destruct (String.eqb name other) eqn:Hn; [|reflexivity].
      apply String.eqb_eq in Hn. subst other. rewrite Hk. reflexivity.
Qed.

Lemma cookie_get_app (xs ys : Cookies) (name : string) :
  cookie_get (xs ++ ys) name
  = match cookie_get xs name with Some v => Some v | None => cookie_get ys name end.
Proof.
  induction xs as [|[k v] xs IH]; [reflexivity|]. cbn.
  destruct (String.eqb k name); [reflexivity|exact IH].
Qed.

Lemma cookie_get_setAll (toSet cs : Cookies) (name : string) :
  cookie_get (cookies_setAll cs toSet) name
  = match refreshed_value toSet name with
    | Some v => Some v
    | None => cookie_get cs name
    end.
Proof.
  unfold cookies_setAll, refreshed_value. revert cs.
  induction toSet as [|[k v] toSet IH]; intros cs; [reflexivity|].
  cbn [fold_left rev fst snd]. rewrite IH, cookie_get_app, cookie_get_set. cbn.
  destruct (cookie_get (rev toSet) name); [reflexivity|].
  destruct (String.eqb k name); reflexivity.
Qed.

(** X11.  A request that is neither for a protected path without an
    identity nor for an auth-only path with one passes: the guard asks
    nothing else of the world, forwards the request to its address, and
    for every cookie name forwards the value the session refresh set last
    under it, or the value of the request where the refresh set none; the
    response sets the refreshed names and no other. *)
Theorem passed_request_carries_refreshed_cookies (request : NextRequest) (w : World.t) :
  (signed_in w = false -> isProtectedRoute (pathname (nextUrl request)) = false) ->
  (signed_in w = true -> isAuthRoute (pathname (nextUrl request)) = false) ->
  exists (forwarded : NextRequest) (set_cookies : Cookies),
    updateSession request w = (Return (Next forwarded set_cookies), w) /\
    nextUrl forwarded = nextUrl request /\
    forall name,
      cookie_get (cookies forwarded) name
      = match refreshed_value (refreshed w) name with
        | Some v => Some v
        | None => cookie_get (cookies request) name
        end /\
      cookie_get set_cookies name = refreshed_value (refreshed w) name.
Proof.
  intros Hp Ha. eexists _, _. split.
  - apply guard_passes.
    + destruct (signed_in w); [apply andb_false_r|rewrite Hp; reflexivity].
    + destruct (signed_in w); [rewrite Ha; reflexivity|apply andb_false_r].
  - split; [reflexivity|]. intros name. cbn [cookies]. rewrite !cookie_get_setAll.
    split; [reflexivity|]. destruct (refreshed_value (refreshed w) name); reflexivity.
Qed.

(** The instance of X11 for a signed-in request whose session token
    was refreshed. *)
Lemma passed_request_witness :
  exists forwarded set_cookies,
    updateSession
      {| nextUrl := nextUrl (Sample.page "/contacts" []);
         cookies := [("sb-token", "old"); ("theme", "dark")] |}
      {| session := Some Sample.bob; refreshed := [("sb-token", "new")];
         clock := 0; uuids := fun _ => EmptyString; seed := 0;
         contacts := []; trace := [];
          refused := fun _ => None |}
    = (Return (Next forwarded set_cookies),
       {| session := Some Sample.bob; refreshed := [("sb-token", "new")];
          clock := 0; uuids := fun _ => EmptyString; seed := 0;
          contacts := []; trace := [];
          refused := fun _ => None |}) /\
    cookie_get (cookies forwarded) "sb-token" = Some "new" /\
    cookie_get (cookies forwarded) "theme" = Some "dark" /\
    cookie_get set_cookies "theme" = None.
Proof.
  destruct (passed_request_carries_refreshed_cookies
              {| nextUrl := nextUrl (Sample.page "/contacts" []);
                 cookies := [("sb-token", "old"); ("theme", "dark")] |}
              {| session := Some Sample.bob; refreshed := [("sb-token", "new")];
                 clock := 0; uuids := fun _ => EmptyString; seed := 0;
                 contacts := []; trace := [];
          refused := fun _ => None |})
    as (forwarded & set_cookies & Hrun & _ & Hcookies).
  - intros Hanon. discriminate Hanon.
  - intros _. reflexivity.
  - exists forwarded, set_cookies. split; [exact Hrun|].
    split; [exact (proj1 (Hcookies "sb-token"))|].
    split; [exact (proj1 (Hcookies "theme"))|exact (proj2 (Hcookies "theme"))].
Defined.

(** X12.  An anonymous request for a protected page is sent to the
    login address; the same browser, once signed in, is sent from that
    address back to the page it asked for, at the same origin and with
    the query it had (less a [redirectTo] parameter of its own), and
    there the guard lets it through. *)
Theorem login_round_trip (request : NextRequest) (anonymous signed : World.t)
    (user : User) :
  session anonymous = None -> session signed = Some user ->
  isProtectedRoute (pathname (nextUrl request)) = true ->
  exists (login back : URL),
    updateSession request anonymous = (Return (Redirect login), anonymous) /\
    pathname login = "/login" /\
    updateSession (visit request login) signed = (Return (Redirect back), signed) /\
    origin back = origin (nextUrl request) /\
    pathname back = pathname (nextUrl request) /\
    searchParams back = params_delete (searchParams (nextUrl request)) "redirectTo" /\
    (params_get (searchParams (nextUrl request)) "redirectTo" = None ->
     back = nextUrl request) /\
    exists forwarded set_cookies,
      updateSession (visit request back) signed
      = (Return (Next forwarded set_cookies), signed) /\
      nextUrl forwarded = back.
Proof.
  intros Hout Hin Hp.
  assert (Hne : pathname (nextUrl request) <> EmptyString).
  { intros He. rewrite He in Hp. discriminate Hp. }
  eexists _, _. split; [apply (guard_anonymous_protected _ _ Hout Hp)|].
  split; [reflexivity|]. split.
  { rewrite (guard_signed_in_auth _ _ user Hin); [|reflexivity].
    cbn [visit nextUrl searchParams origin pathname].
    rewrite params_get_set, params_delete_set. unfold or_else.
    destruct (String.eqb_spec (pathname (nextUrl request)) EmptyString) as [He|_];
      [contradiction|]. reflexivity. }
  split; [reflexivity|]. split; [reflexivity|]. split; [reflexivity|]. split.
  { intros Hnone. rewrite (params_delete_absent _ _ Hnone).
    destruct (nextUrl request); reflexivity. }
  eexists _, _. split.
  { rewrite guard_passes; [reflexivity| |].
    - unfold signed_in. rewrite Hin. cbn. apply andb_false_r.
    - cbn [visit nextUrl pathname]. rewrite (protected_not_auth _ Hp). reflexivity. }
  reflexivity.
Qed.

(** The instance of X12 for a contact page with a query. *)
Lemma login_round_trip_witness :
  exists login,
    updateSession (Sample.page "/contacts/42" [("tab", "notes")]) (Sample.world None [])
    = (Return (Redirect login), Sample.world None []) /\
    updateSession (visit (Sample.page "/contacts/42" [("tab", "notes")]) login)
      (Sample.world (Some Sample.bob) [])
    = (Return (Redirect (nextUrl (Sample.page "/contacts/42" [("tab", "notes")]))),
       Sample.world (Some Sample.bob) []).
Proof.
  destruct (login_round_trip (Sample.page "/contacts/42" [("tab", "notes")])
              (Sample.world None []) (Sample.world (Some Sample.bob) []) Sample.bob
              eq_refl eq_refl eq_refl)
    as (login & back & H1 & _ & H2 & _ & _ & _ & Hback & _).
  exists login. split; [exact H1|]. rewrite H2, (Hback eq_refl). reflexivity.
Defined.

Ltac guard_side Hs :=
  unfold signed_in; rewrite Hs; cbn;
  rewrite ?andb_false_r, ?andb_true_r; try reflexivity.

(** X13.  The guard never sends a browser round in circles: whatever the
    request and whoever is signed in, following its redirects reaches a
    page that it lets through after two redirects at most. *)
Theorem redirects_settle_within_two_hops (request : NextRequest) (w : World.t) :
  exists n : nat, (n <= 2)%nat /\ hops 2 request w = Some n.
Proof.
  destruct (session w) as [user|] eqn:Hs.
  - destruct (isAuthRoute (pathname (nextUrl request))) eqn:Ha.
    + cbn [hops]. rewrite (guard_signed_in_auth _ _ user Hs Ha).
      set (first := visit request _).
      destruct (isAuthRoute (pathname (nextUrl first))) eqn:Ha1.
      * rewrite (guard_signed_in_auth _ _ user Hs Ha1).
        subst first. cbn [visit nextUrl searchParams pathname origin].
        rewrite params_get_delete. cbn [or_else].
        rewrite guard_passes; [exists 2%nat; split; [lia|reflexivity]|guard_side Hs..].
      * rewrite guard_passes; [exists 1%nat; split; [lia|reflexivity]|guard_side Hs..].
        exact Ha1.
    + cbn [hops]. rewrite guard_passes;
        [exists 0%nat; split; [lia|reflexivity]|guard_side Hs..].
      exact Ha.
  - destruct (isProtectedRoute (pathname (nextUrl request))) eqn:Hp.
    + cbn [hops]. rewrite (guard_anonymous_protected _ _ Hs Hp).
      rewrite guard_passes; [exists 1%nat; split; [lia|reflexivity]|guard_side Hs..].
    + cbn [hops]. rewrite guard_passes;
        [exists 0%nat; split; [lia|reflexivity]|guard_side Hs..].
      exact Hp.
Qed.

End Guard.

(* ===================================================================== *)
(** ** The required text fields *)
(* ===================================================================== *)

Section RequiredTexts.
Import Lang Shapes Names Zod Schemas.

Lemma required_text_iff `{F : Formats} (n : Z) (m1 m2 : string) (p : list string)
    (s : string) (x : JS.value) :
  (str [Min 1 m1; Max n m2; Trim] p (JS.Str s)).1 = OK x <->
  (1 <= JS.length s <= n)%Z /\ x = JS.Str (JS.trim s).
Proof.
  unfold str. cbn [run_checks run_check fst snd].
  destruct (Z.ltb_spec (JS.length s) 1); destruct (Z.ltb_spec n (JS.length s)); cbn;
    (split;
      [intros Hx; first [discriminate Hx|inversion Hx; split; [lia|reflexivity]]
      |intros [Hl Hx]; try lia; subst x; reflexivity]).
Qed.

(** X14.  A required text field (first and last name of a contact,
    title of a deal, name of an organization) measures the text as typed
    and trims it afterwards: a text is accepted exactly when it has
    between one character and the bound of the field, white space
    counted, and the accepted value is the trimmed text.  So a text of
    white space only passes the "is required" rule and is accepted as
    the empty text. *)
Theorem required_text_is_measured_as_typed `{F : Formats} `{C : Coercion}
    (sh : shape) (k : string) (n : Z) :
  (sh, k, n) ∈ required_texts ->
  exists f : field,
    (k, f) ∈ sh /\
    (forall p s x,
       (f p (JS.Str s)).1 = OK x <->
       (1 <= JS.length s <= n)%Z /\ x = JS.Str (JS.trim s)) /\
    (forall p s,
       blank s = true -> (1 <= JS.length s <= n)%Z ->
       (f p (JS.Str s)).1 = OK (JS.Str EmptyString)).
Proof.
  intros Hin. unfold required_texts in Hin.
  repeat (apply elem_of_cons in Hin as [Hin|Hin]); [..|inversion Hin];
    inversion Hin; subst sh k n; clear Hin;
    (eexists; split; [find_field|]);
    (split; [intros p s x; apply required_text_iff|]);
    intros p s Hb Hl; apply required_text_iff; (split; [exact Hl|]);
    rewrite (trim_blank s Hb); reflexivity.
Qed.

(** The instance of X14 for a first name that is one space. *)
Lemma required_text_witness :
  exists f : field,
    ("firstName", f) ∈ contactShape (F := stock) /\
    (f ["firstName"] (JS.Str " ")).1 = OK (JS.Str EmptyString).
Proof.
  destruct (required_text_is_measured_as_typed (F := stock) (C := Sample.digits_only)
              contactShape "firstName" 100%Z (list_elem_of_here _ _))
    as (f & Hf & _ & Hblank).
  exists f. split; [exact Hf|]. apply Hblank; [reflexivity|]. vm_compute.
  split; discriminate.
Defined.

End RequiredTexts.

(* ===================================================================== *)
(** ** The contact queries *)
(* ===================================================================== *)

Section QueryFacts.
Import Lang Effects World Handler Queries.

#[local] Arguments String.append !_ _ / : simpl nomatch.

Lemma insert_permutes (le : Contact -> Contact -> bool) (r : Contact)
    (rows : list Contact) :
  Permutation (insert le r rows) (r :: rows).
Proof.
  induction rows as [|x rows IH]; cbn; [reflexivity|].
  destruct (le r x); [reflexivity|].
  rewrite IH. apply perm_swap.
Qed.

Lemma sort_permutes (le : Contact -> Contact -> bool) (rows : list Contact) :
  Permutation (sort le rows) rows.
Proof.
  induction rows as [|x rows IH]; cbn; [reflexivity|].
  rewrite insert_permutes, IH. reflexivity.
Qed.

(** The sorting engine. *)
#[local] Instance sorting : Engine :=
  {| orderBy := fun c d rows => sort (precedes c d) rows;
     orderBy_permutes := fun c d rows => sort_permutes (precedes c d) rows |}.

Lemma and_true (conds : list (Contact -> bool)) (r : Contact) :
  and_ conds r = true <-> forall c, In c conds -> c r = true.
Proof. unfold and_. apply forallb_forall. Qed.

Lemma conditions_owner (userId : string) (o : options) (r : Contact) :
  and_ (conditions userId o) r = true -> World.userId r = userId.
Proof.
  intros H. apply String.eqb_eq.
  apply (proj1 (and_true _ _) H (eq_userId userId)). left. reflexivity.
Qed.

Lemma in_take {A} (n : nat) (l : list A) (x : A) : In x (take n l) -> In x l.
Proof.
  revert l. induction n as [|n IH]; intros [|y l]; cbn; try tauto.
  intros [->|H]; [left; reflexivity|right; exact (IH _ H)].
Qed.

Lemma in_drop {A} (n : nat) (l : list A) (x : A) : In x (drop n l) -> In x l.
Proof.
  revert l. induction n as [|n IH]; intros [|y l]; cbn; try tauto.
  intros H. right. exact (IH _ H).
Qed.

Lemma toLowerCase_append (a b : string) :
  JS.toLowerCase (a ++ b) = (JS.toLowerCase a ++ JS.toLowerCase b)%string.
Proof.
  unfold JS.toLowerCase. induction a as [|c a IH]; [reflexivity|].
  cbn. rewrite IH. reflexivity.
Qed.

Lemma lower_char_meta (c : ascii) :
  (Ascii.eqb (JS.lower_char c) "%" || Ascii.eqb (JS.lower_char c) "_"
   || Ascii.eqb (JS.lower_char c) "\")
  = (Ascii.eqb c "%" || Ascii.eqb c "_" || Ascii.eqb c "\").
Proof.
  destruct c as [[] [] [] [] [] [] [] []]; reflexivity.
Qed.

Lemma plain_lower (s : string) : plain s = true -> plain (JS.toLowerCase s) = true.
Proof.
  unfold plain, all_chars, chars, JS.toLowerCase.
  induction s as [|c s IH]; [reflexivity|]. cbn.
  rewrite !andb_true_iff, lower_char_meta. intros [Hc Hs]. split; [exact Hc|exact (IH Hs)].
Qed.

Lemma lang_seq_inv (r1 r2 : Regex.t) (s : string) :
  lang (Regex.Seq r1 r2) s <->
  exists s1 s2, s = (s1 ++ s2)%string /\ lang r1 s1 /\ lang r2 s2.
Proof.
  split.
  - intros H. inversion H; subst. eexists _, _. split; [reflexivity|]. split; assumption.
  - intros (s1 & s2 & -> & H1 & H2). constructor; assumption.
Qed.

Lemma lang_class_inv (p : ascii -> bool) (s : string) :
  lang (Regex.Class p) s <-> exists c, s = String c EmptyString /\ p c = true.
Proof.
  split.
  - intros H. inversion H; subst. eexists. split; [reflexivity|assumption].
  - intros (c & -> & Hc). constructor. exact Hc.
Qed.

(** A pattern without wildcards, followed by [%], takes the texts that
    start with it. *)
Lemma like_plain_prefix (p u : string) :
  plain p = true ->
  lang (like (p ++ "%")) u <-> exists b, u = (p ++ b)%string.
Proof.
  unfold plain, all_chars, chars. revert u. induction p as [|c p IH]; intros u Hp.
  - change (like (EmptyString ++ "%")) with (Regex.Seq (Regex.Star Regex.any) Regex.Eps).
    split; [intros _; exists u; reflexivity|intros _].
    rewrite <- (append_nil_right u). constructor; [apply lang_star_any|constructor].
  - cbn in Hp. apply andb_true_iff in Hp as [Hc Hp].
    apply negb_true_iff in Hc. apply orb_false_iff in Hc as [Hc Hb].
    apply orb_false_iff in Hc as [Hc Hu].
    change (like (String c p ++ "%")) with (like (String c (p ++ "%"))).
    cbn [like]. rewrite Hc, Hu, Hb. rewrite lang_seq_inv. split.
    + intros (s1 & s2 & -> & H1 & H2). apply lang_class_inv in H1 as (x & -> & Hx).
      apply is_char_eq in Hx. subst x. apply (IH _ Hp) in H2 as [b ->].
      exists b. reflexivity.
    + intros [b ->]. exists (String c EmptyString), (p ++ b)%string.
      split; [reflexivity|]. split.
      * apply lang_class_inv. exists c. split; [reflexivity|apply is_char_eq; reflexivity].
      * apply (IH _ Hp). exists b. reflexivity.
Qed.

(** Between two [%], a text without wildcards is looked for anywhere. *)
Lemma like_plain_contains (p t : string) :
  plain p = true ->
  Regex.matches (like ("%" ++ p ++ "%")) t = true <-> contains t p.
Proof.
  intros Hp. rewrite matches_lang.
  change (like ("%" ++ p ++ "%"))
    with (Regex.Seq (Regex.Star Regex.any) (like (p ++ "%"))).
  rewrite lang_seq_inv. unfold contains. split.
  - intros (a & u & -> & _ & Hu). apply (like_plain_prefix _ _ Hp) in Hu as [b ->].
    exists a, b. reflexivity.
  - intros (a & b & ->). exists a, (p ++ b)%string. split; [reflexivity|].
    split; [apply lang_star_any|]. apply (like_plain_prefix _ _ Hp). exists b. reflexivity.
Qed.

Lemma ilike_plain (column s : string) (r : Contact) :
  plain s = true ->
  ilike column ("%" ++ s ++ "%") r = true <->
  exists t, text column r = Some t /\ contains (JS.toLowerCase t) (JS.toLowerCase s).
Proof.
  intros Hp. unfold ilike. rewrite !toLowerCase_append.
  change (JS.toLowerCase "%") with "%".
  destruct (text column r) as [t|].
  - rewrite (like_plain_contains _ _ (plain_lower _ Hp)). split.
    + intros H. exists t. split; [reflexivity|exact H].
    + intros (t' & [= <-] & H). exact H.
  - split; [discriminate|intros (t' & Ht & _); discriminate].
Qed.

Lemma eq_column_text (column value : string) (r : Contact) :
  eq_column column value r = true <-> text column r = Some value.
Proof.
  unfold eq_column. destruct (text column r) as [t|].
  - rewrite String.eqb_eq. split; [intros ->; reflexivity|intros [= ->]; reflexivity].
  - split; discriminate.
Qed.

(** X17.  A search text without [%], [_] and backslash is looked for,
    case-insensitively, anywhere in the first name, the last name or the
    e-mail address: a row matches exactly when it belongs to the owner,
    one of the three columns contains the text, and it has the type and
    the organization asked for, if any.  The text is not escaped: a
    search for [%] alone matches whatever the three columns hold. *)
Theorem plain_search_is_containment :
  (forall (userId : string) (o : options) (s : string) (r : Contact),
     given (search o) = Some s -> plain s = true ->
     (and_ (conditions userId o) r = true <->
      World.userId r = userId /\
      (exists column t,
          column ∈ ["firstName"; "lastName"; "email"] /\
          text column r = Some t /\
          contains (JS.toLowerCase t) (JS.toLowerCase s)) /\
      (forall t, given (type o) = Some t -> text "type" r = Some t) /\
      (forall g, given (organizationId o) = Some g ->
                 text "organizationId" r = Some g))) /\
  (forall (column t : string) (r : Contact),
     text column r = Some t -> ilike column ("%" ++ "%" ++ "%") r = true).
Proof.
  split.
  - intros userId o s r Hs Hp. unfold conditions. rewrite Hs.
    unfold and_. rewrite !forallb_app. cbn [forallb]. rewrite !andb_true_iff.
    unfold eq_userId. rewrite String.eqb_eq. unfold or_. cbn [existsb].
    rewrite !orb_true_iff, !(ilike_plain _ _ _ Hp).
    split.
    + intros ((Hu & _) & (Hm & _) & Ht & Ho). split; [exact Hu|]. split.
      * destruct Hm as [(t & H1 & H2)|[(t & H1 & H2)|[(t & H1 & H2)|Hf]]];
          [exists "firstName", t|exists "lastName", t|exists "email", t|discriminate Hf];
          (split; [find_field|split; assumption]).
      * split.
        -- intros t Hgt. rewrite Hgt in Ht. cbn in Ht.
           apply andb_true_iff in Ht as [Ht _]. apply eq_column_text, Ht.
        -- intros g Hgo. rewrite Hgo in Ho. cbn in Ho.
           apply andb_true_iff in Ho as [Ho _]. apply eq_column_text, Ho.
    + intros (Hu & (column & t & Hin & H1 & H2) & Ht & Ho).
      split; [split; [exact Hu|reflexivity]|]. split; [split; [|reflexivity]|split].
      * repeat (apply elem_of_cons in Hin as [->|Hin]); [| | |inversion Hin].
        -- left. exists t. split; assumption.
        -- right. left. exists t. split; assumption.
        -- right. right. left. exists t. split; assumption.
      * destruct (given (type o)) as [t'|]; [|reflexivity]. cbn.
        rewrite (proj2 (eq_column_text _ _ _) (Ht t' eq_refl)). reflexivity.
      * destruct (given (organizationId o)) as [g|]; [|reflexivity]. cbn.
        rewrite (proj2 (eq_column_text _ _ _) (Ho g eq_refl)). reflexivity.
  - intros column t r Ht. unfold ilike. rewrite Ht.
    change (JS.toLowerCase ("%" ++ "%" ++ "%")) with "%%%".
    apply matches_lang.
    change (like "%%%")
      with (Regex.Seq (Regex.Star Regex.any)
              (Regex.Seq (Regex.Star Regex.any)
                 (Regex.Seq (Regex.Star Regex.any) Regex.Eps))).
    rewrite <- (append_nil_right (JS.toLowerCase t)).
    constructor; [apply lang_star_any|].
    change EmptyString with (EmptyString ++ (EmptyString ++ EmptyString))%string.
    constructor; [constructor|]. constructor; constructor.
Qed.

(** The instance of X17 for a search for [doe] and a contact named Doe. *)
Lemma plain_search_witness :
  and_
    (conditions "user-a"
       {| search := Some "doe"; type := None; organizationId := None;
          page := None; limit := None; sortBy := None; sortOrder := None |})
    {| World.id := "contact-1"; World.userId := "user-a";
       columns := {[ "lastName" := JS.Str "McDoe" ]};
       World.createdAt := 0; World.updatedAt := 0 |}
  = true.
Proof.
  apply (proj1 plain_search_is_containment "user-a"
           {| search := Some "doe"; type := None; organizationId := None;
              page := None; limit := None; sortBy := None; sortOrder := None |}
           "doe" _ eq_refl eq_refl).
  split; [reflexivity|]. split.
  - exists "lastName", "McDoe". split; [find_field|]. split; [reflexivity|].
    exists "mc", EmptyString. reflexivity.
  - split; intros x Hx; discriminate Hx.
Defined.

Section WithEngine.
Context `{E : Engine}.

Lemma in_orderBy (c : sortColumn) (d : direction) (rows : list Contact) (r : Contact) :
  In r (orderBy c d rows) <-> In r rows.
Proof.
  split; apply Permutation_in; [|symmetry]; apply orderBy_permutes.
Qed.

(** X15.  Every read of the data layer is scoped to the owner it is
    given: the rows that [getContactsByUser], [getContactById],
    [searchContacts] and [getContactsByOrganization] return are rows of
    the table that belong to that owner, whatever the key, the filters
    and the search text; the list of an owner holds every row of the
    owner, and [getContactCount] is its length. *)
Theorem reads_are_scoped_to_the_owner (userId : string) (w : World.t) :
  (forall r, r ∈ getContactsByUser userId w <->
             r ∈ contacts w /\ World.userId r = userId) /\
  (forall id r, getContactById id userId w = Some r ->
                r ∈ contacts w /\ World.userId r = userId /\ World.id r = id) /\
  (forall o r, r ∈ data (searchContacts userId o w) ->
               r ∈ contacts w /\ World.userId r = userId) /\
  (forall org r, r ∈ getContactsByOrganization org userId w ->
                 r ∈ contacts w /\ World.userId r = userId) /\
  getContactCount userId w = Z.of_nat (List.length (getContactsByUser userId w)).
Proof.
  split; [|split; [|split; [|split]]].
  - intros r. unfold getContactsByUser.
    rewrite !list_elem_of_In, in_orderBy, filter_In. unfold eq_userId.
    rewrite String.eqb_eq. reflexivity.
  - intros id r Hr. unfold getContactById in Hr.
    destruct (List.filter _ (contacts w)) as [|x rest] eqn:Hf; [discriminate|].
    cbn in Hr. inversion Hr; subst x.
    assert (Hin : In r (List.filter (and_ [eq_id id; eq_userId userId]) (contacts w))).
    { rewrite Hf. left. reflexivity. }
    apply filter_In in Hin as [Hin Hc]. unfold and_ in Hc. cbn in Hc.
    apply andb_true_iff in Hc as [Hid Hu]. apply andb_true_iff in Hu as [Hu _].
    split; [apply list_elem_of_In, Hin|].
    split; apply String.eqb_eq; assumption.
  - intros o r Hr. apply list_elem_of_In in Hr. cbn [searchContacts data] in Hr.
    apply in_take, in_drop, in_orderBy, filter_In in Hr as [Hin Hc].
    split; [apply list_elem_of_In, Hin|exact (conditions_owner _ _ _ Hc)].
  - intros org r Hr. apply list_elem_of_In in Hr. unfold getContactsByOrganization in Hr.
    apply in_orderBy, filter_In in Hr as [Hin Hc]. unfold and_ in Hc. cbn in Hc.
    apply andb_true_iff in Hc as [_ Hu]. apply andb_true_iff in Hu as [Hu _].
    split; [apply list_elem_of_In, Hin|apply String.eqb_eq, Hu].
  - unfold getContactCount, getContactsByUser. f_equal.
    symmetry. apply Permutation_length, orderBy_permutes.
Qed.

(** [Math.ceil(total / limit)] is the least number of pages that hold
    [total] rows. *)
Lemma ceil_bounds (t : Z) (l : positive) :
  ((Qceiling (inject_Z t / inject_Z (Z.pos l)) - 1) * Z.pos l < t
   <= Qceiling (inject_Z t / inject_Z (Z.pos l)) * Z.pos l)%Z.
Proof.
  unfold Qceiling, Qfloor, Qdiv, Qmult, Qinv, Qopp, inject_Z. cbn [Qnum Qden].
  rewrite Z.mul_1_r, Pos.mul_1_l.
  pose proof (Z.div_mod (- t) (Z.pos l) ltac:(lia)) as Hdm.
  pose proof (Z.mod_pos_bound (- t) (Z.pos l) ltac:(lia)) as Hb.
  nia.
Qed.

Lemma page_slices {A} (L n : nat) (all : list A) :
  concat (map (fun i => take L (drop (i * L) all)) (seq 0 n)) = take (n * L) all.
Proof.
  induction n as [|n IH]; [reflexivity|].
  rewrite seq_S, map_app, concat_app, IH. cbn [map concat Nat.add].
  rewrite app_nil_r, take_take_drop. f_equal. lia.
Qed.

Lemma page_offset (i : nat) (l : positive) :
  Z.to_nat ((Z.pos (Pos.of_succ_nat i) - 1) * Z.pos l) = (i * Pos.to_nat l)%nat.
Proof. rewrite Zpos_P_of_succ_nat. lia. Qed.

(** X16.  What [searchContacts] reports about a page is consistent with
    what it returns, for every page and page size from one on: [total]
    counts the rows that match, whatever the page; a page holds at most
    [limit] rows, and exactly [limit] when [hasMore] is set; [hasMore] is
    set exactly on the pages before the last, and a page holds a row
    exactly when it is not beyond [totalPages]; and as long as the engine
    keeps to one order, the pages from the first to the last hold every
    matching row once. *)
Theorem search_pages_partition_the_matches (userId : string) (o : options)
    (w : World.t) :
  let found := searchContacts userId o w in
  let size := Pos.to_nat (default 20%positive (limit o)) in
  total (paging found) = Z.of_nat (List.length (matching userId o w)) /\
  (List.length (data found) <= size)%nat /\
  (hasMore (paging found) = true <->
   (page_ (paging found) < totalPages (paging found))%Z) /\
  (hasMore (paging found) = true -> List.length (data found) = size) /\
  (data found <> [] <-> (page_ (paging found) <= totalPages (paging found))%Z) /\
  Permutation
    (concat (map (fun q => data (searchContacts userId (at_page o q) w))
               (pages (totalPages (paging found)))))
    (matching userId o w).
Proof.
  cbv zeta. unfold searchContacts. cbn [data paging total hasMore page_ totalPages].
  fold (matching userId o w).
  set (l := default 20%positive (limit o)).
  set (q := default 1%positive (page o)).
  set (all := orderBy _ _ (matching userId o w)).
  assert (Hlen : List.length all = List.length (matching userId o w)).
  { apply Permutation_length, orderBy_permutes. }
  pose proof (ceil_bounds (Z.of_nat (List.length (matching userId o w))) l) as Hc.
  set (c := Qceiling _) in *.
  assert (Hoff : Z.to_nat ((Z.pos q - 1) * Z.pos l)
                 = ((Pos.to_nat q - 1) * Pos.to_nat l)%nat).
  { rewrite Z2Nat.inj_mul by lia. f_equal; lia. }
  rewrite Hoff.
  assert (Hdata : List.length (take (Pos.to_nat l)
                                 (drop ((Pos.to_nat q - 1) * Pos.to_nat l) all))
                  = Nat.min (Pos.to_nat l)
                      (List.length all - (Pos.to_nat q - 1) * Pos.to_nat l)).
  { rewrite length_take, length_drop. reflexivity. }
  split; [reflexivity|]. split; [rewrite Hdata; lia|].
  split; [rewrite Z.ltb_lt; nia|].
  split; [rewrite Z.ltb_lt, Hdata; nia|].
  split.
  - rewrite <- length_zero_iff_nil, Hdata. nia.
  - rewrite <- (orderBy_permutes (default createdAt (sortBy o))
                  (default desc (sortOrder o)) (matching userId o w)).
    fold all. unfold pages. rewrite map_map.
    rewrite (map_ext _ (fun i => take (Pos.to_nat l) (drop (i * Pos.to_nat l) all))).
    + rewrite page_slices, take_ge; [reflexivity|]. nia.
    + intros i.
      change (take (Pos.to_nat l)
                (drop (Z.to_nat ((Z.pos (Pos.of_succ_nat i) - 1) * Z.pos l)) all)
              = take (Pos.to_nat l) (drop (i * Pos.to_nat l) all)).
      rewrite page_offset. reflexivity.
Qed.

End WithEngine.

(** The instance of X15 for the sorting engine: bob finds nothing in a
    table that holds a row of alice. *)
Lemma reads_are_scoped_witness :
  getContactsByUser (E := sorting) "user-b" (Sample.world None [Sample.johns_row]) = [] /\
  getContactById "contact-1" "user-b" (Sample.world None [Sample.johns_row]) = None /\
  getContactCount "user-b" (Sample.world None [Sample.johns_row]) = 0%Z.
Proof.
  pose proof (reads_are_scoped_to_the_owner (E := sorting) "user-b"
                (Sample.world None [Sample.johns_row])) as (Hlist & Hone & _ & _ & Hcount).
  assert (Hnone : getContactsByUser (E := sorting) "user-b"
                    (Sample.world None [Sample.johns_row]) = []).
  { destruct (getContactsByUser (E := sorting) "user-b"
                (Sample.world None [Sample.johns_row])) as [|r rest] eqn:Hrows;
      [reflexivity|exfalso].
    destruct (proj1 (Hlist r) (list_elem_of_here _ _)) as [Hin Hu].
    apply list_elem_of_singleton in Hin. subst r. discriminate Hu. }
  split; [exact Hnone|]. split.
  - destruct (getContactById "contact-1" "user-b" (Sample.world None [Sample.johns_row]))
      as [r|] eqn:Hr; [exfalso|reflexivity].
    destruct (Hone _ _ Hr) as (Hin & Hu & _).
    apply list_elem_of_singleton in Hin. subst r. discriminate Hu.
  - rewrite Hcount, Hnone. reflexivity.
Defined.

(** The instance of X16 for the sorting engine, pages of two and three
    contacts: two pages, the first one full. *)
Lemma search_pages_witness :
  let o := {| search := None; type := None; organizationId := None;
              page := None; limit := Some 2%positive;
              sortBy := None; sortOrder := None |} in
  let found :=
    searchContacts (E := sorting) "user-a" o (Sample.world None Fixtures.three_contacts) in
  map World.id (data found) = ["contact-2"; "contact-3"] /\
  total (paging found) = 3%Z /\ totalPages (paging found) = 2%Z /\
  hasMore (paging found) = true /\
  Permutation
    (data found
     ++ data (searchContacts (E := sorting) "user-a" (at_page o 2%positive)
                (Sample.world None Fixtures.three_contacts)))
    Fixtures.three_contacts.
Proof.
  cbv zeta.
  pose proof (search_pages_partition_the_matches (E := sorting) "user-a"
                {| search := None; type := None; organizationId := None;
                   page := None; limit := Some 2%positive;
                   sortBy := None; sortOrder := None |}
                (Sample.world None Fixtures.three_contacts)) as (_ & _ & _ & _ & _ & Hall).
  split; [vm_compute; reflexivity|]. split; [vm_compute; reflexivity|].
  split; [vm_compute; reflexivity|]. split; [vm_compute; reflexivity|].
  rewrite <- (app_nil_r (data (searchContacts "user-a" (at_page _ 2%positive) _))).
  exact Hall.
Defined.

End QueryFacts.

(* ===================================================================== *)
(** ** The display helpers *)
(* ===================================================================== *)

Section Display.
Import Utils.

#[local] Arguments String.append !_ _ / : simpl nomatch.

Lemma first_length (n : nat) (s : string) :
  String.length (first n s) = Nat.min n (String.length s).
Proof.
  revert s. induction n as [|n IH]; intros [|c s]; cbn; try reflexivity.
  rewrite IH. reflexivity.
Qed.

Lemma first_all (n : nat) (s : string) :
  (String.length s <= n)%nat -> first n s = s.
Proof.
  revert s. induction n as [|n IH]; intros [|c s]; cbn; try reflexivity; try lia.
  intros H. rewrite IH by lia. reflexivity.
Qed.

Lemma first_first_append (n : nat) (s t : string) :
  (n <= String.length s)%nat -> first n (first n s ++ t) = first n s.
Proof.
  revert s. induction n as [|n IH]; intros [|c s]; cbn; try reflexivity; try lia.
  intros H. rewrite IH by lia. reflexivity.
Qed.

(** X18.  [truncate] with a bound of zero or more: a text that fits is
    returned as it is; a longer one is cut to its first [length]
    characters and gets three dots, so the result has [length + 3]
    characters, which can be more than the text had.  Either way the
    result starts like the text, has at most [length + 3] characters,
    and truncating it again changes nothing. *)
Theorem truncate_keeps_the_head (str : string) (length : Z) :
  (0 <= length)%Z ->
  (JS.length str <= length -> truncate str length = str)%Z /\
  ((length < JS.length str)%Z ->
   truncate str length = (first (Z.to_nat length) str ++ "...")%string /\
   JS.length (truncate str length) = (length + 3)%Z) /\
  first (Z.to_nat length) (truncate str length) = first (Z.to_nat length) str /\
  (JS.length (truncate str length) <= length + 3)%Z /\
  truncate (truncate str length) length = truncate str length.
Proof.
  intros Hn. unfold truncate, slice0, JS.length.
  destruct (Z.leb_spec (Z.of_nat (String.length str)) length) as [Hfit|Hlong].
  - split; [reflexivity|]. split; [lia|]. split; [reflexivity|]. split; [lia|].
    destruct (Z.leb_spec (Z.of_nat (String.length str)) length); [reflexivity|lia].
  - destruct (Z.ltb_spec length 0) as [Hneg|_]; [lia|].
    rewrite Z.min_l by lia.
    assert (Hcut : String.length (first (Z.to_nat length) str ++ "...")
                   = (Z.to_nat length + 3)%nat).
    { rewrite append_length, first_length. cbn. lia. }
    split; [lia|]. split; [intros _; split; [reflexivity|rewrite Hcut; lia]|].
    split; [apply first_first_append; lia|]. split; [rewrite Hcut; lia|].
    rewrite Hcut.
    destruct (Z.leb_spec (Z.of_nat (Z.to_nat length + 3)) length) as [Hbad|_]; [lia|].
    rewrite Z.min_l by lia. rewrite first_first_append by lia. reflexivity.
Qed.

(** The instance of X18 for a bound of ten. *)
Lemma truncate_witness :
  truncate "Hello, this is a long string" 10 = "Hello, thi..." /\
  truncate "Hello, thi..." 10 = "Hello, thi...".
Proof.
  destruct (truncate_keeps_the_head "Hello, this is a long string" 10 ltac:(lia))
    as (_ & Hcut & _ & _ & Hidem).
  destruct (Hcut ltac:(vm_compute; reflexivity)) as [Hcut1 _].
  split; [rewrite Hcut1; reflexivity|].
  rewrite Hcut1 in Hidem. exact Hidem.
Defined.

Ltac div_lia := Z.to_euclidean_division_equations; lia.

(** X19.  [formatRelativeTime] names the largest unit that fits into the
    whole seconds elapsed: below one minute, for a date in the future and
    for an invalid date the answer is "just now"; from one minute on it
    is the whole number of the largest of year, month (30 days), week,
    day, hour and minute that the elapsed time reaches, in the plural
    unless the number is one.  The number is at least one and stays
    below the next unit: at most 59 minutes, 23 hours, 6 days, 4 weeks
    and 12 months. *)
Theorem relative_time_names_the_largest_unit (now then_ : Z) :
  let elapsed := ((now - then_) / 1000)%Z in
  ((elapsed < 60)%Z -> formatRelativeTime now (Some then_) = "just now") /\
  ((60 <= elapsed)%Z ->
   exists (label : string) (seconds : Z),
     (label, seconds) ∈ intervals /\
     (seconds <= elapsed)%Z /\
     (forall label' seconds',
        (label', seconds') ∈ intervals -> (seconds' <= elapsed)%Z ->
        (seconds' <= seconds)%Z) /\
     formatRelativeTime now (Some then_) = ago (elapsed / seconds) label /\
     (1 <= elapsed / seconds)%Z /\
     (forall most, (label, most) ∈ largest -> (elapsed / seconds <= most)%Z)) /\
  formatRelativeTime now None = "just now".
Proof.
  cbv zeta. unfold formatRelativeTime. cbn [option_map].
  generalize ((now - then_) / 1000)%Z. intros d.
  split; [|split; [|reflexivity]].
  - intros Hd. unfold intervals. cbn [first_interval option_map].
    repeat match goal with
           | |- context [(1 <=? ?q)%Z] => destruct (Z.leb_spec 1 q); [div_lia|]
           end.
    reflexivity.
  - intros Hd.
    assert (Hcases : (31536000 <= d \/ 2592000 <= d < 31536000 \/ 604800 <= d < 2592000
                      \/ 86400 <= d < 604800 \/ 3600 <= d < 86400 \/ 60 <= d < 3600)%Z)
      by lia.
    assert (Hall : forall (P : string -> Z -> Prop),
               P "year" 31536000%Z -> P "month" 2592000%Z -> P "week" 604800%Z ->
               P "day" 86400%Z -> P "hour" 3600%Z -> P "minute" 60%Z ->
               forall l s, (l, s) ∈ intervals -> P l s).
    { intros P H1 H2 H3 H4 H5 H6 l s Hin. unfold intervals in Hin.
      repeat (apply elem_of_cons in Hin as [Hin|Hin]; [inversion Hin; subst; assumption|]).
      inversion Hin. }
    assert (Hmost : forall (P : string -> Z -> Prop),
               P "month" 12%Z -> P "week" 4%Z -> P "day" 6%Z -> P "hour" 23%Z ->
               P "minute" 59%Z ->
               forall l m, (l, m) ∈ largest -> P l m).
    { intros P H1 H2 H3 H4 H5 l m Hin. unfold largest in Hin.
      repeat (apply elem_of_cons in Hin as [Hin|Hin]; [inversion Hin; subst; assumption|]).
      inversion Hin. }
    unfold ago.
    destruct Hcases as [H|[H|[H|[H|[H|H]]]]];
      [exists "year", 31536000%Z|exists "month", 2592000%Z|exists "week", 604800%Z
      |exists "day", 86400%Z|exists "hour", 3600%Z|exists "minute", 60%Z];
      (split; [unfold intervals; find_field|]);
      (split; [lia|]);
      (split;
        [intros l' s' Hin Hle;
         match goal with
         | |- (_ <= ?sec)%Z =>
             revert Hle;
             apply (Hall (fun _ x => (x <= d)%Z -> (x <= sec)%Z)) with (l := l') (s := s');
               [..|exact Hin]; lia
         end|]);
      (split;
        [unfold intervals; cbn [first_interval option_map];
         repeat match goal with
                | |- context [(1 <=? ?q)%Z] =>
                    destruct (Z.leb_spec 1 q); [try div_lia; reflexivity|try div_lia]
                end
        |]);
      (split; [div_lia|]);
      intros most; revert most;
      match goal with
      | |- forall most, (?lab, most) ∈ largest -> (?q <= _)%Z =>
          intros most Hin;
          apply (Hmost (fun l' m => l' = lab -> (q <= m)%Z)
                   ltac:(intros Hl; try discriminate Hl; div_lia)
                   ltac:(intros Hl; try discriminate Hl; div_lia)
                   ltac:(intros Hl; try discriminate Hl; div_lia)
                   ltac:(intros Hl; try discriminate Hl; div_lia)
                   ltac:(intros Hl; try discriminate Hl; div_lia) lab most Hin eq_refl)
      end.
Qed.

End Display.

(* ===================================================================== *)
(** ** The authentication actions *)
(* ===================================================================== *)

Section Accounts.
Import Lang Shapes Effects Zod Spec Schemas Errors Auth.

#[local] Arguments String.append !_ _ / : simpl nomatch.

Lemma loginShape_keys `{F : Formats} : NoDup (map fst loginShape).
Proof. apply (bool_decide_unpack _). vm_compute. reflexivity. Qed.

Lemma registerShape_keys `{F : Formats} : NoDup (map fst registerShape).
Proof. apply (bool_decide_unpack _). vm_compute. reflexivity. Qed.

Lemma min_field_ok `{F : Formats} (n : Z) (msg : string) (p : list string)
    (v x : JS.value) :
  (str [Min n msg] p v).1 = OK x ->
  exists s, v = JS.Str s /\ x = JS.Str s /\ (n <= JS.length s)%Z.
Proof.
  destruct v as [|s|num|name]; try (cbn; discriminate).
  unfold str. cbn [run_checks run_check fst snd].
  destruct (Z.ltb_spec (JS.length s) n); cbn; [discriminate|].
  intros [= <-]. exists s. repeat split. lia.
Qed.

Lemma name_field_ok `{F : Formats} (m1 m2 : string) (p : list string) (v x : JS.value) :
  (str [Min 2 m1; Max 100 m2] p v).1 = OK x ->
  exists s, v = JS.Str s /\ x = JS.Str s /\ (2 <= JS.length s <= 100)%Z.
Proof.
  destruct v as [|s|num|name]; try (cbn; discriminate).
  unfold str. cbn [run_checks run_check fst snd].
  destruct (Z.ltb_spec (JS.length s) 2); destruct (Z.ltb_spec 100 (JS.length s));
    cbn; try discriminate.
  intros [= <-]. exists s. repeat split; lia.
Qed.

Lemma password_field_ok `{F : Formats} (p : list string) (v x : JS.value) :
  (passwordField p v).1 = OK x ->
  exists s, v = JS.Str s /\ x = JS.Str s /\ password_messages s = [].
Proof.
  unfold passwordField. destruct v as [|s|num|name]; try (cbn; discriminate).
  unfold str. cbn [run_checks run_check fst snd].
  unfold has_upper, has_lower, has_digit, digit. rewrite !test_class.
  change 8%Z with (Z.of_nat 8). rewrite length_ltb.
  destruct (Nat.ltb_spec (String.length s) 8);
    destruct (some_char JS.is_upper s) eqn:Hu; destruct (some_char JS.is_lower s) eqn:Hl;
    destruct (some_char JS.is_digit s) eqn:Hd; cbn; try discriminate.
  intros [= <-]. exists s. split; [reflexivity|]. split; [reflexivity|].
  unfold password_messages. rewrite Hu, Hl, Hd.
  rewrite (proj2 (Nat.leb_gt (String.length s) 7)) by lia. reflexivity.
Qed.

Lemma email_field_ok `{F : Formats} (p : list string) (v x : JS.value) :
  (emailSchema p v).1 = OK x ->
  exists e, v = JS.Str e /\ x = JS.Str (JS.trim (JS.toLowerCase e)) /\
            email_ok e = true.
Proof.
  destruct v as [|e|num|name]; try (unfold emailSchema; cbn; discriminate).
  intros Hv. destruct (email_field_value p e x Hv) as (Hx & _ & Hok).
  exists e. repeat split; assumption.
Qed.

Lemma refine_success {I A} (S : schema I A) (test : A -> bool) (msg : string)
    (sub : list string) (raw : I) (data : A) :
  safeParse (refine S test msg sub) raw = Success data ->
  safeParse S raw = Success data /\ test data = true.
Proof.
  unfold safeParse, refine. destruct (S [] raw) as [[x|x|] errs].
  - destruct (test x) eqn:Ht; [|discriminate]. intros [= <-]. split; [reflexivity|exact Ht].
  - destruct (test x); discriminate.
  - discriminate.
Qed.

Lemma refine_failure (sh : shape) (test : JS.object -> bool) (msg k : string)
    (raw : JS.object) (errs : list issue) :
  Forall (fun kf => lawful kf.2) sh ->
  safeParse (refine (object sh) test msg [k]) raw = Failure errs ->
  fieldErrors errs <> ∅.
Proof.
  intros Hl. pose proof (rejected_object_errors sh raw) as Hobj.
  unfold safeParse, refine in *.
  destruct (object sh [] raw) as [[x|x|] e].
  - destruct (test x); [discriminate|]. intros [= <-].
    apply (fieldErrors_nonempty _ (Issue custom [k] msg) k); [|reflexivity].
    apply elem_of_app. right. apply list_elem_of_here.
  - destruct (test x); intros [= <-].
    + apply (Hobj e Hl eq_refl).
    + apply (fieldErrors_nonempty _ (Issue custom [k] msg) k); [|reflexivity].
      apply elem_of_app. right. apply list_elem_of_here.
  - intros [= <-]. apply (Hobj e Hl eq_refl).
Qed.

Section WithFormats.
Context `{F : Formats} (provider : Provider).

(** What a form that [loginSchema] accepts holds, and what is handed
    on. *)
Lemma login_parse (raw data : JS.object) :
  safeParse loginSchema raw = Success data ->
  exists e p,
    JS.get raw "email" = JS.Str e /\ email_ok e = true /\
    JS.get data "email" = JS.Str (JS.trim (JS.toLowerCase e)) /\
    JS.get raw "password" = JS.Str p /\ p <> EmptyString /\
    JS.get data "password" = JS.Str p.
Proof.
  intros Hp.
  pose proof (success_field loginShape raw data "email" _ loginShape_keys
                ltac:(find_field) ltac:(discriminate) Hp) as He.
  pose proof (success_field loginShape raw data "password" _ loginShape_keys
                ltac:(find_field) ltac:(discriminate) Hp) as Hw.
  apply email_field_ok in He as (e & He1 & He2 & He3).
  apply min_field_ok in Hw as (p & Hp1 & Hp2 & Hp3).
  exists e, p. repeat split; try assumption.
  intros ->. unfold JS.length in Hp3. cbn in Hp3. lia.
Qed.

Lemma register_parse (raw data : JS.object) :
  safeParse registerSchema raw = Success data ->
  exists e p n,
    JS.get raw "email" = JS.Str e /\ email_ok e = true /\
    JS.get data "email" = JS.Str (JS.trim (JS.toLowerCase e)) /\
    JS.get raw "password" = JS.Str p /\ JS.get raw "confirmPassword" = JS.Str p /\
    password_messages p = [] /\ JS.get data "password" = JS.Str p /\
    JS.get raw "fullName" = JS.Str n /\ (2 <= JS.length n <= 100)%Z /\
    JS.get data "fullName" = JS.Str n.
Proof.
  intros Hr. apply refine_success in Hr as [Hp Heq].
  pose proof (success_field registerShape raw data "email" _ registerShape_keys
                ltac:(find_field) ltac:(discriminate) Hp) as He.
  pose proof (success_field registerShape raw data "password" _ registerShape_keys
                ltac:(find_field) ltac:(discriminate) Hp) as Hw.
  pose proof (success_field registerShape raw data "confirmPassword" _ registerShape_keys
                ltac:(find_field) ltac:(discriminate) Hp) as Hc.
  pose proof (success_field registerShape raw data "fullName" _ registerShape_keys
                ltac:(find_field) ltac:(discriminate) Hp) as Hn.
  apply email_field_ok in He as (e & He1 & He2 & He3).
  apply password_field_ok in Hw as (p & Hp1 & Hp2 & Hp3).
  apply min_field_ok in Hc as (c & Hc1 & Hc2 & _).
  apply name_field_ok in Hn as (n & Hn1 & Hn2 & Hn3).
  unfold passwords_equal in Heq. rewrite Hp2, Hc2 in Heq. cbn in Heq.
  apply String.eqb_eq in Heq. subst c.
  exists e, p, n. repeat split; assumption || lia.
Qed.

(** X20.  [login] hands the identity provider nothing but credentials
    that passed validation.  A form that fails validation is answered
    with its error map, which is not empty, and the provider is not
    asked.  For a form that passes, the provider is asked once, with the
    e-mail address of the form, accepted by the e-mail test as typed and
    then lower-cased and trimmed, and its password, not empty and as
    typed; when the provider refuses, the answer is "Invalid email or
    password" whatever the reason, and when it accepts, the action ends
    in a redirect: to the first [redirectTo] entry of the form when that
    is a text that is not empty, taken as given, and to [/dashboard] when
    the form has none or an empty one. *)
Theorem login_asks_with_validated_credentials prev (formData : list (string * JS.value)) :
  (forall errs,
     safeParse loginSchema (JS.fromEntries formData) = Failure errs ->
     fieldErrors errs <> ∅ /\
     login provider prev formData
     = (Returned (Failed None (Some (fieldErrors errs))), [])) /\
  (forall data,
     safeParse loginSchema (JS.fromEntries formData) = Success data ->
     exists e p,
       JS.get (JS.fromEntries formData) "email" = JS.Str e /\ email_ok e = true /\
       JS.get (JS.fromEntries formData) "password" = JS.Str p /\ p <> EmptyString /\
       login provider prev formData
       = (if signIn_fails provider (JS.Str (JS.trim (JS.toLowerCase e))) (JS.Str p)
          then Returned (Failed (Some "Invalid email or password") None)
          else Redirected (redirect_target formData),
          [SignInWithPassword (JS.Str (JS.trim (JS.toLowerCase e))) (JS.Str p)])) /\
  (forall s, formData_get formData "redirectTo" = Some (JS.Str s) ->
             s <> EmptyString -> redirect_target formData = JS.Str s) /\
  (formData_get formData "redirectTo" = None \/
   formData_get formData "redirectTo" = Some (JS.Str EmptyString) ->
   redirect_target formData = JS.Str "/dashboard").
Proof.
  split; [|split; [|split]].
  - intros errs Hp. unfold login. rewrite Hp.
    split; [|reflexivity].
    apply (rejected_object_errors loginShape _ _ loginShape_lawful Hp).
  - intros data Hp. unfold login. rewrite Hp.
    destruct (login_parse _ _ Hp) as (e & p & He & Hok & Hde & Hw & Hne & Hdw).
    rewrite Hde, Hdw. exists e, p. repeat split; try assumption.
    destruct (signIn_fails provider _ _); reflexivity.
  - intros s Hs Hne. unfold redirect_target. rewrite Hs. unfold JS.or_. cbn.
    destruct (String.eqb_spec s EmptyString); [contradiction|reflexivity].
  - unfold redirect_target. intros [-> | ->]; reflexivity.
Qed.

(** X21.  [register] asks the identity provider to create an account
    only for a form that passed validation.  A form that fails
    validation is answered with its error map, which is not empty, and
    the provider is not asked.  For a form that passes, the provider is
    asked once, with the e-mail address accepted as typed and then
    lower-cased and trimmed, a password that breaks none of the four
    password rules and equals its confirmation, and a full name of 2 to
    100 characters as typed.  What follows is told by the answer of the
    provider.  An error that mentions "already registered" is answered
    with that message under [email]; any other error, and an answer
    without a user, with the one message "Failed to create account.
    Please try again.": no message of the provider reaches the caller.
    For an account the provider created, a profile row is written under
    the key and the address the provider returned, and the action ends
    in a redirect to [/dashboard], also when writing the profile fails
    (that is logged, and nothing else). *)
Theorem register_signs_up_validated_accounts prev (formData : list (string * JS.value)) :
  (forall errs,
     safeParse registerSchema (JS.fromEntries formData) = Failure errs ->
     fieldErrors errs <> ∅ /\
     register provider prev formData
     = (Returned (Failed None (Some (fieldErrors errs))), [])) /\
  (forall data,
     safeParse registerSchema (JS.fromEntries formData) = Success data ->
     exists e p n,
       JS.get (JS.fromEntries formData) "email" = JS.Str e /\ email_ok e = true /\
       JS.get (JS.fromEntries formData) "password" = JS.Str p /\
       JS.get (JS.fromEntries formData) "confirmPassword" = JS.Str p /\
       password_messages p = [] /\
       JS.get (JS.fromEntries formData) "fullName" = JS.Str n /\
       (2 <= JS.length n <= 100)%Z /\
       register provider prev formData
       = match signUp_answer provider (JS.Str (JS.trim (JS.toLowerCase e)))
                 (JS.Str p) (JS.Str n) with
         | SignUpError message =>
             (Returned
                (if JS.includes message "already registered"
                 then Failed None
                        (Some {[ "email" := ["An account with this email already exists"] ]})
                 else Failed (Some "Failed to create account. Please try again.") None),
              [SignUp (JS.Str (JS.trim (JS.toLowerCase e))) (JS.Str p) (JS.Str n)])
         | SignUpData None =>
             (Returned (Failed (Some "Failed to create account. Please try again.") None),
              [SignUp (JS.Str (JS.trim (JS.toLowerCase e))) (JS.Str p) (JS.Str n)])
         | SignUpData (Some (id, address)) =>
             (Redirected (JS.Str "/dashboard"),
              [SignUp (JS.Str (JS.trim (JS.toLowerCase e))) (JS.Str p) (JS.Str n);
               InsertUser id address (JS.Str n)]
              ++ (if insert_throws provider id address (JS.Str n)
                  then [ConsoleError "Failed to create user profile:"] else []))
         end).
Proof.
  split.
  - intros errs Hp. unfold register. rewrite Hp.
    split; [|reflexivity].
    apply (refine_failure registerShape _ _ _ _ _ registerShape_lawful Hp).
  - intros data Hp. unfold register. rewrite Hp.
    destruct (register_parse _ _ Hp)
      as (e & p & n & He & Hok & Hde & Hw & Hc & Hrules & Hdw & Hn & Hlen & Hdn).
    rewrite Hde, Hdw, Hdn. exists e, p, n. repeat split; try assumption; try lia.
    destruct (signUp_answer provider _ _ _) as [message|[[id address]|]].
    + destruct (JS.includes message "already registered"); reflexivity.
    + destruct (insert_throws provider id address (JS.Str n)); reflexivity.
    + reflexivity.
Qed.

End WithFormats.

(** The instance of X20 for ann signing in from the page of her deals,
    with her password and with another, and for a form without a
    password. *)
Lemma login_witness :
  login (F := stock) Fixtures.one_account None
    (Sample.form [("email", "Ann@Example.com"); ("password", "Secret123");
                  ("redirectTo", "/deals")])
  = (Redirected (JS.Str "/deals"),
     [SignInWithPassword (JS.Str "ann@example.com") (JS.Str "Secret123")]) /\
  login (F := stock) Fixtures.one_account None
    (Sample.form [("email", "Ann@Example.com"); ("password", "secret")])
  = (Returned (Failed (Some "Invalid email or password") None),
     [SignInWithPassword (JS.Str "ann@example.com") (JS.Str "secret")]) /\
  login (F := stock) Fixtures.one_account None
    (Sample.form [("email", "Ann@Example.com"); ("password", EmptyString)])
  = (Returned (Failed None (Some {[ "password" := ["Password is required"] ]})), []).
Proof.
  split; [|split].
  - assert (Hp : safeParse (loginSchema (F := stock))
                   (JS.fromEntries
                      (Sample.form [("email", "Ann@Example.com");
                                    ("password", "Secret123"); ("redirectTo", "/deals")]))
                 = Success (<[ "password" := JS.Str "Secret123" ]>
                              (<[ "email" := JS.Str "ann@example.com" ]> ∅)))
      by (vm_compute; reflexivity).
    destruct (proj1 (proj2 (login_asks_with_validated_credentials (F := stock)
                              Fixtures.one_account None _)) _ Hp)
      as (e & p & He & _ & Hw & _ & Hrun).
    vm_compute in He. inversion He; subst e.
    vm_compute in Hw. inversion Hw; subst p.
    rewrite Hrun. vm_compute. reflexivity.
  - assert (Hp : safeParse (loginSchema (F := stock))
                   (JS.fromEntries
                      (Sample.form [("email", "Ann@Example.com"); ("password", "secret")]))
                 = Success (<[ "password" := JS.Str "secret" ]>
                              (<[ "email" := JS.Str "ann@example.com" ]> ∅)))
      by (vm_compute; reflexivity).
    destruct (proj1 (proj2 (login_asks_with_validated_credentials (F := stock)
                              Fixtures.one_account None _)) _ Hp)
      as (e & p & He & _ & Hw & _ & Hrun).
    vm_compute in He. inversion He; subst e.
    vm_compute in Hw. inversion Hw; subst p.
    rewrite Hrun. vm_compute. reflexivity.
  - assert (Hp : safeParse (loginSchema (F := stock))
                   (JS.fromEntries
                      (Sample.form [("email", "Ann@Example.com");
                                    ("password", EmptyString)]))
                 = Failure [Issue too_small ["password"] "Password is required"])
      by (vm_compute; reflexivity).
    destruct (proj1 (login_asks_with_validated_credentials (F := stock)
                       Fixtures.one_account None _) _ Hp) as [_ Hrun].
    rewrite Hrun. vm_compute. reflexivity.
Defined.

(** The instance of X21 for a new account, for an address that has one
    and for a form whose passwords differ. *)
Lemma register_witness :
  register (F := stock) Fixtures.one_account None
    (Sample.form [("email", "Bob@Example.com"); ("password", "Secret123");
                  ("confirmPassword", "Secret123"); ("fullName", "Bob Builder")])
  = (Redirected (JS.Str "/dashboard"),
     [SignUp (JS.Str "bob@example.com") (JS.Str "Secret123") (JS.Str "Bob Builder");
      InsertUser "user-n" "bob@example.com" (JS.Str "Bob Builder")]) /\
  register (F := stock) Fixtures.one_account None
    (Sample.form [("email", "Ann@Example.com"); ("password", "Secret123");
                  ("confirmPassword", "Secret123"); ("fullName", "Ann Other")])
  = (Returned (Failed None
       (Some {[ "email" := ["An account with this email already exists"] ]})),
     [SignUp (JS.Str "ann@example.com") (JS.Str "Secret123") (JS.Str "Ann Other")]) /\
  register (F := stock) Fixtures.one_account None
    (Sample.form [("email", "Bob@Example.com"); ("password", "Secret123");
                  ("confirmPassword", "Secret124"); ("fullName", "Bob Builder")])
  = (Returned (Failed None (Some {[ "confirmPassword" := ["Passwords do not match"] ]})),
     []).
Proof.
  split; [|split].
  - assert (Hp : safeParse (registerSchema (F := stock))
                   (JS.fromEntries
                      (Sample.form [("email", "Bob@Example.com");
                                    ("password", "Secret123");
                                    ("confirmPassword", "Secret123");
                                    ("fullName", "Bob Builder")]))
                 = Success (<[ "fullName" := JS.Str "Bob Builder" ]>
                              (<[ "confirmPassword" := JS.Str "Secret123" ]>
                                 (<[ "password" := JS.Str "Secret123" ]>
                                    (<[ "email" := JS.Str "bob@example.com" ]> ∅)))))
      by (vm_compute; reflexivity).
    destruct (proj2 (register_signs_up_validated_accounts (F := stock)
                       Fixtures.one_account None _) _ Hp)
      as (e & p & n & He & _ & Hw & _ & _ & Hn & _ & Hrun).
    vm_compute in He. inversion He; subst e.
    vm_compute in Hw. inversion Hw; subst p.
    vm_compute in Hn. inversion Hn; subst n.
    rewrite Hrun. vm_compute. reflexivity.
  - assert (Hp : safeParse (registerSchema (F := stock))
                   (JS.fromEntries
                      (Sample.form [("email", "Ann@Example.com");
                                    ("password", "Secret123");
                                    ("confirmPassword", "Secret123");
                                    ("fullName", "Ann Other")]))
                 = Success (<[ "fullName" := JS.Str "Ann Other" ]>
                              (<[ "confirmPassword" := JS.Str "Secret123" ]>
                                 (<[ "password" := JS.Str "Secret123" ]>
                                    (<[ "email" := JS.Str "ann@example.com" ]> ∅)))))
      by (vm_compute; reflexivity).
    destruct (proj2 (register_signs_up_validated_accounts (F := stock)
                       Fixtures.one_account None _) _ Hp)
      as (e & p & n & He & _ & Hw & _ & _ & Hn & _ & Hrun).
    vm_compute in He. inversion He; subst e.
    vm_compute in Hw. inversion Hw; subst p.
    vm_compute in Hn. inversion Hn; subst n.
    rewrite Hrun. vm_compute. reflexivity.
  - assert (Hp : safeParse (registerSchema (F := stock))
                   (JS.fromEntries
                      (Sample.form [("email", "Bob@Example.com");
                                    ("password", "Secret123");
                                    ("confirmPassword", "Secret124");
                                    ("fullName", "Bob Builder")]))
                 = Failure [Issue custom ["confirmPassword"] "Passwords do not match"])
      by (vm_compute; reflexivity).
    destruct (proj1 (register_signs_up_validated_accounts (F := stock)
                       Fixtures.one_account None _) _ Hp) as [_ Hrun].
    rewrite Hrun. vm_compute. reflexivity.
Defined.

End Accounts.

(* ===================================================================== *)
(** ** The search parameters *)
(* ===================================================================== *)

Section SearchParameters.
Import Zod Spec Schemas SearchParams.

Lemma omap_none {A B} (f : A -> option B) (l : list A) :
  omap f l = [] -> forall x, x ∈ l -> f x = None.
Proof.
  induction l as [|y l IH]; intros Ho x Hx; [inversion Hx|].
  cbn in Ho. destruct (f y) eqn:Hy; [discriminate|].
  apply elem_of_cons in Hx as [->|Hx]; [exact Hy|exact (IH Ho x Hx)].
Qed.

(** A coerced number is accepted when it is not [NaN] and passes every
    check. *)
Lemma coerce_number_ok `{C : Coercion} (cs : list limit) (p : list string)
    (v x : JS.value) :
  (coerce_number cs p v).1 = OK x ->
  x = JS.Num (Number v) /\ forall c, c ∈ cs -> run_limit p c (Number v) = None.
Proof.
  unfold coerce_number. destruct (Number v) as [|neg|q] eqn:Hn; [discriminate| |];
    cbn [fst]; destruct (omap _ cs) eqn:Ho; try discriminate;
    intros [= <-]; (split; [reflexivity|exact (omap_none _ _ Ho)]).
Qed.

Lemma whole_number (n : JS.number) :
  JS.isInteger n = true -> exists q z, n = JS.Finite q /\ Qeq q (inject_Z z).
Proof.
  destruct n as [|neg|[num den]]; try discriminate. cbn. intros Hr%Z.eqb_eq.
  exists (num # den), (Z.quot num (Z.pos den)). split; [reflexivity|].
  unfold Qeq, inject_Z. cbn.
  pose proof (Z.quot_rem' num (Z.pos den)) as Hq. rewrite Hr in Hq. lia.
Qed.

Lemma not_below (q : Q) (z k : Z) :
  Qeq q (inject_Z z) -> JS.lt (JS.Finite q) k = false -> (k <= z)%Z.
Proof.
  intros Hq Hlt. cbn in Hlt. apply negb_false_iff, Qle_bool_iff in Hlt.
  rewrite Hq in Hlt. rewrite Zle_Qle. exact Hlt.
Qed.

Lemma not_above (q : Q) (z k : Z) :
  Qeq q (inject_Z z) -> JS.gt (JS.Finite q) k = false -> (z <= k)%Z.
Proof.
  intros Hq Hgt. cbn in Hgt. apply negb_false_iff, Qle_bool_iff in Hgt.
  rewrite Hq in Hgt. rewrite Zle_Qle. exact Hgt.
Qed.

Lemma above (q : Q) (z k : Z) :
  Qeq q (inject_Z z) -> JS.gt (JS.Finite q) k = true -> (k < z)%Z.
Proof.
  intros Hq Hgt. cbn in Hgt. apply negb_true_iff in Hgt.
  destruct (Z.lt_ge_cases k z) as [Hlt|Hge]; [exact Hlt|exfalso].
  assert (Hle : Qle_bool q (inject_Z k) = true).
  { apply Qle_bool_iff. rewrite Hq. rewrite <- Zle_Qle. exact Hge. }
  congruence.
Qed.

Section WithLibrary.
Context `{F : Formats} `{C : Coercion}.

Lemma page_ok (p : list string) (v x : JS.value) :
  (pageField p v).1 = OK x ->
  whole_between 1 None x /\
  ((forall n, Number (JS.Num n) = n) -> v = JS.Undefined -> x = JS.Num (JS.Finite 1)).
Proof.
  unfold pageField, default_.
  set (a := match v with JS.Undefined => JS.Num (JS.Finite 1) | _ => v end).
  assert (Hinner : (coerce_number [Check (Int int_message);
                                   Positive "Number must be greater than 0"] p a).1 = OK x ->
                   whole_between 1 None x /\ x = JS.Num (Number a)).
  { intros Hv. apply coerce_number_ok in Hv as [-> Hcs].
    pose proof (Hcs _ (list_elem_of_here _ _)) as Hint.
    pose proof (Hcs _ (list_elem_of_further _ _ _ (list_elem_of_here _ _))) as Hpos.
    cbn in Hint, Hpos.
    destruct (JS.isInteger (Number a)) eqn:Hi; [|discriminate].
    destruct (whole_number _ Hi) as (q & z & Hq & Hz). rewrite Hq in *.
    destruct (JS.gt (JS.Finite q) 0) eqn:Hg; [|discriminate].
    split; [|reflexivity]. exists z. split; [pose proof (above q z 0 Hz Hg); lia|].
    split; [discriminate|]. exists q. split; [reflexivity|exact Hz]. }
  intros Hv.
  assert (Hv' : (coerce_number [Check (Int int_message);
                                Positive "Number must be greater than 0"] p a).1 = OK x).
  { subst a. destruct v; exact Hv. }
  destruct (Hinner Hv') as [Hw Hx]. split; [exact Hw|].
  intros Hnum ->. subst a. rewrite Hx, Hnum. reflexivity.
Qed.

Lemma limit_ok (p : list string) (v x : JS.value) :
  (limitField p v).1 = OK x ->
  whole_between 1 (Some 100%Z) x /\
  ((forall n, Number (JS.Num n) = n) -> v = JS.Undefined -> x = JS.Num (JS.Finite 20)).
Proof.
  unfold limitField, default_.
  set (a := match v with JS.Undefined => JS.Num (JS.Finite 20) | _ => v end).
  set (cs := [Check (Int int_message);
              Check (NMin 1 "Number must be greater than or equal to 1");
              Check (NMax 100 "Number must be less than or equal to 100")]).
  assert (Hinner : (coerce_number cs p a).1 = OK x ->
                   whole_between 1 (Some 100%Z) x /\ x = JS.Num (Number a)).
  { intros Hv. apply coerce_number_ok in Hv as [-> Hcs].
    pose proof (Hcs _ (list_elem_of_here _ _)) as Hint.
    pose proof (Hcs _ (list_elem_of_further _ _ _ (list_elem_of_here _ _))) as Hmin.
    pose proof (Hcs _ (list_elem_of_further _ _ _
                         (list_elem_of_further _ _ _ (list_elem_of_here _ _)))) as Hmax.
    cbn in Hint, Hmin, Hmax.
    destruct (JS.isInteger (Number a)) eqn:Hi; [|discriminate].
    destruct (whole_number _ Hi) as (q & z & Hq & Hz). rewrite Hq in *.
    destruct (JS.lt (JS.Finite q) 1) eqn:Hl; [discriminate|].
    destruct (JS.gt (JS.Finite q) 100) eqn:Hg; [discriminate|].
    split; [|reflexivity]. exists z. split; [exact (not_below q z 1 Hz Hl)|].
    split; [intros h [= <-]; exact (not_above q z 100 Hz Hg)|].
    exists q. split; [reflexivity|exact Hz]. }
  intros Hv.
  assert (Hv' : (coerce_number cs p a).1 = OK x).
  { subst a. destruct v; exact Hv. }
  destruct (Hinner Hv') as [Hw Hx]. split; [exact Hw|].
  intros Hnum ->. subst a. rewrite Hx, Hnum. reflexivity.
Qed.

Lemma choice_ok (options : list string) (d : string) (p : list string) (v x : JS.value) :
  d ∈ options ->
  (default_ (optional (enum options)) (JS.Str d) p v).1 = OK x ->
  exists c, x = JS.Str c /\ c ∈ options /\ (v = JS.Undefined -> c = d).
Proof.
  intros Hd. destruct v as [|t|num|name]; try (cbn; discriminate).
  - unfold default_, optional, enum. case_bool_decide as Ht; cbn; [|contradiction].
    intros [= <-]. exists d. repeat split. exact Hd.
  - unfold default_, optional, enum. case_bool_decide as Ht; cbn; [|discriminate].
    intros [= <-]. exists t. split; [reflexivity|]. split; [exact Ht|discriminate].
Qed.

Lemma optional_ok (s : field) (P : string -> Prop) (p : list string) (v x : JS.value) :
  (forall t y, (s p (JS.Str t)).1 = OK y -> y = JS.Str t /\ P t) ->
  (forall y, v <> JS.Undefined -> (forall t, v <> JS.Str t) -> (s p v).1 <> OK y) ->
  (optional s p v).1 = OK x -> absent_or P x.
Proof.
  intros Hs Hn. destruct v as [|t|num|name]; cbn.
  - intros [= <-]. left. reflexivity.
  - intros Hv. destruct (Hs _ _ Hv) as [-> HP]. right. exists t. split; [reflexivity|exact HP].
  - intros Hv. exfalso. apply (Hn x); [discriminate|discriminate|exact Hv].
  - intros Hv. exfalso. apply (Hn x); [discriminate|discriminate|exact Hv].
Qed.

Lemma contactSearchShape_keys : NoDup (map fst contactSearchShape).
Proof. apply (bool_decide_unpack _). vm_compute. reflexivity. Qed.

(** X22.  What [contactSearchSchema] lets through is a well-formed
    search: [page] is a whole number from one on, [limit] a whole number
    from 1 to 100, [sortBy] one of the four sort columns and [sortOrder]
    [asc] or [desc]; [search] is absent or a text of at most 100
    characters, [type] absent or a contact type, [organizationId] absent
    or a text that passes the UUID test.  A parameter that is missing
    takes its default: [createdAt], [desc] and - as [Number] leaves a
    number as it is - page 1 and limit 20. *)
Theorem validated_search_is_in_range (raw data : JS.object) :
  safeParse contactSearchSchema raw = Success data ->
  whole_between 1 None (JS.get data "page") /\
  whole_between 1 (Some 100%Z) (JS.get data "limit") /\
  (exists c, JS.get data "sortBy" = JS.Str c /\ c ∈ sortColumns) /\
  (exists d, JS.get data "sortOrder" = JS.Str d /\ d ∈ sortOrders) /\
  absent_or (fun s => (JS.length s <= 100)%Z) (JS.get data "search") /\
  absent_or (fun t => t ∈ contactTypes) (JS.get data "type") /\
  absent_or (fun u => uuid_ok u = true) (JS.get data "organizationId") /\
  (JS.get raw "sortBy" = JS.Undefined -> JS.get data "sortBy" = JS.Str "createdAt") /\
  (JS.get raw "sortOrder" = JS.Undefined -> JS.get data "sortOrder" = JS.Str "desc") /\
  ((forall n, Number (JS.Num n) = n) ->
   (JS.get raw "page" = JS.Undefined -> JS.get data "page" = JS.Num (JS.Finite 1)) /\
   (JS.get raw "limit" = JS.Undefined -> JS.get data "limit" = JS.Num (JS.Finite 20))).
Proof.
  intros Hp.
  assert (Hfield : forall k s, (k, s) ∈ contactSearchShape -> k <> "__proto__" ->
                     (s [k] (JS.get raw k)).1 = OK (JS.get data k)).
  { intros k s Hin Hk.
    exact (success_field contactSearchShape raw data k s contactSearchShape_keys Hin Hk Hp). }
  pose proof (Hfield "search" _ ltac:(find_field) ltac:(discriminate)) as Hsearch.
  pose proof (Hfield "type" _ ltac:(find_field) ltac:(discriminate)) as Htype.
  pose proof (Hfield "organizationId" _ ltac:(find_field) ltac:(discriminate)) as Horg.
  pose proof (Hfield "page" _ ltac:(find_field) ltac:(discriminate)) as Hpage.
  pose proof (Hfield "limit" _ ltac:(find_field) ltac:(discriminate)) as Hlimit.
  pose proof (Hfield "sortBy" _ ltac:(find_field) ltac:(discriminate)) as Hby.
  pose proof (Hfield "sortOrder" _ ltac:(find_field) ltac:(discriminate)) as Horder.
  apply page_ok in Hpage as [Hpage Hpage1].
  apply limit_ok in Hlimit as [Hlimit Hlimit1].
  apply choice_ok in Hby as (c & Hc & Hcin & Hcd); [|find_field].
  apply choice_ok in Horder as (d & Hd & Hdin & Hdd); [|find_field].
  split; [exact Hpage|]. split; [exact Hlimit|].
  split; [exists c; split; assumption|]. split; [exists d; split; assumption|].
  split; [|split; [|split; [|split; [|split]]]].
  - eapply optional_ok; [| |exact Hsearch].
    + intros t y. unfold str. cbn [run_checks run_check fst snd].
      destruct (Z.ltb_spec 100 (JS.length t)); cbn; [discriminate|].
      intros [= <-]. split; [reflexivity|lia].
    + intros y Hu Hs. destruct (JS.get raw "search"); try (cbn; discriminate);
        exfalso; first [exact (Hu eq_refl)|exact (Hs _ eq_refl)].
  - eapply optional_ok; [| |exact Htype].
    + intros t y. unfold enum. case_bool_decide as Ht; cbn; [|discriminate].
      intros [= <-]. split; [reflexivity|exact Ht].
    + intros y Hu Hs. destruct (JS.get raw "type"); try (cbn; discriminate);
        exfalso; first [exact (Hu eq_refl)|exact (Hs _ eq_refl)].
  - eapply optional_ok; [| |exact Horg].
    + intros t y. unfold uuidSchema, str. cbn [run_checks run_check fst snd].
      destruct (uuid_ok t) eqn:Hu; cbn; [|discriminate].
      intros [= <-]. split; reflexivity.
    + intros y Hu Hs. destruct (JS.get raw "organizationId");
        try (unfold uuidSchema; cbn; discriminate);
        exfalso; first [exact (Hu eq_refl)|exact (Hs _ eq_refl)].
  - intros Hu. rewrite Hc, (Hcd Hu). reflexivity.
  - intros Hu. rewrite Hd, (Hdd Hu). reflexivity.
  - intros Hnum. split; intros Hu; [exact (Hpage1 Hnum Hu)|exact (Hlimit1 Hnum Hu)].
Qed.

End WithLibrary.

(** The instance of X22 for a search of the second page. *)
Lemma validated_search_witness :
  exists data,
    safeParse (contactSearchSchema (F := stock) (C := Sample.digits_only))
      (JS.fromEntries (Sample.form [("page", "2"); ("search", "doe")]))
    = Success data /\
    whole_between 1 (Some 100%Z) (JS.get data "limit") /\
    JS.get data "limit" = JS.Num (JS.Finite 20) /\
    JS.get data "sortBy" = JS.Str "createdAt".
Proof.
  exists (<[ "sortOrder" := JS.Str "desc" ]>
            (<[ "sortBy" := JS.Str "createdAt" ]>
               (<[ "limit" := JS.Num (JS.Finite 20) ]>
                  (<[ "page" := JS.Num (JS.Finite 2) ]>
                     (<[ "search" := JS.Str "doe" ]> ∅))))).
  assert (Hp : safeParse (contactSearchSchema (F := stock) (C := Sample.digits_only))
                 (JS.fromEntries (Sample.form [("page", "2"); ("search", "doe")]))
               = Success
                   (<[ "sortOrder" := JS.Str "desc" ]>
                      (<[ "sortBy" := JS.Str "createdAt" ]>
                         (<[ "limit" := JS.Num (JS.Finite 20) ]>
                            (<[ "page" := JS.Num (JS.Finite 2) ]>
                               (<[ "search" := JS.Str "doe" ]> ∅))))))
    by (vm_compute; reflexivity).
  destruct (validated_search_is_in_range (F := stock) (C := Sample.digits_only) _ _ Hp)
    as (_ & Hlimit & _ & _ & _ & _ & _ & Hby & _ & Hdefaults).
  split; [exact Hp|]. split; [exact Hlimit|]. split.
  - apply Hdefaults; [intros n; reflexivity|vm_compute; reflexivity].
  - apply Hby. vm_compute. reflexivity.
Defined.

End SearchParameters.

(* ===================================================================== *)
(** ** The navigation and the guard *)
(* ===================================================================== *)

Section NavigationGuard.
Import Routes World Handler Middleware Navigation.

#[local] Arguments String.append !_ _ / : simpl nomatch.

Lemma some_prefix (routes : list string) (route rest : string) :
  route ∈ routes ->
  JS.some (fun r => JS.startsWith (route ++ rest) r) routes = true.
Proof.
  intros Hin. unfold JS.some. apply existsb_exists. exists route.
  split; [apply list_elem_of_In, Hin|]. apply startsWith_prefix. exists rest. reflexivity.
Qed.

(** X23.  Every entry of the side bar but one leads to a page that the
    guard protects: an anonymous request for the address of the entry,
    or for any address that starts with it, is sent to the login page.
    The exception is Reports: whoever asks, with or without an identity,
    a request for an address that starts with [/reports] passes the
    guard. *)
Theorem navigation_is_guarded_except_reports :
  (forall (item : NavigationItem) (rest : string) (request : NextRequest) (w : World.t),
     item ∈ mainNavigation ++ secondaryNavigation ->
     href item <> "/reports" ->
     pathname (nextUrl request) = (href item ++ rest)%string ->
     session w = None ->
     exists login,
       updateSession request w = (Return (Redirect login), w) /\
       pathname login = "/login") /\
  (forall (rest : string) (request : NextRequest) (w : World.t),
     pathname (nextUrl request) = ("/reports" ++ rest)%string ->
     exists forwarded set_cookies,
       updateSession request w = (Return (Next forwarded set_cookies), w) /\
       nextUrl forwarded = nextUrl request).
Proof.
  split.
  - intros item rest request w Hin Hne Hpath Hs.
    assert (Hp : isProtectedRoute (pathname (nextUrl request)) = true).
    { rewrite Hpath. unfold isProtectedRoute. apply some_prefix.
      cbn in Hin.
      repeat (apply elem_of_cons in Hin as [->|Hin]); try (cbn; find_field);
        [contradiction|inversion Hin]. }
    eexists. split; [exact (guard_anonymous_protected request w Hs Hp)|reflexivity].
  - intros rest request w Hpath. eexists _, _. split.
    + apply guard_passes; rewrite Hpath; reflexivity.
    + reflexivity.
Qed.

(** The instance of X23 for an anonymous request for a report. *)
Lemma navigation_witness :
  exists forwarded set_cookies,
    updateSession (Sample.page "/reports/2024" []) (Sample.world None [])
    = (Return (Next forwarded set_cookies), Sample.world None []).
Proof.
  destruct (proj2 navigation_is_guarded_except_reports "/2024"
              (Sample.page "/reports/2024" []) (Sample.world None []) eq_refl)
    as (forwarded & set_cookies & Hrun & _).
  exists forwarded, set_cookies. exact Hrun.
Defined.

End NavigationGuard.

(* ===================================================================== *)
(** ** The interface store *)
(* ===================================================================== *)

Section Store.
Import UIStore.

Lemma set_consistent (a : action) (state : UIState) :
  modal_consistent state -> modal_consistent (set a state).
Proof.
  unfold modal_consistent. destruct a; cbn; auto. discriminate.
Qed.

Lemma run_app (xs ys : list action) (state : UIState) :
  run (xs ++ ys) state = run ys (run xs state).
Proof. unfold run. apply fold_left_app. Qed.

(** X24.  Whatever setters are called and in whatever order, starting
    from the initial state or from a reloaded page, the store holds modal
    data only while a modal is active; toggling the side bar twice
    changes nothing; and a reload keeps the collapsed flag of the side
    bar and nothing else: the side bar is open again, and any modal, the
    command palette and the mobile menu are closed. *)
Theorem store_keeps_modal_data_with_its_modal (actions : list action)
    (stored : option bool) :
  modal_consistent (run actions (rehydrate stored)) /\
  (forall state, set toggleSidebar (set toggleSidebar state) = state) /\
  (let state := run actions (rehydrate stored) in
   let reloaded := rehydrate (Some (partialize state)) in
   sidebarCollapsed reloaded = sidebarCollapsed state /\
   sidebarOpen reloaded = true /\ activeModal reloaded = None /\
   modalData reloaded = None /\ commandOpen reloaded = false /\
   mobileMenuOpen reloaded = false).
Proof.
  split; [|split].
  - assert (Hstart : modal_consistent (rehydrate stored)).
    { destruct stored; intros _; reflexivity. }
    revert Hstart. generalize (rehydrate stored).
    induction actions as [|a actions IH]; intros state Hs; [exact Hs|].
    cbn. apply IH, set_consistent, Hs.
  - intros [open collapsed modal data command menu]. cbn.
    rewrite negb_involutive. reflexivity.
  - cbv zeta. repeat split.
Qed.

End Store.
